(** * aineko.core.dataset: dataset consumers and producers

    A shallow embedding of [src/aineko/core/dataset.py] and the properties
    of its topic naming, message envelope, consumption modes and in-memory
    fakes.

    Conventions of the embedding:
    - a Python [str] is the list of its code points ([str := list N]);
      [bytes] is [list byte];
    - a JSON-compatible Python value ([None], [bool], [int], [float],
      [str], [list], [dict] with [str] keys) is a [json]; a [dict] keeps
      its insertion order, as Python's does.  A [float] is an IEEE 754
      binary64, in the Standard Library's [spec_float].  The interpreter's
      limit on the number of digits of an [int] it converts to or from
      text is outside the embedding;
    - a method is a function of the object's state that returns, raises or
      exhausts the iteration budget of an unbounded [while] loop;
    - the Kafka client of [confluent_kafka] is a record holding what the
      broker will deliver at the next polls, the watermarks it reports and
      the trace of the calls the client received.  A [KafkaError] is not
      a [KafkaException]: the client raises the second, which wraps the
      first, and [KafkaError.code()] is an [int]. *)

From Stdlib Require Import List NArith ZArith QArith Bool Ascii String Lia.
From Stdlib Require Import Strings.Byte.
From Stdlib Require DecimalPos DecimalN DecimalZ.
From Stdlib Require SpecFloat.
Import ListNotations.

Set Implicit Arguments.
Set Warnings "-register-all".

(* ================================================================== *)
(** ** Python values *)

Module Py.

(** Python [str]: a sequence of Unicode code points. *)
Definition str := list N.

(** A literal of the source, written as a Rocq string of ASCII
    characters. *)
Definition lit (s : string) : str :=
  List.map N_of_ascii (list_ascii_of_string s).

Fixpoint str_eqb (a b : str) : bool :=
  match a, b with
  | [], [] => true
  | x :: a', y :: b' => N.eqb x y && str_eqb a' b'
  | _, _ => false
  end.

(** Truthiness of an [Optional[str]]: [None] and [""] are falsy. *)
Definition truthy_str (o : option str) : bool :=
  match o with
  | Some (_ :: _) => true
  | _ => false
  end.

(** What an f-string prints for an [Optional[str]]. *)
Definition format_opt (o : option str) : str :=
  match o with
  | Some s => s
  | None => lit "None"
  end.

(** Python [float]: an IEEE 754 binary64.  A float that [is_float] has
    its mantissa and exponent in range and in canonical form. *)
Definition float : Type := SpecFloat.spec_float.

Definition is_float (x : float) : bool := SpecFloat.valid_binary 53 1024 x.

(** Values that serialise to JSON. *)
Inductive json : Type :=
| JNull
| JBool (b : bool)
| JInt (z : Z)
| JFloat (x : float)
| JStr (s : str)
| JArr (l : list json)
| JObj (d : list (str * json)).

(** Python [dict] with [str] keys, in insertion order. *)
Definition dict := list (str * json).

Fixpoint dict_get (d : dict) (k : str) : option json :=
  match d with
  | [] => None
  | (k', v) :: d' => if str_eqb k' k then Some v else dict_get d' k
  end.

(** [d[k] = v]: an existing key keeps its position. *)
Fixpoint dict_set (d : dict) (k : str) (v : json) : dict :=
  match d with
  | [] => [(k, v)]
  | (k', v') :: d' =>
      if str_eqb k' k then (k', v) :: d' else (k', v') :: dict_set d' k v
  end.

Definition dict_contains (d : dict) (k : str) : bool :=
  match dict_get d k with Some _ => true | None => false end.

(** [dict(pairs)]: the pairs are inserted from left to right. *)
Definition dict_of_pairs (pairs : list (str * json)) : dict :=
  fold_left (fun d kv => dict_set d (fst kv) (snd kv)) pairs [].

(** [x == z] for a [float] and an [int]: Python compares the two
    values exactly. *)
Definition float_eq_int (x : float) (z : Z) : bool :=
  match x with
  | SpecFloat.S754_zero _ => Z.eqb z 0
  | SpecFloat.S754_finite s m e =>
      let v := if s then Zneg m else Zpos m in
      if (0 <=? e)%Z then Z.eqb z (v * 2 ^ e) else Z.eqb (z * 2 ^ (- e)) v
  | _ => false
  end.

Definition int_of_bool (b : bool) : Z := if b then 1%Z else 0%Z.

(** Python's [==] on JSON-compatible values: [bool] is a subtype of
    [int] ([True == 1]), numbers compare by value ([1.0 == 1]; a NaN
    equals nothing), lists compare element by element, dicts compare as
    maps whatever their insertion order. *)
Fixpoint py_eq (a b : json) {struct a} : bool :=
  match a, b with
  | JNull, JNull => true
  | JBool x, JBool y => Bool.eqb x y
  | JBool x, JInt y => Z.eqb (int_of_bool x) y
  | JInt x, JBool y => Z.eqb x (int_of_bool y)
  | JInt x, JInt y => Z.eqb x y
  | JFloat x, JFloat y => SpecFloat.SFeqb x y
  | JFloat x, JInt y => float_eq_int x y
  | JInt x, JFloat y => float_eq_int y x
  | JFloat x, JBool y => float_eq_int x (int_of_bool y)
  | JBool x, JFloat y => float_eq_int y (int_of_bool x)
  | JStr x, JStr y => str_eqb x y
  | JArr xs, JArr ys =>
      (fix list_eq (xs ys : list json) {struct xs} : bool :=
         match xs, ys with
         | [], [] => true
         | x :: xs', y :: ys' => py_eq x y && list_eq xs' ys'
         | _, _ => false
         end) xs ys
  | JObj xs, JObj ys =>
      Nat.eqb (List.length xs) (List.length ys)
      && (fix items_in (xs : list (str * json)) {struct xs} : bool :=
            match xs with
            | [] => true
            | (k, v) :: xs' =>
                match dict_get ys k with
                | Some w => py_eq v w && items_in xs'
                | None => false
                end
            end) xs
  | _, _ => false
  end.

End Py.
Import Py.

(* ================================================================== *)
(** ** Data of [confluent_kafka] the module handles *)

Module Kafka_data.

(** [confluent_kafka.OFFSET_INVALID]. *)
Definition OFFSET_INVALID : Z := -1001.

(** [KafkaError]: the source reads [e.code()], which is an [int], one
    of the constants of the class. *)
Record KafkaError : Type := { code : Z }.

(** [KafkaError._MAX_POLL_EXCEEDED] and [KafkaError._TRANSPORT]. *)
Definition KafkaError_MAX_POLL_EXCEEDED : Z := -147.
Definition KafkaError_TRANSPORT : Z := -195.

(** What [Message.value()] can hold: the source accepts [bytes], [str]
    and an already structured value. *)
Inductive payload : Type :=
| Bytes (b : list byte)
| Text (s : str)
| Structured (j : json).

Record Message : Type := {
  value : option payload;
  error : option KafkaError
}.

Record TopicPartition : Type := {
  topic : str;
  partition : Z;
  offset : Z
}.

End Kafka_data.
Import Kafka_data.

(* ================================================================== *)
(** ** Control: return, raise, or an unbounded loop that keeps going *)

Module Exec.

(** Exceptions.  [KafkaErrorRaised e] is a [KafkaError] object raised
    as it is; [KafkaException e] is the exception the Kafka client
    raises for a failure of its own, which wraps the [KafkaError] and is
    not an instance of it. *)
Inductive exn : Type :=
| ValueError (msg : str)
| KafkaErrorRaised (e : KafkaError)
| KafkaException (e : KafkaError)
| TypeError
| ValidationError
| UnicodeDecodeError
| UnicodeEncodeError.

(** The result of running a method from a state of type [St]:
    - [Return a s]: it returned [a] and left the state [s];
    - [Raise e s]: it raised [e], the state being [s] at that point;
    - [Running]: the iteration budget given to a [while True] loop ran
      out before the loop was left. *)
Inductive outcome (St A : Type) : Type :=
| Return (a : A) (s : St)
| Raise (e : exn) (s : St)
| Running.

Arguments Return {St A} a s.
Arguments Raise {St A} e s.
Arguments Running {St A}.

Definition M (St A : Type) : Type := St -> outcome St A.

Definition ret {St A} (a : A) : M St A := fun s => Return a s.

Definition bind {St A B} (m : M St A) (k : A -> M St B) : M St B :=
  fun s =>
    match m s with
    | Return a s' => k a s'
    | Raise e s' => Raise e s'
    | Running => Running
    end.

Definition raise {St A} (e : exn) : M St A := fun s => Raise e s.

Definition running {St A} : M St A := fun _ => Running.

Definition get {St} : M St St := fun s => Return s s.

Definition put {St} (s : St) : M St unit := fun _ => Return tt s.

(** [try: m  except KafkaError as e: handler e]: the clause catches the
    instances of [KafkaError] and lets every other exception through, a
    [KafkaException] as well. *)
Definition try_except_KafkaError {St A}
    (m : M St A) (handler : KafkaError -> M St A) : M St A :=
  fun s =>
    match m s with
    | Raise (KafkaErrorRaised e) s' => handler e s'
    | r => r
    end.

(** Run a method of a component held in a field of the state. *)
Definition on_field {St Cs A}
    (proj : St -> Cs) (upd : St -> Cs -> St) (m : M Cs A) : M St A :=
  fun s =>
    match m (proj s) with
    | Return a c => Return a (upd s c)
    | Raise e c => Raise e (upd s c)
    | Running => Running
    end.

(** Functions without state that can raise. *)
Inductive result (A : Type) : Type :=
| Ok (a : A)
| Err (e : exn).

Arguments Ok {A} a.
Arguments Err {A} e.

Definition of_result {St A} (r : result A) : M St A :=
  fun s => match r with Ok a => Return a s | Err e => Raise e s end.

End Exec.
Import Exec.

Declare Scope py_scope.
Delimit Scope py_scope with py.
Notation "x <- m ;; k" := (bind m (fun x => k))
  (at level 100, m at next level, right associativity) : py_scope.
Notation "m ;;; k" := (bind m (fun _ => k))
  (at level 100, right associativity) : py_scope.

(* ================================================================== *)
(** ** The Kafka client, as far as the module uses it *)

Module Kafka.

(** What one [Consumer.poll] yields: no record, a record, or an
    exception (that of a callback the poll served, or one of the
    client). *)
Inductive polled : Type :=
| NoRecord
| Polled (m : Message)
| PollRaises (x : exn).

(** One step of the broker seen from the client: a poll may complete a
    rebalance, which replaces the assignment, and yields a record, no
    record or an error. *)
Record delivery : Type := {
  rebalance : option (list TopicPartition);
  yields : polled
}.

(** The answer to a watermark query: the two offsets, or a failure,
    which the client reports by raising [KafkaException]. *)
Inductive watermark_reply : Type :=
| Watermarks (low high : Z)
| WatermarkRaises (e : KafkaError).

(** The calls a client received, oldest first. *)
Inductive call : Type :=
| CallSubscribe (topics : list str)
| CallAssignment
| CallPoll (timeout : option Q)
| CallGetWatermarkOffsets (p : TopicPartition) (cached : bool)
| CallAssign (ps : list TopicPartition).

(** The broker a new client connects to. *)
Record Broker : Type := {
  deliveries : list delivery;
  watermark : TopicPartition -> bool -> watermark_reply
}.

Record Consumer : Type := {
  config : dict;
  subscription : list str;
  assigned : list TopicPartition;
  incoming : list delivery;
  watermarks : TopicPartition -> bool -> watermark_reply;
  calls : list call
}.

Definition logged (c : Consumer) (x : call) : Consumer :=
  {| config := config c; subscription := subscription c;
     assigned := assigned c; incoming := incoming c;
     watermarks := watermarks c; calls := calls c ++ [x] |}.

(** [Consumer(config)]. *)
Definition Consumer_new (cfg : dict) (b : Broker) : Consumer :=
  {| config := cfg; subscription := []; assigned := [];
     incoming := deliveries b; watermarks := watermark b; calls := [] |}.

Definition subscribed_to (topics : list str) (c : Consumer) : Consumer :=
  let c := logged c (CallSubscribe topics) in
  {| config := config c; subscription := topics;
     assigned := assigned c; incoming := incoming c;
     watermarks := watermarks c; calls := calls c |}.

Definition subscribe (topics : list str) : M Consumer unit :=
  fun c => Return tt (subscribed_to topics c).

Definition assignment : M Consumer (list TopicPartition) :=
  fun c => let c := logged c CallAssignment in Return (assigned c) c.

Definition poll (timeout : option Q) : M Consumer (option Message) :=
  fun c =>
    let c := logged c (CallPoll timeout) in
    match incoming c with
    | [] => Return None c
    | d :: rest =>
        let c' :=
          {| config := config c; subscription := subscription c;
             assigned := match rebalance d with
                         | Some ps => ps
                         | None => assigned c
                         end;
             incoming := rest; watermarks := watermarks c;
             calls := calls c |} in
        match yields d with
        | NoRecord => Return None c'
        | Polled m => Return (Some m) c'
        | PollRaises x => Raise x c'
        end
    end.

Definition get_watermark_offsets (p : TopicPartition) (cached : bool)
  : M Consumer (Z * Z) :=
  fun c =>
    let c := logged c (CallGetWatermarkOffsets p cached) in
    match watermarks c p cached with
    | Watermarks low high => Return (low, high) c
    | WatermarkRaises e => Raise (KafkaException e) c
    end.

Definition assign (ps : list TopicPartition) : M Consumer unit :=
  fun c =>
    let c := logged c (CallAssign ps) in
    Return tt
      {| config := config c; subscription := subscription c;
         assigned := ps; incoming := incoming c;
         watermarks := watermarks c; calls := calls c |}.

(** The producer client: the records handed to it, in order, and how
    often it was polled and flushed. *)
Record ProducerRecord : Type := {
  to_topic : str;
  key : option (list byte);
  payload_bytes : list byte
}.

Record Producer : Type := {
  producer_config : dict;
  produced : list ProducerRecord;
  polls : nat;
  flushes : nat
}.

Definition Producer_new (cfg : dict) : Producer :=
  {| producer_config := cfg; produced := []; polls := 0; flushes := 0 |}.

Definition producer_poll : M Producer unit :=
  fun p =>
    Return tt {| producer_config := producer_config p;
                 produced := produced p;
                 polls := S (polls p); flushes := flushes p |}.

Definition produce (r : ProducerRecord) : M Producer unit :=
  fun p =>
    Return tt {| producer_config := producer_config p;
                 produced := produced p ++ [r];
                 polls := polls p; flushes := flushes p |}.

Definition flush : M Producer unit :=
  fun p =>
    Return tt {| producer_config := producer_config p;
                 produced := produced p;
                 polls := polls p; flushes := S (flushes p) |}.

End Kafka.

(* ================================================================== *)
(** ** The wire codec: [json.dumps], [json.loads], UTF-8 *)

Module Codec.

Local Open Scope N_scope.

(** Characters the codec names. *)
Definition ch_quote : N := 34.      (* the double quote *)
Definition ch_backslash : N := 92.
Definition ch_slash : N := 47.
Definition ch_comma : N := 44.
Definition ch_colon : N := 58.
Definition ch_space : N := 32.
Definition ch_minus : N := 45.
Definition ch_lbracket : N := 91.
Definition ch_rbracket : N := 93.
Definition ch_lbrace : N := 123.
Definition ch_rbrace : N := 125.
Definition ch_zero : N := 48.
Definition ch_plus : N := 43.
Definition ch_dot : N := 46.
Definition ch_e : N := 101.
Definition ch_E : N := 69.
Definition ch_b : N := 98.
Definition ch_f : N := 102.
Definition ch_n : N := 110.
Definition ch_r : N := 114.
Definition ch_t : N := 116.
Definition ch_u : N := 117.

(** *** Integers *)

Definition digit_char (d : N) : N := ch_zero + d.

Fixpoint uint_chars (u : Decimal.uint) : str :=
  match u with
  | Decimal.Nil => []
  | Decimal.D0 u => digit_char 0 :: uint_chars u
  | Decimal.D1 u => digit_char 1 :: uint_chars u
  | Decimal.D2 u => digit_char 2 :: uint_chars u
  | Decimal.D3 u => digit_char 3 :: uint_chars u
  | Decimal.D4 u => digit_char 4 :: uint_chars u
  | Decimal.D5 u => digit_char 5 :: uint_chars u
  | Decimal.D6 u => digit_char 6 :: uint_chars u
  | Decimal.D7 u => digit_char 7 :: uint_chars u
  | Decimal.D8 u => digit_char 8 :: uint_chars u
  | Decimal.D9 u => digit_char 9 :: uint_chars u
  end.

(** [int.__repr__]. *)
Definition int_repr (z : Z) : str :=
  match Z.to_int z with
  | Decimal.Pos u => uint_chars u
  | Decimal.Neg u => ch_minus :: uint_chars u
  end.

Definition is_digit (c : N) : bool := (ch_zero <=? c) && (c <=? ch_zero + 9).

(** Prepend the digit [c] to the numeral [u]. *)
Definition uint_cons (c : N) (u : Decimal.uint) : Decimal.uint :=
  match c - ch_zero with
  | 0 => Decimal.D0 u | 1 => Decimal.D1 u | 2 => Decimal.D2 u
  | 3 => Decimal.D3 u | 4 => Decimal.D4 u | 5 => Decimal.D5 u
  | 6 => Decimal.D6 u | 7 => Decimal.D7 u | 8 => Decimal.D8 u
  | _ => Decimal.D9 u
  end.

(** The longest run of digits at the head of [s], as a numeral. *)
Fixpoint scan_digits (s : str) : Decimal.uint * str :=
  match s with
  | c :: s' =>
      if is_digit c
      then let (u, r) := scan_digits s' in (uint_cons c u, r)
      else (Decimal.Nil, s)
  | [] => (Decimal.Nil, [])
  end.

(** The integer part of the scanner's number pattern: an optional
    minus sign, then either a lone [0] or a digit from 1 to 9 followed
    by any digits. *)
Definition scan_natural (s : str) : option (Decimal.uint * str) :=
  match s with
  | c :: s' =>
      if c =? ch_zero then Some (Decimal.D0 Decimal.Nil, s')
      else if is_digit c then Some (scan_digits s)
      else None
  | [] => None
  end.

(** The integer part with its sign. *)
Definition scan_integer (s : str) : option (bool * Decimal.uint * str) :=
  match s with
  | c :: s' =>
      if c =? ch_minus
      then match scan_natural s' with
           | Some (u, r) => Some (true, u, r)
           | None => None
           end
      else match scan_natural s with
           | Some (u, r) => Some (false, u, r)
           | None => None
           end
  | [] => None
  end.

Definition starts_with_digit (s : str) : bool :=
  match s with
  | c :: _ => is_digit c
  | [] => false
  end.

(** The fraction of the number pattern: a point and at least one
    digit. *)
Definition scan_frac (s : str) : option Decimal.uint * str :=
  match s with
  | c :: s' =>
      if (c =? ch_dot) && starts_with_digit s'
      then let (u, r) := scan_digits s' in (Some u, r)
      else (None, s)
  | [] => (None, s)
  end.

(** The exponent of the number pattern: [e] or [E], an optional sign
    and at least one digit. *)
Definition scan_exp (s : str) : option Z * str :=
  match s with
  | c :: s1 =>
      if (c =? ch_e) || (c =? ch_E) then
        match s1 with
        | sg :: s2 =>
            if ((sg =? ch_plus) || (sg =? ch_minus)) && starts_with_digit s2
            then let (u, r) := scan_digits s2 in
                 (Some (if sg =? ch_minus then (- Z.of_uint u)%Z
                        else Z.of_uint u), r)
            else if is_digit sg
            then let (u, r) := scan_digits s1 in (Some (Z.of_uint u), r)
            else (None, s)
        | [] => (None, s)
        end
      else (None, s)
  | [] => (None, s)
  end.

(** *** Floats *)

(** The binary64 nearest to [num / den], ties to even, for [0 <= num]
    and [0 < den]: what Python's [float] computes from a decimal text.
    Every finite binary64 is a multiple of 2^-1074; the quotient is
    taken in that unit, cut to 53 bits and rounded on what was cut;
    from 2^1024 on the result is an infinity. *)
Definition nearest_binary64 (negative : bool) (num den : Z) : float :=
  let scaled := (num * 2 ^ 1074)%Z in
  let units := (scaled / den)%Z in
  let shift := Z.max (Z.log2 units - 52) 0 in
  let m := (units / 2 ^ shift)%Z in
  let m :=
    match (2 * scaled ?= (2 * m + 1) * 2 ^ shift * den)%Z with
    | Lt => m
    | Gt => (m + 1)%Z
    | Eq => if Z.even m then m else (m + 1)%Z
    end in
  let shift := if (m =? 2 ^ 53)%Z then (shift + 1)%Z else shift in
  let m := if (m =? 2 ^ 53)%Z then (2 ^ 52)%Z else m in
  match m with
  | Zpos p =>
      if (shift - 1074 <=? 971)%Z
      then SpecFloat.S754_finite negative p (shift - 1074)
      else SpecFloat.S754_infinity negative
  | _ => SpecFloat.S754_zero negative
  end.

(** The float of the decimal [digits * 10 ^ exponent]. *)
Definition float_of_decimal (negative : bool) (digits exponent : Z)
  : float :=
  if (0 <=? exponent)%Z
  then nearest_binary64 negative (digits * 10 ^ exponent) 1
  else nearest_binary64 negative digits (10 ^ (- exponent)).

(** The number written by the digits [u] after the digits that wrote
    [acc]. *)
Fixpoint digits_after (acc : Z) (u : Decimal.uint) : Z :=
  match u with
  | Decimal.Nil => acc
  | Decimal.D0 u => digits_after (10 * acc) u
  | Decimal.D1 u => digits_after (10 * acc + 1) u
  | Decimal.D2 u => digits_after (10 * acc + 2) u
  | Decimal.D3 u => digits_after (10 * acc + 3) u
  | Decimal.D4 u => digits_after (10 * acc + 4) u
  | Decimal.D5 u => digits_after (10 * acc + 5) u
  | Decimal.D6 u => digits_after (10 * acc + 6) u
  | Decimal.D7 u => digits_after (10 * acc + 7) u
  | Decimal.D8 u => digits_after (10 * acc + 8) u
  | Decimal.D9 u => digits_after (10 * acc + 9) u
  end.

(** [float(integer + frac + exp)] on the pieces of the number pattern:
    the digits of the integer part and of the fraction, scaled by the
    exponent less the number of digits of the fraction. *)
Definition float_of_literal (negative : bool)
    (integer frac : Decimal.uint) (exp : Z) : float :=
  float_of_decimal negative
    (digits_after (digits_after 0 integer) frac)
    (exp - Z.of_nat (Decimal.nb_digits frac)).

(** The number pattern of [json.scanner]: the text is an [int] unless a
    fraction or an exponent follows the integer part, and a [float]
    otherwise. *)
Definition scan_number (s : str) : option (json * str) :=
  match scan_integer s with
  | None => None
  | Some (negative, integer, r1) =>
      let (frac, r2) := scan_frac r1 in
      let (exp, r3) := scan_exp r2 in
      match frac, exp with
      | None, None =>
          Some (JInt (Z.of_int (if negative then Decimal.Neg integer
                                else Decimal.Pos integer)), r3)
      | _, _ =>
          Some (JFloat
                  (float_of_literal negative integer
                     (match frac with Some u => u | None => Decimal.Nil end)
                     (match exp with Some e => e | None => 0%Z end)), r3)
      end
  end.

(** Whether two floats are the same float, which is not Python's
    [==]. *)
Definition float_same (x y : float) : bool :=
  match x, y with
  | SpecFloat.S754_zero s, SpecFloat.S754_zero s' => Bool.eqb s s'
  | SpecFloat.S754_infinity s, SpecFloat.S754_infinity s' => Bool.eqb s s'
  | SpecFloat.S754_nan, SpecFloat.S754_nan => true
  | SpecFloat.S754_finite s m e, SpecFloat.S754_finite s' m' e' =>
      Bool.eqb s s' && Pos.eqb m m' && Z.eqb e e'
  | _, _ => false
  end.

(** The text is a number from end to end and [float(text)] is [x]. *)
Definition reads_back (text : str) (x : float) : bool :=
  match scan_number text with
  | Some (JFloat y, []) => float_same y x
  | _ => false
  end.

(** [floor (num / den / 10 ^ k)]. *)
Definition floor_scaled (num den k : Z) : Z :=
  if (0 <=? k)%Z then (num / (den * 10 ^ k))%Z
  else (num * 10 ^ (- k) / den)%Z.

(** Whether [lo * 10 ^ k] is at least as near to [num / den] as
    [(lo + 1) * 10 ^ k] is, an even [lo] winning a tie. *)
Definition nearer_low (num den k lo : Z) : bool :=
  match (if (0 <=? k)%Z
         then (2 * num ?= (2 * lo + 1) * 10 ^ k * den)%Z
         else (2 * num * 10 ^ (- k) ?= (2 * lo + 1) * den)%Z) with
  | Lt => true
  | Gt => false
  | Eq => Z.even lo
  end.

Fixpoint strip_zeros (s : str) : str :=
  match s with
  | c :: s' => if c =? ch_zero then strip_zeros s' else s
  | [] => []
  end.

(** The decimal digits of [d]. *)
Definition digits_of (d : Z) : str := uint_chars (N.to_uint (Z.to_N d)).

(** The digits of [d] without its trailing zeros. *)
Definition significant (d : Z) : str :=
  rev (strip_zeros (rev (digits_of d))).

(** The exponent [repr] prints: a sign and at least two digits. *)
Definition exponent_chars (x : Z) : str :=
  (if (x <? 0)%Z then ch_minus else ch_plus)
  :: (if (Z.abs x <? 10)%Z then [ch_zero] else [])
  ++ digits_of (Z.abs x).

(** [format_float_short] in [repr] mode: the digits [ds] with the
    decimal point after the first [decpt] of them, in exponent notation
    when [decpt] is below -3 or above 16. *)
Definition format_short (ds : str) (decpt : Z) : str :=
  let n := Z.of_nat (List.length ds) in
  if ((decpt <=? -4) || (16 <? decpt))%Z then
    match ds with
    | [] => []
    | c :: tail =>
        c :: match tail with [] => [] | _ :: _ => ch_dot :: tail end
        ++ ch_e :: exponent_chars (decpt - 1)
    end
  else if (decpt <=? 0)%Z then
    ch_zero :: ch_dot :: repeat ch_zero (Z.to_nat (- decpt)) ++ ds
  else if (decpt <? n)%Z then
    firstn (Z.to_nat decpt) ds ++ ch_dot :: skipn (Z.to_nat decpt) ds
  else
    ds ++ repeat ch_zero (Z.to_nat (decpt - n)) ++ [ch_dot; ch_zero].

(** The text [repr] prints for the decimal [d * 10 ^ k]. *)
Definition decimal_text (d k : Z) : str :=
  format_short (significant d)
    (Z.of_nat (List.length (digits_of d)) + k).

(** The search of [repr] for the shortest digits that read back as [x],
    whose value is [num / den] and has the decimal exponent [e10]: with
    [n] digits, the two decimals around the value are tried, the nearer
    first. *)
Fixpoint shortest (fuel : nat) (n : Z) (num den e10 : Z) (x : float)
  : option str :=
  match fuel with
  | O => None
  | S fuel' =>
      let k := (e10 - (n - 1))%Z in
      let lo := floor_scaled num den k in
      let first := if nearer_low num den k lo then lo else (lo + 1)%Z in
      let second := if nearer_low num den k lo then (lo + 1)%Z else lo in
      if reads_back (decimal_text first k) x
      then Some (decimal_text first k)
      else if reads_back (decimal_text second k) x
      then Some (decimal_text second k)
      else shortest fuel' (n + 1) num den e10 x
  end.

(** [floor (log10 (num / den))], for a value of 10^-400 at least. *)
Definition decimal_exponent (num den : Z) : Z :=
  (Z.of_nat (List.length (digits_of (num * 10 ^ 400 / den))) - 401)%Z.

(** [float.__repr__]: the shortest decimal that reads back as the
    float and, of the decimals of that length, the nearest.  The search
    goes from one digit up to the number of digits of the exact decimal
    expansion of the float, where it ends at the latest; [repr] itself
    never needs more than 17 digits. *)
Definition float_repr (x : float) : str :=
  match x with
  | SpecFloat.S754_nan => lit "nan"
  | SpecFloat.S754_infinity s => if s then lit "-inf" else lit "inf"
  | SpecFloat.S754_zero s => if s then lit "-0.0" else lit "0.0"
  | SpecFloat.S754_finite s m e =>
      let num := if (0 <=? e)%Z then (Zpos m * 2 ^ e)%Z else Zpos m in
      let den := if (0 <=? e)%Z then 1%Z else (2 ^ (- e))%Z in
      let e10 := decimal_exponent num den in
      let digits := Z.to_nat (e10 - Z.min (Z.min e 0) e10 + 1) in
      (if s then [ch_minus] else [])
      ++ match shortest digits 1 num den e10
                 (SpecFloat.S754_finite false m e) with
         | Some text => text
         | None => []
         end
  end.

(** [floatstr] of [json.encoder], with [allow_nan]. *)
Definition floatstr (x : float) : str :=
  match x with
  | SpecFloat.S754_nan => lit "NaN"
  | SpecFloat.S754_infinity s =>
      if s then lit "-Infinity" else lit "Infinity"
  | _ => float_repr x
  end.

(** *** Strings *)

Definition hex_char (d : N) : N :=
  if d <? 10 then ch_zero + d else 97 + (d - 10).

(** [format(n, "04x")] for [n < 0x10000]. *)
Definition hex4 (n : N) : str :=
  [hex_char (n / 4096 mod 16); hex_char (n / 256 mod 16);
   hex_char (n / 16 mod 16); hex_char (n mod 16)].

Definition u_escape (n : N) : str :=
  ch_backslash :: ch_u :: hex4 n.

(** One character of [py_encode_basestring_ascii]. *)
Definition escape_char (c : N) : str :=
  if c =? ch_backslash then [ch_backslash; ch_backslash]
  else if c =? ch_quote then [ch_backslash; ch_quote]
  else if c =? 8 then [ch_backslash; ch_b]
  else if c =? 12 then [ch_backslash; ch_f]
  else if c =? 10 then [ch_backslash; ch_n]
  else if c =? 13 then [ch_backslash; ch_r]
  else if c =? 9 then [ch_backslash; ch_t]
  else if (32 <=? c) && (c <=? 126) then [c]
  else if c <? 65536 then u_escape c
  else
    let n := c - 65536 in
    u_escape (N.lor 55296 (N.land (N.shiftr n 10) 1023))
      ++ u_escape (N.lor 56320 (N.land n 1023)).

Definition encode_basestring_ascii (s : str) : str :=
  ch_quote :: flat_map escape_char s ++ [ch_quote].

Definition hex_value (c : N) : option N :=
  if (48 <=? c) && (c <=? 57) then Some (c - 48)
  else if (97 <=? c) && (c <=? 102) then Some (c - 87)
  else if (65 <=? c) && (c <=? 70) then Some (c - 55)
  else None.

(** [_decode_uXXXX]: the four hexadecimal digits after [\u]. *)
Definition decode_uXXXX (s : str) : option (N * str) :=
  match s with
  | a :: b :: c :: d :: r =>
      match hex_value a, hex_value b, hex_value c, hex_value d with
      | Some x, Some y, Some z, Some w =>
          Some (((x * 16 + y) * 16 + z) * 16 + w, r)
      | _, _, _, _ => None
      end
  | _ => None
  end.

Inductive scanned : Type :=
| Closed (rest : str)
| Char (c : N) (rest : str)
| Invalid.

(** What [py_scanstring] does after a [\u] escape that gave the high
    surrogate [uni]: when another [\u] escape follows and gives a low
    surrogate, the two are joined into one code point. *)
Definition join_surrogates (uni uni2 : N) : N :=
  65536 + N.lor (N.shiftl (uni - 55296) 10) (uni2 - 56320).

Definition scan_low_surrogate (uni : N) (r : str) : scanned :=
  match r with
  | c1 :: c2 :: r3 =>
      if (c1 =? ch_backslash) && (c2 =? ch_u) then
        match decode_uXXXX r3 with
        | None => Invalid
        | Some (uni2, r4) =>
            if (56320 <=? uni2) && (uni2 <=? 57343)
            then Char (join_surrogates uni uni2) r4
            else Char uni r
        end
      else Char uni r
  | _ => Char uni r
  end.

(** One step of [py_scanstring] (strict): the closing quote, an escape
    sequence, or a literal character that is not a control character. *)
Definition scan_char (s : str) : scanned :=
  match s with
  | [] => Invalid
  | c :: r =>
      if c =? ch_quote then Closed r
      else if c =? ch_backslash then
        match r with
        | [] => Invalid
        | esc :: r' =>
            if esc =? ch_u then
              match decode_uXXXX r' with
              | None => Invalid
              | Some (uni, r'') =>
                  if (55296 <=? uni) && (uni <=? 56319)
                  then scan_low_surrogate uni r''
                  else Char uni r''
              end
            else if esc =? ch_quote then Char ch_quote r'
            else if esc =? ch_backslash then Char ch_backslash r'
            else if esc =? ch_slash then Char ch_slash r'
            else if esc =? ch_b then Char 8 r'
            else if esc =? ch_f then Char 12 r'
            else if esc =? ch_n then Char 10 r'
            else if esc =? ch_r then Char 13 r'
            else if esc =? ch_t then Char 9 r'
            else Invalid
        end
      else if c <? 32 then Invalid
      else Char c r
  end.

(** [py_scanstring], entered after the opening quote.  Every step
    consumes a character: the budget is the length of the input. *)
Fixpoint scanstring_loop (budget : nat) (s : str) (acc : str)
  : option (str * str) :=
  match budget with
  | O => None
  | S budget' =>
      match scan_char s with
      | Closed r => Some (rev acc, r)
      | Char c r => scanstring_loop budget' r (c :: acc)
      | Invalid => None
      end
  end.

Definition scanstring (s : str) : option (str * str) :=
  scanstring_loop (List.length s) s [].

(** *** [json.dumps] with its defaults: [ensure_ascii], separators
    [", "] and [": "] *)

Definition item_separator : str := [ch_comma; ch_space].
Definition key_separator : str := [ch_colon; ch_space].

Fixpoint dumps (v : json) : str :=
  match v with
  | JNull => lit "null"
  | JBool true => lit "true"
  | JBool false => lit "false"
  | JInt z => int_repr z
  | JFloat x => floatstr x
  | JStr s => encode_basestring_ascii s
  | JArr l =>
      ch_lbracket ::
      (fix items (l : list json) : str :=
         match l with
         | [] => []
         | x :: l' =>
             dumps x ++
             match l' with
             | [] => []
             | _ :: _ => item_separator ++ items l'
             end
         end) l ++ [ch_rbracket]
  | JObj d =>
      ch_lbrace ::
      (fix members (d : list (str * json)) : str :=
         match d with
         | [] => []
         | (k, x) :: d' =>
             encode_basestring_ascii k ++ key_separator ++ dumps x ++
             match d' with
             | [] => []
             | _ :: _ => item_separator ++ members d'
             end
         end) d ++ [ch_rbrace]
  end.

(** *** [json.loads] *)

Definition is_ws (c : N) : bool :=
  (c =? 32) || (c =? 9) || (c =? 10) || (c =? 13).

Fixpoint skip_ws (s : str) : str :=
  match s with
  | c :: s' => if is_ws c then skip_ws s' else s
  | [] => []
  end.

(** [s.startswith(word)], answering what follows the word. *)
Fixpoint strip_prefix (word s : str) : option str :=
  match word, s with
  | [], _ => Some s
  | w :: word', c :: s' => if w =? c then strip_prefix word' s' else None
  | _ :: _, [] => None
  end.

(** The constants [NaN], [Infinity] and [-Infinity], which the scanner
    tries where no number matches. *)
Definition scan_constant (s : str) : option (json * str) :=
  match strip_prefix (lit "NaN") s with
  | Some r => Some (JFloat SpecFloat.S754_nan, r)
  | None =>
      match strip_prefix (lit "Infinity") s with
      | Some r => Some (JFloat (SpecFloat.S754_infinity false), r)
      | None =>
          match strip_prefix (lit "-Infinity") s with
          | Some r => Some (JFloat (SpecFloat.S754_infinity true), r)
          | None => None
          end
      end
  end.

(** [scan_once], [JSONArray] and [JSONObject] of [json.scanner] and
    [json.decoder].  [None] is a [JSONDecodeError].  Every call consumes
    a character: the budget is bounded by the length of the text. *)
Fixpoint scan_once (budget : nat) (s : str) {struct budget}
  : option (json * str) :=
  match budget with
  | O => None
  | S budget' =>
      match s with
      | [] => None
      | c :: s' =>
          if c =? ch_quote then
            match scanstring s' with
            | Some (x, r) => Some (JStr x, r)
            | None => None
            end
          else if c =? ch_lbrace then
            match skip_ws s' with
            | c1 :: r1 =>
                if c1 =? ch_rbrace then Some (JObj [], r1)
                else if c1 =? ch_quote then JSONObject budget' r1 []
                else None
            | [] => None
            end
          else if c =? ch_lbracket then
            match skip_ws s' with
            | c1 :: r1 =>
                if c1 =? ch_rbracket then Some (JArr [], r1)
                else JSONArray budget' (c1 :: r1) []
            | [] => None
            end
          else if c =? ch_n then
            match strip_prefix (lit "null") s with
            | Some r => Some (JNull, r)
            | None => None
            end
          else if c =? ch_t then
            match strip_prefix (lit "true") s with
            | Some r => Some (JBool true, r)
            | None => None
            end
          else if c =? ch_f then
            match strip_prefix (lit "false") s with
            | Some r => Some (JBool false, r)
            | None => None
            end
          else
            match scan_number s with
            | Some (v, r) => Some (v, r)
            | None => scan_constant s
            end
      end
  end

(** The loop of [JSONArray]: [s] stands at the next value, [acc] holds
    the values read so far, last first. *)
with JSONArray (budget : nat) (s : str) (acc : list json) {struct budget}
  : option (json * str) :=
  match budget with
  | O => None
  | S budget' =>
      match scan_once budget' s with
      | None => None
      | Some (v, r) =>
          match skip_ws r with
          | c :: r1 =>
              if c =? ch_rbracket then Some (JArr (rev (v :: acc)), r1)
              else if c =? ch_comma
              then JSONArray budget' (skip_ws r1) (v :: acc)
              else None
          | [] => None
          end
      end
  end

(** The loop of [JSONObject]: [s] stands after the opening quote of the
    next key; the pairs read are turned into a [dict] at the end. *)
with JSONObject (budget : nat) (s : str) (acc : list (str * json))
     {struct budget} : option (json * str) :=
  match budget with
  | O => None
  | S budget' =>
      match scanstring s with
      | None => None
      | Some (k, r) =>
          match skip_ws r with
          | c :: r1 =>
              if c =? ch_colon then
                match scan_once budget' (skip_ws r1) with
                | None => None
                | Some (v, r2) =>
                    match skip_ws r2 with
                    | c2 :: r3 =>
                        if c2 =? ch_rbrace
                        then Some (JObj (dict_of_pairs (rev ((k, v) :: acc))),
                                   r3)
                        else if c2 =? ch_comma then
                          match skip_ws r3 with
                          | c3 :: r4 =>
                              if c3 =? ch_quote
                              then JSONObject budget' r4 ((k, v) :: acc)
                              else None
                          | [] => None
                          end
                        else None
                    | [] => None
                    end
                end
              else None
          | [] => None
          end
      end
  end.

(** [json.loads]: one value, surrounded by optional white space. *)
Definition loads (s : str) : option json :=
  match scan_once (S (List.length s)) (skip_ws s) with
  | Some (v, r) =>
      match skip_ws r with
      | [] => Some v
      | _ :: _ => None
      end
  | None => None
  end.

(** *** UTF-8 *)

Definition byte_of (n : N) : byte :=
  match Byte.of_N n with Some b => b | None => x00 end.

Definition is_surrogate (c : N) : bool := (55296 <=? c) && (c <=? 57343).

(** [str.encode("utf-8")] of one code point; [None] is a
    [UnicodeEncodeError] (a surrogate). *)
Definition utf8_encode_char (c : N) : option (list byte) :=
  if c <? 128 then Some [byte_of c]
  else if c <? 2048 then
    Some [byte_of (192 + c / 64); byte_of (128 + c mod 64)]
  else if c <? 65536 then
    if is_surrogate c then None
    else Some [byte_of (224 + c / 4096); byte_of (128 + c / 64 mod 64);
               byte_of (128 + c mod 64)]
  else if c <? 1114112 then
    Some [byte_of (240 + c / 262144); byte_of (128 + c / 4096 mod 64);
          byte_of (128 + c / 64 mod 64); byte_of (128 + c mod 64)]
  else None.

Fixpoint utf8_encode (s : str) : option (list byte) :=
  match s with
  | [] => Some []
  | c :: s' =>
      match utf8_encode_char c, utf8_encode s' with
      | Some b, Some bs => Some (b ++ bs)
      | _, _ => None
      end
  end.

Definition in_range (lo hi : N) (b : byte) : bool :=
  (lo <=? Byte.to_N b) && (Byte.to_N b <=? hi).

Definition cont (b : byte) : N := Byte.to_N b - 128.

(** The first code point of a well-formed UTF-8 byte sequence (strict:
    no overlong forms, no surrogates, nothing above U+10FFFF). *)
Definition utf8_decode_char (bs : list byte) : option (N * list byte) :=
  match bs with
  | [] => None
  | b0 :: r =>
      let n0 := Byte.to_N b0 in
      if n0 <? 128 then Some (n0, r)
      else if in_range 194 223 b0 then
        match r with
        | b1 :: r' =>
            if in_range 128 191 b1
            then Some ((n0 - 192) * 64 + cont b1, r')
            else None
        | _ => None
        end
      else if in_range 224 239 b0 then
        match r with
        | b1 :: b2 :: r' =>
            if in_range (if n0 =? 224 then 160 else 128)
                        (if n0 =? 237 then 159 else 191) b1
               && in_range 128 191 b2
            then Some (((n0 - 224) * 64 + cont b1) * 64 + cont b2, r')
            else None
        | _ => None
        end
      else if in_range 240 244 b0 then
        match r with
        | b1 :: b2 :: b3 :: r' =>
            if in_range (if n0 =? 240 then 144 else 128)
                        (if n0 =? 244 then 143 else 191) b1
               && in_range 128 191 b2 && in_range 128 191 b3
            then Some ((((n0 - 240) * 64 + cont b1) * 64 + cont b2) * 64
                       + cont b3, r')
            else None
        | _ => None
        end
      else None
  end.

Fixpoint utf8_decode_loop (budget : nat) (bs : list byte)
  : option str :=
  match budget with
  | O => match bs with [] => Some [] | _ :: _ => None end
  | S budget' =>
      match bs with
      | [] => Some []
      | _ :: _ =>
          match utf8_decode_char bs with
          | Some (c, r) =>
              match utf8_decode_loop budget' r with
              | Some s => Some (c :: s)
              | None => None
              end
          | None => None
          end
      end
  end.

(** [bytes.decode("utf-8")]; [None] is a [UnicodeDecodeError]. *)
Definition utf8_decode (bs : list byte) : option str :=
  utf8_decode_loop (List.length bs) bs.

End Codec.

(* ================================================================== *)
(** ** Models and configuration the module imports *)

Module Models.

(** Modelled from the spec: [aineko.models.base.MessageData] is not part
  of the sources at hand.  The envelope has the fields the spec lists in
  its data model and wire format; [timestamp] defaults to the time of
  construction, the other fields are required, the provenance fields are
  strings and the payload is any value. *)
Record MessageData : Type := {
timestamp : str;
dataset : str;
source_node : str;
source_pipeline : str;
message : json
}.

(** [MessageData(...).model_dump(mode="json")]. *)
Definition model_dump (m : MessageData) : json :=
JObj [(lit "timestamp", JStr (timestamp m));
      (lit "dataset", JStr (dataset m));
      (lit "source_node", JStr (source_node m));
      (lit "source_pipeline", JStr (source_pipeline m));
      (lit "message", message m)].

Definition required_str (d : dict) (k : str) : result str :=
match dict_get d k with
| Some (JStr s) => Ok s
| _ => Err ValidationError
end.

(** [MessageData] built from the keyword arguments [raw], as the source
  does with a double star: [raw] has to be a mapping, and the mapping has
  to pass the validation of the fields; [now] is the default of
  [timestamp]. *)
Definition MessageData_of (now : str) (raw : json) : result MessageData :=
match raw with
| JObj d =>
    match match dict_get d (lit "timestamp") with
          | None => Ok now
          | Some (JStr s) => Ok s
          | Some _ => Err ValidationError
          end,
          required_str d (lit "dataset"),
          required_str d (lit "source_node"),
          required_str d (lit "source_pipeline"),
          dict_get d (lit "message") with
    | Ok ts, Ok ds, Ok node, Ok pipe, Some msg =>
        Ok {| timestamp := ts; dataset := ds; source_node := node;
              source_pipeline := pipe; message := msg |}
    | _, _, _, _, _ => Err ValidationError
    end
| _ => Err TypeError
end.

(** Modelled from the spec: [aineko.models.config_schema.Dataset] is not
  part of the sources at hand.  A dataset configuration has a [type] and
  an optional mapping [params]. *)
Record Dataset : Type := {
type : str;
params : option dict
}.

(** [Dataset] built from the keyword arguments [d]. *)
Definition Dataset_of (d : dict) : result Dataset :=
match dict_get d (lit "type") with
| Some (JStr t) =>
    match dict_get d (lit "params") with
    | None | Some JNull => Ok {| type := t; params := None |}
    | Some (JObj p) => Ok {| type := t; params := Some p |}
    | Some _ => Err ValidationError
    end
| _ => Err ValidationError
end.

(** The [dataset_config] argument: a plain [dict] or a [Dataset]. *)
Inductive dataset_config : Type :=
| ConfigDict (d : dict)
| ConfigModel (d : Dataset).

(** The values the module reads from [aineko.config], which is not part
  of the sources at hand: the entries of [DEFAULT_KAFKA_CONFIG] it looks
  up and [AINEKO_CONFIG.get("KAFKA_STREAM_TYPE")]. *)
Record KafkaConfig : Type := {
CONSUMER_CONFIG : dict;
CONSUMER_TIMEOUT : option Q;
PRODUCER_CONFIG : dict;
PRODUCER_OVERRIDABLES : list str
}.

Definition with_CONSUMER_CONFIG (k : KafkaConfig) (c : dict) : KafkaConfig :=
{| CONSUMER_CONFIG := c; CONSUMER_TIMEOUT := CONSUMER_TIMEOUT k;
   PRODUCER_CONFIG := PRODUCER_CONFIG k;
   PRODUCER_OVERRIDABLES := PRODUCER_OVERRIDABLES k |}.

Definition with_PRODUCER_CONFIG (k : KafkaConfig) (c : dict) : KafkaConfig :=
{| CONSUMER_CONFIG := CONSUMER_CONFIG k;
   CONSUMER_TIMEOUT := CONSUMER_TIMEOUT k;
   PRODUCER_CONFIG := c;
   PRODUCER_OVERRIDABLES := PRODUCER_OVERRIDABLES k |}.

End Models.
Import Models.

Definition json_of_opt_str (o : option str) : json :=
  match o with Some s => JStr s | None => JNull end.

Definition dot : str := lit ".".

Local Open Scope py_scope.

(** [timeout or default]: [None] and [0] are falsy. *)
Definition or_default (timeout dflt : option Q) : option Q :=
  match timeout with
  | Some t => if Qeq_bool t 0 then dflt else Some t
  | None => dflt
  end.

(* ================================================================== *)
(** ** [class DatasetConsumer] *)

Module DatasetConsumer.

Record t : Type := {
  pipeline_name : str;
  kafka_config : KafkaConfig;
  prefix : option str;
  has_pipeline_prefix : bool;
  cached : bool;
  name : str;
  consumer : Kafka.Consumer;
  topic_name : str
}.

Definition set_consumer (self : t) (c : Kafka.Consumer) : t :=
  {| pipeline_name := pipeline_name self;
     kafka_config := kafka_config self; prefix := prefix self;
     has_pipeline_prefix := has_pipeline_prefix self;
     cached := cached self; name := name self; consumer := c;
     topic_name := topic_name self |}.

Definition with_cached (self : t) (b : bool) : t :=
  {| pipeline_name := pipeline_name self;
     kafka_config := kafka_config self; prefix := prefix self;
     has_pipeline_prefix := has_pipeline_prefix self;
     cached := b; name := name self; consumer := consumer self;
     topic_name := topic_name self |}.

Definition set_cached (b : bool) : M t unit :=
  fun self => Return tt (with_cached self b).

(** A call on [self.consumer]. *)
Definition on_consumer {A} (m : M Kafka.Consumer A) : M t A :=
  on_field consumer set_consumer m.

(** [__init__].  [defaults] is [DEFAULT_KAFKA_CONFIG], [stream_type] is
    [AINEKO_CONFIG.get("KAFKA_STREAM_TYPE")] and [broker] is the broker
    the new Kafka client connects to.  The consumer configuration is the
    dictionary held by [DEFAULT_KAFKA_CONFIG] itself, so the overrides
    written into it show in [self.kafka_config]. *)
Definition __init__
    (defaults : KafkaConfig) (stream_type : option str)
    (broker : Kafka.Broker)
    (dataset_name node_name pipeline_name : str)
    (dataset_config : dataset_config)
    (bootstrap_servers prefix : option str)
    (has_pipeline_prefix : bool) : result t :=
  match match dataset_config with
        | ConfigDict d =>
            Dataset_of
              (if dict_contains d (lit "type") then d
               else dict_set d (lit "type") (json_of_opt_str stream_type))
        | ConfigModel m => Ok m
        end with
  | Err e => Err e
  | Ok dataset_config =>
      let consumer_config := CONSUMER_CONFIG defaults in
      let consumer_config :=
        if truthy_str bootstrap_servers
        then dict_set consumer_config (lit "bootstrap.servers")
                      (json_of_opt_str bootstrap_servers)
        else consumer_config in
      let params :=
        match params dataset_config with Some p => p | None => [] end in
      let consumer_config :=
        fold_left (fun c pv => dict_set c (fst pv) (snd pv))
                  params consumer_config in
      let topic_name :=
        if has_pipeline_prefix
        then pipeline_name ++ dot ++ dataset_name
        else dataset_name in
      if truthy_str prefix then
        let name :=
          format_opt prefix ++ dot ++ pipeline_name ++ dot ++ node_name in
        let consumer_config :=
          dict_set consumer_config (lit "group.id") (JStr name) in
        Ok {| pipeline_name := pipeline_name;
              kafka_config := with_CONSUMER_CONFIG defaults consumer_config;
              prefix := prefix;
              has_pipeline_prefix := has_pipeline_prefix;
              cached := false;
              name := name;
              consumer :=
                Kafka.subscribed_to
                  [format_opt prefix ++ dot ++ topic_name]
                  (Kafka.Consumer_new consumer_config broker);
              topic_name := topic_name |}
      else
        let name := pipeline_name ++ dot ++ node_name in
        let consumer_config :=
          dict_set consumer_config (lit "group.id")
                   (JStr (pipeline_name ++ dot ++ node_name)) in
        Ok {| pipeline_name := pipeline_name;
              kafka_config := with_CONSUMER_CONFIG defaults consumer_config;
              prefix := prefix;
              has_pipeline_prefix := has_pipeline_prefix;
              cached := false;
              name := name;
              consumer :=
                Kafka.subscribed_to [topic_name]
                  (Kafka.Consumer_new consumer_config broker);
              topic_name := topic_name |}
  end.

Section Methods.

(** The reading of the clock that stamps an envelope built without a
    [timestamp]. *)
Variable now : str.

(** [_validate_message]: it reads nothing of [self] but the topic
    name it logs, and logging is not part of the embedding. *)
Definition _validate_message (raw_message : option Message)
  : result (option MessageData) :=
  match raw_message with
  | None => Ok None
  | Some m =>
      match value m with
      | None => Ok None
      | Some v =>
          match error m with
          | Some _ => Ok None
          | None =>
              let wrap (j : json) : result (option MessageData) :=
                match MessageData_of now j with
                | Ok wrapped_message => Ok (Some wrapped_message)
                | Err e => Err e
                end in
              let parse (text : str) : result (option MessageData) :=
                match Codec.loads text with
                | None => Ok None
                | Some j => wrap j
                end in
              match v with
              | Bytes b =>
                  match Codec.utf8_decode b with
                  | None => Err UnicodeDecodeError
                  | Some text => parse text
                  end
              | Text text => parse text
              | Structured j => wrap j
              end
          end
      end
  end.

(** [while not partitions: poll(timeout=0); partitions = assignment()]. *)
Fixpoint while_not_partitions (budget : nat)
    (partitions : list TopicPartition)
  : M Kafka.Consumer (list TopicPartition) :=
  match partitions with
  | _ :: _ => ret partitions
  | [] =>
      match budget with
      | O => running
      | S budget' =>
          _ <- Kafka.poll (Some 0%Q) ;;
          partitions <- Kafka.assignment ;;
          while_not_partitions budget' partitions
      end
  end.

Definition set_offset (p : TopicPartition) (o : Z) : TopicPartition :=
  {| topic := topic p; partition := partition p; offset := o |}.

(** [for partition in partitions: ...]: the partitions with their new
    offsets. *)
Fixpoint for_partition (cached : bool) (partitions : list TopicPartition)
  : M Kafka.Consumer (list TopicPartition) :=
  match partitions with
  | [] => ret []
  | partition :: rest =>
      marks <- Kafka.get_watermark_offsets partition cached ;;
      let high_offset := snd marks in
      let partition :=
        if (high_offset =? OFFSET_INVALID)%Z
        then set_offset partition (-1)
        else set_offset partition (high_offset - 1) in
      rest <- for_partition cached rest ;;
      ret (partition :: rest)
  end.

(** [_update_offset_to_latest]. *)
Definition _update_offset_to_latest (budget : nat) : M t unit :=
  self <- get ;;
  on_consumer
    (partitions <- Kafka.assignment ;;
     partitions <- while_not_partitions budget partitions ;;
     partitions <- for_partition (cached self) partitions ;;
     Kafka.assign partitions).

Definition invalid_how (how : str) : str :=
  lit "Invalid how: " ++ how ++ lit ". Expected `next` or `last`.".

(** [consume].  [budget] bounds the wait for an assignment in
    [_update_offset_to_latest]. *)
Definition consume (budget : nat) (how : str) (timeout : option Q)
  : M t (option MessageData) :=
  if negb (str_eqb how (lit "next") || str_eqb how (lit "last"))
  then raise (ValueError (invalid_how how))
  else
    self <- get ;;
    let timeout := or_default timeout (CONSUMER_TIMEOUT (kafka_config self)) in
    if str_eqb how (lit "next") then
      wrapped_message <- on_consumer (Kafka.poll timeout) ;;
      _ <- set_cached true ;;
      of_result (_validate_message wrapped_message)
    else
      updated <- try_except_KafkaError
                   (_ <- _update_offset_to_latest budget ;; ret true)
                   (fun _ => ret false) ;;
      if updated : bool then
        wrapped_message <- on_consumer (Kafka.poll timeout) ;;
        _ <- set_cached true ;;
        of_result (_validate_message wrapped_message)
      else ret None.

(** The string the source compares [e.code()] with. *)
Definition _MAX_POLL_EXCEEDED : str := lit "_MAX_POLL_EXCEEDED".

(** One turn of the loop of [_consume_message]: [Some] message leaves
    the loop, [None] goes round again.  The test of the handler is
    Python's [==] between the [int] that [e.code()] returns and a
    string. *)
Definition _consume_message_turn (budget : nat) (how : str)
    (timeout : option Q) : M t (option MessageData) :=
  try_except_KafkaError
    (consume budget how timeout)
    (fun e =>
       if py_eq (JInt (code e)) (JStr _MAX_POLL_EXCEEDED)
       then ret None
       else raise (KafkaErrorRaised e)).

(** [_consume_message]: [while True] with at most [budget] turns. *)
Fixpoint _consume_message (budget : nat) (how : str)
    (timeout : option Q) : M t MessageData :=
  match budget with
  | O => running
  | S budget' =>
      message <- _consume_message_turn budget' how timeout ;;
      match message with
      | Some m => ret m
      | None => _consume_message budget' how timeout
      end
  end.

Definition next (budget : nat) : M t MessageData :=
  _consume_message budget (lit "next") None.

Definition last (budget : nat) (timeout : Q) : M t MessageData :=
  if Qle_bool timeout 0
  then raise (ValueError
                (lit "Timeout must be > 0 when consuming the last message."))
  else _consume_message budget (lit "last") (Some timeout).

(** [consume_all]: [messages] is the list built so far. *)
Fixpoint consume_all_loop (budget : nat) (end_message : json)
    (messages : list MessageData) : M t (list MessageData) :=
  match budget with
  | O => running
  | S budget' =>
      wrapped_message <- consume budget' (lit "next") None ;;
      match wrapped_message with
      | None => consume_all_loop budget' end_message messages
      | Some w =>
          if py_eq (message w) end_message
          then ret messages
          else consume_all_loop budget' end_message (messages ++ [w])
      end
  end.

Definition consume_all (budget : nat) (end_message : json)
  : M t (list MessageData) :=
  consume_all_loop budget end_message [].

End Methods.

End DatasetConsumer.

(* ================================================================== *)
(** ** [class DatasetProducer] *)

Module DatasetProducer.

Record t : Type := {
  source_pipeline : str;
  dataset : str;
  source_node : str;
  prefix : option str;
  has_pipeline_prefix : bool;
  topic_name : str;
  kafka_config : KafkaConfig;
  producer : Kafka.Producer
}.

Definition set_producer (self : t) (p : Kafka.Producer) : t :=
  {| source_pipeline := source_pipeline self; dataset := dataset self;
     source_node := source_node self; prefix := prefix self;
     has_pipeline_prefix := has_pipeline_prefix self;
     topic_name := topic_name self; kafka_config := kafka_config self;
     producer := p |}.

Definition on_producer {A} (m : M Kafka.Producer A) : M t A :=
  on_field producer set_producer m.

(** [__init__]; [defaults] is [DEFAULT_KAFKA_CONFIG]. *)
Definition __init__
    (defaults : KafkaConfig)
    (dataset_name node_name pipeline_name : str)
    (dataset_config : dataset_config)
    (prefix : option str) (has_pipeline_prefix : bool) : result t :=
  let topic_name := dataset_name in
  let topic_name :=
    if has_pipeline_prefix
    then pipeline_name ++ dot ++ topic_name
    else topic_name in
  let topic_name :=
    if truthy_str prefix
    then format_opt prefix ++ dot ++ topic_name
    else topic_name in
  let producer_config := PRODUCER_CONFIG defaults in
  match match dataset_config with
        | ConfigDict d => Dataset_of d
        | ConfigModel m => Ok m
        end with
  | Err e => Err e
  | Ok dataset_config =>
      let producer_config :=
        match params dataset_config with
        | Some ((_ :: _) as params) =>
            fold_left
              (fun c param =>
                 match dict_get params param with
                 | Some v => dict_set c param v
                 | None => c
                 end)
              (PRODUCER_OVERRIDABLES defaults) producer_config
        | _ => producer_config
        end in
      Ok {| source_pipeline := pipeline_name;
            dataset := dataset_name;
            source_node := node_name;
            prefix := prefix;
            has_pipeline_prefix := has_pipeline_prefix;
            topic_name := topic_name;
            kafka_config := with_PRODUCER_CONFIG defaults producer_config;
            producer := Kafka.Producer_new producer_config |}
  end.

(** The envelope [produce] builds around [message]; [now] is the
    reading of the clock. *)
Definition envelope (now : str) (self : t) (message : json) : MessageData :=
  {| timestamp := now;
     Models.dataset := dataset self;
     Models.source_node := source_node self;
     Models.source_pipeline := source_pipeline self;
     Models.message := message |}.

(** [s.encode("utf-8")]. *)
Definition encode {St} (s : str) : M St (list byte) :=
  match Codec.utf8_encode s with
  | Some b => ret b
  | None => raise UnicodeEncodeError
  end.

(** [produce]; the [key], when given, is already the string [str(key)]. *)
Definition produce (now : str) (message : json) (key : option str)
  : M t unit :=
  self <- get ;;
  let wrapped_message := model_dump (envelope now self message) in
  _ <- on_producer Kafka.producer_poll ;;
  key_bytes <- match key with
               | Some k => (b <- encode k ;; ret (Some b))
               | None => ret None
               end ;;
  value <- encode (Codec.dumps wrapped_message) ;;
  _ <- on_producer
         (Kafka.produce
            {| Kafka.to_topic := topic_name self;
               Kafka.key := key_bytes;
               Kafka.payload_bytes := value |}) ;;
  on_producer Kafka.flush.

End DatasetProducer.

(* ================================================================== *)
(** ** The in-memory fakes *)

Module FakeDatasetConsumer.

Record t : Type := {
  dataset_name : str;
  node_name : str;
  source_pipeline : str;
  values : list json;
  empty : bool
}.

Definition __init__ (dataset_name node_name source_pipeline : str)
    (values : list json) : t :=
  {| dataset_name := dataset_name; node_name := node_name;
     source_pipeline := source_pipeline; values := values;
     empty := false |}.

Definition set_empty (b : bool) : M t unit :=
  fun self =>
    Return tt
      {| dataset_name := dataset_name self; node_name := node_name self;
         source_pipeline := source_pipeline self; values := values self;
         empty := b |}.

Definition set_values (vs : list json) : M t unit :=
  fun self =>
    Return tt
      {| dataset_name := dataset_name self; node_name := node_name self;
         source_pipeline := source_pipeline self; values := vs;
         empty := empty self |}.

(** What [consume] hands back: the declared result is an envelope, but
    the "last" branch returns the stored value as it is. *)
Inductive returned : Type :=
| Envelope (m : MessageData)
| Value (v : json).

Definition invalid_how (how : str) : str :=
  lit "Invalid how: " ++ how ++ lit ". Expected 'next' or 'last'.".

Section Methods.

Variable now : str.

(** [consume]; [timeout] is not used. *)
Definition consume (how : str) (timeout : option Q)
  : M t (option returned) :=
  if negb (str_eqb how (lit "next") || str_eqb how (lit "last"))
  then raise (ValueError (invalid_how how))
  else
    self <- get ;;
    match str_eqb how (lit "next"), values self with
    | true, head :: rest =>
        let remaining := List.length (values self) in
        _ <- (if Nat.eqb remaining 1 then set_empty true else ret tt) ;;
        _ <- set_values rest ;;
        ret (Some (Envelope
                     {| timestamp := now;
                        dataset := dataset_name self;
                        source_node := node_name self;
                        Models.source_pipeline := source_pipeline self;
                        message := head |}))
    | _, _ =>
        match str_eqb how (lit "last"), values self with
        | true, v :: _ => ret (Some (Value (List.last (values self) v)))
        | _, _ => ret None
        end
    end.

Definition next : M t (option returned) :=
  consume (lit "next") None.

Definition last (timeout : Q) : M t (option returned) :=
  consume (lit "last") (Some timeout).

End Methods.

End FakeDatasetConsumer.

Module FakeDatasetProducer.

Record t : Type := {
  dataset_name : str;
  node_name : str;
  source_pipeline : str;
  values : list MessageData
}.

Definition __init__ (dataset_name node_name source_pipeline : str) : t :=
  {| dataset_name := dataset_name; node_name := node_name;
     source_pipeline := source_pipeline; values := [] |}.

Definition produce (now : str) (message : json) : M t unit :=
  fun self =>
    let wrapped_message :=
      {| timestamp := now;
         dataset := dataset_name self;
         Models.source_pipeline := source_pipeline self;
         source_node := node_name self;
         message := message |} in
    Return tt
      {| dataset_name := dataset_name self; node_name := node_name self;
         source_pipeline := source_pipeline self;
         values := values self ++ [wrapped_message] |}.

End FakeDatasetProducer.

(* ================================================================== *)
(** * Definitions used to state the properties *)

Module DC := DatasetConsumer.

(** ** Topic naming *)

(** The spec's topic name, [[prefix.][pipeline.]dataset]: the pipeline
    segment is there when the dataset is pipeline-scoped, the prefix
    segment when a prefix is given.  An empty prefix counts as none. *)
Definition segment (present : bool) (s : str) : str :=
  if present then s ++ dot else [].

Definition spec_topic_name (dataset_name pipeline_name : str)
    (prefix : option str) (has_pipeline_prefix : bool) : str :=
  segment (truthy_str prefix) (format_opt prefix)
  ++ segment has_pipeline_prefix pipeline_name
  ++ dataset_name.

(** ** Sample inputs *)

Definition sample_kafka_config : KafkaConfig :=
  {| CONSUMER_CONFIG :=
       [(lit "bootstrap.servers", JStr (lit "localhost:9092"));
        (lit "auto.offset.reset", JStr (lit "earliest"))];
     CONSUMER_TIMEOUT := Some 0%Q;
     PRODUCER_CONFIG :=
       [(lit "bootstrap.servers", JStr (lit "localhost:9092"))];
     PRODUCER_OVERRIDABLES := [] |}.

Definition sample_dataset_config : dataset_config :=
  ConfigModel {| type := lit "kafka_stream"; params := None |}.

(** A broker that reports the high watermark 10 for every partition and
    delivers [ds]. *)
Definition sample_broker (ds : list Kafka.delivery) : Kafka.Broker :=
  {| Kafka.deliveries := ds;
     Kafka.watermark := fun _ _ => Kafka.Watermarks 0 10 |}.

(** The consumer of the class docstring: dataset [my_dataset] of pipeline
    [my_pipeline], pipeline-scoped, with the prefix [test]. *)
Definition docstring_consumer : result DatasetConsumer.t :=
  DatasetConsumer.__init__ sample_kafka_config (Some (lit "kafka_stream"))
    (sample_broker []) (lit "my_dataset") (lit "my_node")
    (lit "my_pipeline") sample_dataset_config None (Some (lit "test")) true.

Definition docstring_producer : result DatasetProducer.t :=
  DatasetProducer.__init__ sample_kafka_config (lit "my_dataset")
    (lit "my_node") (lit "my_pipeline") sample_dataset_config
    (Some (lit "test")) true.

(** What is left of an outcome once the state is forgotten. *)
Definition returned_value {St A} (o : outcome St A) : option A :=
  match o with
  | Return a _ => Some a
  | _ => None
  end.

Definition state_after {St A} (o : outcome St A) : option St :=
  match o with
  | Return _ s => Some s
  | Raise _ s => Some s
  | Running => None
  end.

Definition raises {St A} (o : outcome St A) : bool :=
  match o with
  | Raise _ _ => true
  | _ => false
  end.

(** A consumer as [__init__] leaves it, connected to a broker that will
    deliver [ds]; no partition is assigned yet. *)
Definition sample_consumer (ds : list Kafka.delivery) : DatasetConsumer.t :=
  {| DatasetConsumer.pipeline_name := lit "my_pipeline";
     DatasetConsumer.kafka_config :=
       with_CONSUMER_CONFIG sample_kafka_config
         (dict_set (CONSUMER_CONFIG sample_kafka_config) (lit "group.id")
                   (JStr (lit "my_pipeline.my_node")));
     DatasetConsumer.prefix := None;
     DatasetConsumer.has_pipeline_prefix := true;
     DatasetConsumer.cached := false;
     DatasetConsumer.name := lit "my_pipeline.my_node";
     DatasetConsumer.consumer :=
       Kafka.subscribed_to [lit "my_pipeline.my_dataset"]
         (Kafka.Consumer_new
            (dict_set (CONSUMER_CONFIG sample_kafka_config) (lit "group.id")
                      (JStr (lit "my_pipeline.my_node")))
            (sample_broker ds));
     DatasetConsumer.topic_name := lit "my_pipeline.my_dataset" |}.

Definition sample_fake (values : list json) : FakeDatasetConsumer.t :=
  FakeDatasetConsumer.__init__ (lit "my_dataset") (lit "my_node")
    (lit "my_pipeline") values.

Definition sample_now : str := lit "2020-01-01 00:00:00".

Definition timeout_message : str :=
  lit "Timeout must be > 0 when consuming the last message.".

(** The timeout [consume] polls with. *)
Definition poll_timeout (self : DatasetConsumer.t) (timeout : option Q)
  : option Q :=
  or_default timeout (CONSUMER_TIMEOUT (DatasetConsumer.kafka_config self)).

(** The seek offset the spec prescribes for a high watermark. *)
Definition spec_seek_offset (high : Z) : Z :=
  if (high =? OFFSET_INVALID)%Z then (-1)%Z else (high - 1)%Z.

(** [_update_offset_to_latest] starts by asking for the assignment and
    ends by assigning: a trace without [CallAssignment] shows that the
    operation was never started. *)
Definition is_assignment_call (x : Kafka.call) : bool :=
  match x with
  | Kafka.CallAssignment => true
  | _ => false
  end.

Definition offset_to_latest_started (trace : list Kafka.call) : bool :=
  existsb is_assignment_call trace.

(** What [consume] does once the poll is over. *)
Definition after_poll (now : str) (self : DC.t)
    (polled : outcome Kafka.Consumer (option Message))
  : outcome DC.t (option MessageData) :=
  match polled with
  | Return m c =>
      of_result (DC._validate_message now m)
                (DC.with_cached (DC.set_consumer self c) true)
  | Raise e c => Raise e (DC.set_consumer self c)
  | Running => Running
  end.

(** The client after the calls [xs], none of which changed its state. *)
Definition logged_all (c : Kafka.Consumer) (xs : list Kafka.call)
  : Kafka.Consumer :=
  {| Kafka.config := Kafka.config c;
     Kafka.subscription := Kafka.subscription c;
     Kafka.assigned := Kafka.assigned c;
     Kafka.incoming := Kafka.incoming c;
     Kafka.watermarks := Kafka.watermarks c;
     Kafka.calls := Kafka.calls c ++ xs |}.

(** The partition [p] moved to the offset prescribed for the high
    watermark the client [c] reports. *)
Definition sought (c : Kafka.Consumer) (cached : bool) (p : TopicPartition)
  : TopicPartition :=
  match Kafka.watermarks c p cached with
  | Kafka.Watermarks _ high => DC.set_offset p (spec_seek_offset high)
  | Kafka.WatermarkRaises _ => p
  end.

Definition watermark_available (c : Kafka.Consumer) (cached : bool)
    (p : TopicPartition) : bool :=
  match Kafka.watermarks c p cached with
  | Kafka.Watermarks _ _ => true
  | Kafka.WatermarkRaises _ => false
  end.

(** A consumer with the assignment [ps], on a broker reporting the high
    watermark [high p] for the partition [p]. *)
Definition assigned_consumer (ps : list TopicPartition)
    (high : TopicPartition -> Z) (ds : list Kafka.delivery) : DC.t :=
  DC.set_consumer (sample_consumer ds)
    {| Kafka.config := Kafka.config (DC.consumer (sample_consumer ds));
       Kafka.subscription := [lit "my_pipeline.my_dataset"];
       Kafka.assigned := ps;
       Kafka.incoming := ds;
       Kafka.watermarks := fun p _ => Kafka.Watermarks 0 (high p);
       Kafka.calls := [] |}.

Definition partition_0 : TopicPartition :=
  {| topic := lit "my_pipeline.my_dataset"; partition := 0; offset := 0 |}.

Definition partition_1 : TopicPartition :=
  {| topic := lit "my_pipeline.my_dataset"; partition := 1; offset := 0 |}.

Definition transport_error : KafkaError :=
  {| code := KafkaError_TRANSPORT |}.

Definition max_poll_exceeded : KafkaError :=
  {| code := KafkaError_MAX_POLL_EXCEEDED |}.


(** A poll that raises [x], and one that delivers [m]. *)
Definition poll_raising (x : exn) : Kafka.delivery :=
  {| Kafka.rebalance := None; Kafka.yields := Kafka.PollRaises x |}.

Definition delivering (m : Message) : Kafka.delivery :=
  {| Kafka.rebalance := None; Kafka.yields := Kafka.Polled m |}.

Definition idle_poll : Kafka.delivery :=
  {| Kafka.rebalance := None; Kafka.yields := Kafka.NoRecord |}.

(** ** Deliveries *)

(** The record a consumer polls for a record handed to a producer: the
    same bytes, no error. *)
Definition as_polled (r : Kafka.ProducerRecord) : Message :=
  {| value := Some (Bytes (Kafka.payload_bytes r)); error := None |}.

(** The envelopes [consume_all] keeps from the deliveries [ds], when none
    of them raises or carries the end message: polls without a record and
    records that validate to [None] are skipped. *)
Fixpoint kept (now : str) (end_message : json) (ds : list Kafka.delivery)
  : option (list MessageData) :=
  match ds with
  | [] => Some []
  | d :: ds' =>
      match Kafka.yields d with
      | Kafka.NoRecord => kept now end_message ds'
      | Kafka.PollRaises _ => None
      | Kafka.Polled m =>
          match DC._validate_message now (Some m) with
          | Ok None => kept now end_message ds'
          | Ok (Some w) =>
              if py_eq (message w) end_message then None
              else option_map (cons w) (kept now end_message ds')
          | Err _ => None
          end
      end
  end.

(** The delivery [d] carries a record whose payload equals the end
    message. *)
Definition terminates (now : str) (end_message : json) (d : Kafka.delivery)
  : bool :=
  match Kafka.yields d with
  | Kafka.Polled m =>
      match DC._validate_message now (Some m) with
      | Ok (Some w) => py_eq (message w) end_message
      | _ => false
      end
  | _ => false
  end.

Definition sample_producer : DatasetProducer.t :=
  {| DatasetProducer.source_pipeline := lit "my_pipeline";
     DatasetProducer.dataset := lit "my_dataset";
     DatasetProducer.source_node := lit "my_node";
     DatasetProducer.prefix := None;
     DatasetProducer.has_pipeline_prefix := true;
     DatasetProducer.topic_name := lit "my_pipeline.my_dataset";
     DatasetProducer.kafka_config := sample_kafka_config;
     DatasetProducer.producer :=
       Kafka.Producer_new (PRODUCER_CONFIG sample_kafka_config) |}.

(** The records [sample_producer] publishes for the payloads [ps], as a
    consumer polls them. *)
Fixpoint published_from (self : DatasetProducer.t) (ps : list json)
  : list Message :=
  match ps with
  | [] => List.map as_polled (Kafka.produced (DatasetProducer.producer self))
  | p :: ps' =>
      match DatasetProducer.produce sample_now p None self with
      | Return _ self' => published_from self' ps'
      | _ => []
      end
  end.

Definition published (ps : list json) : list Message :=
  published_from sample_producer ps.

(** The floats 1.5, 1.0 and 0.1. *)
Definition one_and_a_half : float :=
  SpecFloat.S754_finite false 6755399441055744 (-52).

Definition float_one : float :=
  SpecFloat.S754_finite false 4503599627370496 (-52).

Definition a_tenth : float :=
  SpecFloat.S754_finite false 7205759403792794 (-56).

Definition payload_x : json := JObj [(lit "x", JInt 1)].
Definition payload_y : json := JStr (lit "y").
Definition payload_z : json := JArr [JInt 3; JNull].
Definition payload_end : json := JStr (lit "END").

Definition sample_envelope (p : json) : MessageData :=
  DatasetProducer.envelope sample_now sample_producer p.

(** The deliveries [x, y, E, z] of the spec's example. *)
Definition deliveries_x_y_end_z : list Kafka.delivery :=
  List.map delivering
    (published [payload_x; payload_y; payload_end; payload_z]).

(** ** The fake consumer *)

(** The envelope the fake builds around a value. *)
Definition fake_envelope (now dataset_name node_name source_pipeline : str)
    (v : json) : MessageData :=
  {| timestamp := now; dataset := dataset_name; source_node := node_name;
     Models.source_pipeline := source_pipeline; message := v |}.

(** A fake consumer holding [values], with its [empty] flag. *)
Definition fake_state (dataset_name node_name source_pipeline : str)
    (values : list json) (empty : bool) : FakeDatasetConsumer.t :=
  {| FakeDatasetConsumer.dataset_name := dataset_name;
     FakeDatasetConsumer.node_name := node_name;
     FakeDatasetConsumer.source_pipeline := source_pipeline;
     FakeDatasetConsumer.values := values;
     FakeDatasetConsumer.empty := empty |}.

(** ** The serialisation round trip *)

Import Codec.
Local Open Scope N_scope.

(** A Python [str] holds code points below 0x110000. *)
Definition is_code_point (c : N) : bool := (c <? 1114112)%N.

Definition is_str (s : str) : bool := forallb is_code_point s.

Definition is_high_surrogate (c : N) : bool :=
  ((55296 <=? c) && (c <=? 56319))%N.

Definition is_low_surrogate (c : N) : bool :=
  ((56320 <=? c) && (c <=? 57343))%N.

(** Text: code points that are not surrogates, which is what UTF-8 and
    JSON can carry. *)
Definition is_text (s : str) : bool :=
  forallb (fun c => is_code_point c && negb (Codec.is_surrogate c)) s.

(** What [json.loads] reads back from the escapes of [s]: a high
    surrogate followed by a low one comes back as the one code point of
    the pair. *)
Fixpoint joined (s : str) : str :=
  match s with
  | [] => []
  | c :: s' =>
      match s' with
      | d :: s'' =>
          if is_high_surrogate c && is_low_surrogate d
          then Codec.join_surrogates c d :: joined s''
          else c :: joined s'
      | [] => [c]
      end
  end.

Fixpoint distinct (ks : list str) : bool :=
  match ks with
  | [] => true
  | k :: ks' => negb (existsb (str_eqb k) ks') && distinct ks'
  end.

(** A float JSON can write: a number, not a NaN nor an infinity. *)
Definition is_finite (x : float) : bool :=
  match x with
  | SpecFloat.S754_zero _ | SpecFloat.S754_finite _ _ _ => true
  | _ => false
  end.

(** Every string of the value is a Python [str] and every float a
    binary64. *)
Fixpoint is_py (v : json) : bool :=
  match v with
  | JFloat x => is_float x
  | JStr s => is_str s
  | JArr l => forallb is_py l
  | JObj d => forallb (fun kv => is_str (fst kv) && is_py (snd kv)) d
  | _ => true
  end.

(** A JSON-representable payload: its strings are text, its floats are
    numbers, and the keys of each of its dicts are distinct, as in any
    Python [dict]. *)
Fixpoint json_representable (v : json) : bool :=
  match v with
  | JFloat x => is_float x && is_finite x
  | JStr s => is_text s
  | JArr l => forallb json_representable l
  | JObj d =>
      distinct (List.map fst d)
      && forallb (fun kv => is_text (fst kv) && json_representable (snd kv)) d
  | _ => true
  end.

(** What [json.loads] reads back from [json.dumps v]. *)
Fixpoint decoded (v : json) : json :=
  match v with
  | JStr s => JStr (joined s)
  | JArr l => JArr (List.map decoded l)
  | JObj d =>
      JObj (dict_of_pairs
              (List.map (fun kv => (joined (fst kv), decoded (snd kv))) d))
  | _ => v
  end.

(** The number of scanner calls a value takes. *)
Fixpoint size (v : json) : nat :=
  match v with
  | JArr l => S (List.length l + list_sum (List.map size l))
  | JObj d =>
      S (List.length d + list_sum (List.map (fun kv => size (snd kv)) d))
  | _ => 1
  end.

(** The text [json.dumps] writes between the brackets of a list and
    between the braces of a dict. *)
Fixpoint dumps_items (l : list json) : str :=
  match l with
  | [] => []
  | x :: l' =>
      Codec.dumps x ++
      match l' with
      | [] => []
      | _ :: _ => Codec.item_separator ++ dumps_items l'
      end
  end.

Fixpoint dumps_members (d : list (str * json)) : str :=
  match d with
  | [] => []
  | (k, x) :: d' =>
      Codec.encode_basestring_ascii k ++ Codec.key_separator
      ++ Codec.dumps x ++
      match d' with
      | [] => []
      | _ :: _ => Codec.item_separator ++ dumps_members d'
      end
  end.

(** What would be read as a part of the number that stands before it. *)
Definition continues_number (s : str) : bool :=
  match s with
  | c :: _ =>
      Codec.is_digit c || (c =? Codec.ch_dot) || (c =? Codec.ch_e)
      || (c =? Codec.ch_E) || (c =? Codec.ch_plus) || (c =? Codec.ch_minus)
  | [] => false
  end.

Definition is_ascii (s : str) : bool := forallb (fun c => (c <? 128)%N) s.

(** [str(key).encode("utf-8")] succeeds. *)
Definition key_encodes (key : option str) : bool :=
  match key with
  | Some k => match Codec.utf8_encode k with Some _ => true | None => false end
  | None => true
  end.

(** The envelope as [json.loads] reads it back from the wire. *)
Definition decoded_envelope (m : MessageData) : MessageData :=
  {| timestamp := joined (timestamp m);
     dataset := joined (dataset m);
     source_node := joined (source_node m);
     source_pipeline := joined (source_pipeline m);
     message := decoded (message m) |}.

Definition is_py_envelope (m : MessageData) : bool :=
  is_str (timestamp m) && is_str (dataset m) && is_str (source_node m)
  && is_str (source_pipeline m) && is_py (message m).

(** The record [produce] hands to the Kafka producer. *)
Definition wire_record (now : str) (self : DatasetProducer.t) (p : json)
    (key : option str) : Kafka.ProducerRecord :=
  {| Kafka.to_topic := DatasetProducer.topic_name self;
     Kafka.key :=
       match key with
       | Some k => Codec.utf8_encode k
       | None => None
       end;
     Kafka.payload_bytes :=
       List.map Codec.byte_of
         (Codec.dumps (model_dump (DatasetProducer.envelope now self p))) |}.

(** ** Auxiliary notions of the round-trip proof *)

(** The four shapes of an escaped character. *)
Inductive escape_shape (c : N) : Prop :=
| shape_literal :
    escape_char c = [c] -> c <> ch_backslash -> c <> ch_quote ->
    32 <= c -> c <= 126 -> escape_shape c
| shape_short e :
    escape_char c = [ch_backslash; e] -> e <> ch_u ->
    (forall tail, scan_char (ch_backslash :: e :: tail) = Char c tail) ->
    c <= 126 -> escape_shape c
| shape_u :
    escape_char c = u_escape c -> c < 65536 -> escape_shape c
| shape_pair :
    escape_char c
    = u_escape (55296 + (c - 65536) / 1024)
      ++ u_escape (56320 + (c - 65536) mod 1024) ->
    65536 <= c -> escape_shape c.

(** The first character of a dumped value starts a value: it is neither
    white space nor a closing bracket. *)
Definition starts_value (s : str) : bool :=
  match s with
  | c :: _ => negb (is_ws c) && negb (c =? ch_rbracket)
  | [] => false
  end.

Definition sizes (l : list json) : nat :=
  (List.length l + list_sum (List.map size l))%nat.

Definition member_sizes (d : list (str * json)) : nat :=
  (List.length d + list_sum (List.map (fun kv => size (snd kv)) d))%nat.

Definition are_py (d : list (str * json)) : bool :=
  forallb (fun kv => is_str (fst kv) && is_py (snd kv)) d.

Definition decoded_pair (kv : str * json) : str * json :=
  (joined (fst kv), decoded (snd kv)).

(** The text after the opening quote of the first key of a dict. *)
Definition members_tail (k : str) (x : json) (d : list (str * json)) : str :=
  flat_map escape_char k ++ ch_quote :: key_separator ++ dumps x
  ++ match d with
     | [] => []
     | _ :: _ => item_separator ++ dumps_members d
     end.

Definition scans_at (b : nat) : Prop :=
  (forall v rest,
      is_py v = true -> (size v <= b)%nat ->
      continues_number rest = false ->
      scan_once b (dumps v ++ rest) = Some (decoded v, rest))
  /\ (forall x l acc rest,
         is_py x = true -> forallb is_py l = true ->
         (S (size x + sizes l) <= b)%nat ->
         JSONArray b (dumps_items (x :: l) ++ ch_rbracket :: rest) acc
         = Some (JArr (rev acc ++ List.map decoded (x :: l)), rest))
  /\ (forall k x d acc rest,
         is_str k = true -> is_py x = true -> are_py d = true ->
         (S (size x + member_sizes d) <= b)%nat ->
         JSONObject b (members_tail k x d ++ ch_rbrace :: rest) acc
         = Some (JObj (dict_of_pairs
                         (rev acc ++ List.map decoded_pair ((k, x) :: d))),
                 rest)).

(** A payload with nested values, escapes, a character outside ASCII
    and one outside the basic plane. *)
Definition payload_nested : json :=
  JObj [(lit "name", JStr (lit "caf" ++ [233; 32; 128512]));
        (lit "count", JInt (-42));
        (lit "price", JFloat one_and_a_half);
        (lit "rate", JFloat a_tenth);
        (lit "items",
         JArr [JNull; JBool true; JStr [34; 92; 10; 9]; JArr [];
               JObj [(lit "k", JInt 0)]])].

(** The float with the sign [s]. *)
Definition with_sign (s : bool) (x : float) : float :=
  match x with
  | SpecFloat.S754_zero _ => SpecFloat.S754_zero s
  | SpecFloat.S754_infinity _ => SpecFloat.S754_infinity s
  | SpecFloat.S754_nan => SpecFloat.S754_nan
  | SpecFloat.S754_finite _ m e => SpecFloat.S754_finite s m e
  end.

(** The value [m * 2 ^ e] as a fraction. *)
Definition numerator (m : positive) (e : Z) : Z :=
  if (0 <=? e)%Z then (Zpos m * 2 ^ e)%Z else Zpos m.

Definition denominator (e : Z) : Z :=
  if (0 <=? e)%Z then 1%Z else (2 ^ (- e))%Z.

(** The power of ten of the last digit of the search of [repr]. *)
Definition last_exponent (m : positive) (e : Z) : Z :=
  Z.min (Z.min e 0)
        (decimal_exponent (numerator m e) (denominator e)).

(** The text of a float without its sign. *)
Definition unsigned_text (m : positive) (e : Z) : str :=
  match shortest
          (Z.to_nat (decimal_exponent (numerator m e) (denominator e)
                     - last_exponent m e + 1))
          1 (numerator m e) (denominator e)
          (decimal_exponent (numerator m e) (denominator e))
          (SpecFloat.S754_finite false m e) with
  | Some text => text
  | None => []
  end.

(** The number written by the digit characters [s] after the digits
    that wrote [acc]. *)
Definition chars_after (acc : Z) (s : str) : Z :=
  fold_left (fun a c => (10 * a + Z.of_N (c - ch_zero))%Z) s acc.

Definition all_digits (s : str) : bool := forallb Codec.is_digit s.

(** ** Proof steps that recur *)

(** [lia] on goals that hold quotients and remainders, taken as opaque. *)
Ltac forget_divisions :=
  repeat match goal with
         | |- context [N.div ?a ?b] =>
             let q := fresh "q" in set (q := N.div a b) in *; clearbody q
         | |- context [N.modulo ?a ?b] =>
             let r := fresh "r" in set (r := N.modulo a b) in *; clearbody r
         | H : context [N.div ?a ?b] |- _ =>
             let q := fresh "q" in set (q := N.div a b) in *; clearbody q
         | H : context [N.modulo ?a ?b] |- _ =>
             let r := fresh "r" in set (r := N.modulo a b) in *; clearbody r
         end.

Ltac dlia := forget_divisions; lia.

(** Sizes of lists of values, for [lia]. *)
Ltac size_lia :=
  unfold sizes, member_sizes in *;
  cbn [List.length List.map fst snd] in *;
  repeat match goal with
         | H : context [list_sum (?a :: ?l)] |- _ =>
             change (list_sum (a :: l)) with (a + list_sum l)%nat in H
         | |- context [list_sum (?a :: ?l)] =>
             change (list_sum (a :: l)) with (a + list_sum l)%nat
         end;
  change (list_sum []) with 0%nat in *;
  lia.

Local Close Scope N_scope.

(* ================================================================== *)
(** * Further definitions: configuration, blocking reads, runs of calls *)

(** ** Configuration of the Kafka clients *)

Definition group_id_key : str := lit "group.id".

Definition bootstrap_servers_key : str := lit "bootstrap.servers".

(** The consumer identity [[prefix.]pipeline.node]. *)
Definition consumer_identity (pipeline_name node_name : str)
    (prefix : option str) : str :=
  segment (truthy_str prefix) (format_opt prefix)
  ++ pipeline_name ++ dot ++ node_name.

(** A [Dataset] passed as such, with the parameters [ps]. *)
Definition dataset_with_params (t : str) (ps : option dict) : dataset_config :=
  ConfigModel {| type := t; params := ps |}.

(** [k in keys]. *)
Definition key_in (k : str) (keys : list str) : bool :=
  existsb (str_eqb k) keys.

(** ** Deliveries seen by the blocking reads *)

(** A delivery the blocking wrapper goes past: a poll without a record
    or a record that validates to [None]. *)
Definition passed_over (now : str) (d : Kafka.delivery) : bool :=
  match Kafka.yields d with
  | Kafka.NoRecord => true
  | Kafka.PollRaises _ => false
  | Kafka.Polled m =>
      match DC._validate_message now (Some m) with
      | Ok None => true
      | _ => false
      end
  end.

(** The envelope a delivery validates to, if it does. *)
Definition delivered (now : str) (d : Kafka.delivery) : option MessageData :=
  match Kafka.yields d with
  | Kafka.Polled m =>
      match DC._validate_message now (Some m) with
      | Ok (Some w) => Some w
      | _ => None
      end
  | _ => None
  end.

(** A poll that raises nothing and leaves the consumer without any
    partition. *)
Definition leaves_unassigned (d : Kafka.delivery) : bool :=
  match Kafka.rebalance d with
  | None | Some [] => true
  | Some (_ :: _) => false
  end
  && match Kafka.yields d with
     | Kafka.PollRaises _ => false
     | _ => true
     end.

Definition poll_raises (d : Kafka.delivery) : bool :=
  match Kafka.yields d with
  | Kafka.PollRaises _ => true
  | _ => false
  end.

(** The call that asks for the watermarks of [p]. *)
Definition watermark_call (cached : bool) (p : TopicPartition) : Kafka.call :=
  Kafka.CallGetWatermarkOffsets p cached.

(** What a consumer is and listens to, as opposed to what it has read. *)
Definition same_identity (s s' : DC.t) : Prop :=
  DC.pipeline_name s' = DC.pipeline_name s
  /\ DC.kafka_config s' = DC.kafka_config s
  /\ DC.prefix s' = DC.prefix s
  /\ DC.has_pipeline_prefix s' = DC.has_pipeline_prefix s
  /\ DC.name s' = DC.name s
  /\ DC.topic_name s' = DC.topic_name s
  /\ Kafka.config (DC.consumer s') = Kafka.config (DC.consumer s)
  /\ Kafka.subscription (DC.consumer s') = Kafka.subscription (DC.consumer s)
  /\ Kafka.watermarks (DC.consumer s') = Kafka.watermarks (DC.consumer s).

Definition same_client (c c' : Kafka.Consumer) : Prop :=
  Kafka.config c' = Kafka.config c
  /\ Kafka.subscription c' = Kafka.subscription c
  /\ Kafka.watermarks c' = Kafka.watermarks c.

Definition keeps_client {A} (m : M Kafka.Consumer A) : Prop :=
  forall c c', state_after (m c) = Some c' -> same_client c c'.

(** ** Runs of calls *)

(** [n] calls of the fake's [next()], with what each returned. *)
Fixpoint fake_nexts (now : str) (n : nat)
  : M FakeDatasetConsumer.t (list (option FakeDatasetConsumer.returned)) :=
  match n with
  | O => ret []
  | S n' =>
      r <- FakeDatasetConsumer.next now ;;
      rs <- fake_nexts now n' ;;
      ret (r :: rs)
  end.

(** The fake consumer after one call of [consume], whatever it gave. *)
Definition fake_after (now : str) (call : str * option Q)
    (s : FakeDatasetConsumer.t) : FakeDatasetConsumer.t :=
  match FakeDatasetConsumer.consume now (fst call) (snd call) s with
  | Return _ s' => s'
  | Raise _ s' => s'
  | Running => s
  end.

(** The fake consumer after the calls [calls], in order. *)
Definition fake_run (now : str) (calls : list (str * option Q))
    (s : FakeDatasetConsumer.t) : FakeDatasetConsumer.t :=
  fold_left (fun s call => fake_after now call s) calls s.

(** [for m in ms: producer.produce(m)] on the fake producer. *)
Fixpoint fake_produce_all (now : str) (ms : list json)
  : M FakeDatasetProducer.t unit :=
  match ms with
  | [] => ret tt
  | m :: ms' =>
      _ <- FakeDatasetProducer.produce now m ;;
      fake_produce_all now ms'
  end.

Definition fake_producer_envelope (now : str) (self : FakeDatasetProducer.t)
    (m : json) : MessageData :=
  {| timestamp := now;
     dataset := FakeDatasetProducer.dataset_name self;
     source_node := FakeDatasetProducer.node_name self;
     Models.source_pipeline := FakeDatasetProducer.source_pipeline self;
     message := m |}.

(** [for (m, key) in items: producer.produce(m, key)]. *)
Fixpoint produce_all (now : str) (items : list (json * option str))
  : M DatasetProducer.t unit :=
  match items with
  | [] => ret tt
  | (m, key) :: items' =>
      _ <- DatasetProducer.produce now m key ;;
      produce_all now items'
  end.

(** The producer client after [n] more polls and flushes and the records
    [rs]. *)
Definition producer_after (p : Kafka.Producer)
    (rs : list Kafka.ProducerRecord) : Kafka.Producer :=
  {| Kafka.producer_config := Kafka.producer_config p;
     Kafka.produced := Kafka.produced p ++ rs;
     Kafka.polls := (List.length rs + Kafka.polls p)%nat;
     Kafka.flushes := (List.length rs + Kafka.flushes p)%nat |}.

(** The bytes of a JSON text, as Kafka would deliver them. *)
Definition json_record (j : json) : Message :=
  {| value := Some (Bytes (List.map Codec.byte_of (Codec.dumps j)));
     error := None |}.

Definition is_object (j : json) : bool :=
  match j with
  | JObj _ => true
  | _ => false
  end.

Definition is_text_envelope (m : MessageData) : bool :=
  is_text (timestamp m) && is_text (dataset m) && is_text (source_node m)
  && is_text (source_pipeline m) && json_representable (message m).

(** ** More sample inputs *)

(** Dataset parameters that set an offset policy, try to set the group,
    and carry a producer setting and a topic setting. *)
Definition sample_params : dict :=
  [(lit "auto.offset.reset", JStr (lit "latest"));
   (lit "group.id", JStr (lit "someone.else"));
   (lit "acks", JStr (lit "all"));
   (lit "retention.ms", JInt 86400000)].

Definition sample_overridable_config : KafkaConfig :=
  {| CONSUMER_CONFIG := CONSUMER_CONFIG sample_kafka_config;
     CONSUMER_TIMEOUT := Some 0%Q;
     PRODUCER_CONFIG :=
       [(lit "bootstrap.servers", JStr (lit "localhost:9092"));
        (lit "acks", JStr (lit "1"))];
     PRODUCER_OVERRIDABLES := [lit "acks"; lit "linger.ms"] |}.

Definition sample_model_with_params : Dataset :=
  {| type := lit "kafka_stream"; params := Some sample_params |}.

(** A poll that gives no record and completes a rebalance. *)
Definition rebalanced (ps : list TopicPartition) : Kafka.delivery :=
  {| Kafka.rebalance := Some ps; Kafka.yields := Kafka.NoRecord |}.

(** The bytes of a text that is not JSON. *)
Definition not_json_record : Message :=
  {| value := Some (Bytes (List.map Codec.byte_of (lit "not json")));
     error := None |}.

(** The event by which the client reports that the poll limit was
    exceeded: a record whose [error()] is set. *)
Definition poll_limit_event : Message :=
  {| value := Some (Bytes (List.map Codec.byte_of (lit "poll limit")));
     error := Some max_poll_exceeded |}.

(** A string holding a lone surrogate. *)
Definition lone_surrogate : str := [55296%N].

(** ** Counting seeks *)

Definition is_assign_call (x : Kafka.call) : bool :=
  match x with
  | Kafka.CallAssign _ => true
  | _ => false
  end.

(** The number of times the partitions were assigned, that is, sought. *)
Definition seeks (trace : list Kafka.call) : nat :=
  List.length (filter is_assign_call trace).

Definition no_rebalance (d : Kafka.delivery) : bool :=
  match Kafka.rebalance d with
  | None => true
  | Some _ => false
  end.

(** The Kafka client after the poll that took the delivery [d] from the
    head of its queue. *)
Definition after_delivery (timeout : option Q) (c : Kafka.Consumer)
    (d : Kafka.delivery) (rest : list Kafka.delivery) : Kafka.Consumer :=
  {| Kafka.config := Kafka.config c;
     Kafka.subscription := Kafka.subscription c;
     Kafka.assigned := match Kafka.rebalance d with
                       | Some ps => ps
                       | None => Kafka.assigned c
                       end;
     Kafka.incoming := rest;
     Kafka.watermarks := Kafka.watermarks c;
     Kafka.calls := Kafka.calls c ++ [Kafka.CallPoll timeout] |}.

(* ================================================================== *)
(** * Properties *)

(** ** Topic naming *)

Section Naming.

Variables (defaults defaults' : KafkaConfig) (stream_type : option str).
Variable broker : Kafka.Broker.
Variables dataset_name node_name pipeline_name : str.
Variables config config' : dataset_config.
Variables bootstrap_servers prefix : option str.
Variable has_pipeline_prefix : bool.

Lemma consumer_init_subscription c :
  DatasetConsumer.__init__ defaults stream_type broker dataset_name
    node_name pipeline_name config bootstrap_servers prefix
    has_pipeline_prefix = Ok c ->
  Kafka.subscription (DatasetConsumer.consumer c)
  = [spec_topic_name dataset_name pipeline_name prefix has_pipeline_prefix].
Proof.
  unfold DatasetConsumer.__init__, spec_topic_name, segment.
  destruct config as [d | m]; [destruct (Dataset_of _) | ];
    try discriminate;
    destruct (truthy_str prefix), has_pipeline_prefix;
    intros H; inversion H; subst; clear H; cbn;
    rewrite <- ?app_assoc; reflexivity.
Qed.

Lemma producer_init_topic_name p :
  DatasetProducer.__init__ defaults' dataset_name node_name pipeline_name
    config' prefix has_pipeline_prefix = Ok p ->
  DatasetProducer.topic_name p
  = spec_topic_name dataset_name pipeline_name prefix has_pipeline_prefix.
Proof.
  unfold DatasetProducer.__init__, spec_topic_name, segment.
  destruct config' as [d | m]; [destruct (Dataset_of _) | ];
    try discriminate;
    destruct (truthy_str prefix), has_pipeline_prefix;
    intros H; inversion H; subst; clear H; cbn;
    rewrite <- ?app_assoc; reflexivity.
Qed.

(** C1: a consumer and a producer built from the same dataset, pipeline,
    node, prefix and pipeline-prefix flag meet on one topic: the consumer
    subscribes to exactly the producer's [topic_name], which is
    [[prefix.][pipeline.]dataset] with the pipeline segment present
    exactly when [has_pipeline_prefix] is true. *)
Theorem consumer_and_producer_agree_on_topic c p :
  DatasetConsumer.__init__ defaults stream_type broker dataset_name
    node_name pipeline_name config bootstrap_servers prefix
    has_pipeline_prefix = Ok c ->
  DatasetProducer.__init__ defaults' dataset_name node_name pipeline_name
    config' prefix has_pipeline_prefix = Ok p ->
  Kafka.subscription (DatasetConsumer.consumer c)
  = [DatasetProducer.topic_name p]
  /\ DatasetProducer.topic_name p
     = spec_topic_name dataset_name pipeline_name prefix
         has_pipeline_prefix.
Proof.
  intros Hc Hp.
  rewrite (consumer_init_subscription Hc), (producer_init_topic_name Hp).
  split; reflexivity.
Qed.

End Naming.

Lemma consumer_and_producer_agree_on_topic_witness :
  exists c p,
    docstring_consumer = Ok c /\ docstring_producer = Ok p
    /\ Kafka.subscription (DatasetConsumer.consumer c)
       = [lit "test.my_pipeline.my_dataset"]
    /\ DatasetProducer.topic_name p = lit "test.my_pipeline.my_dataset".
Proof.
  eexists. eexists.
  split; [reflexivity |]. split; [reflexivity |].
  pose proof
    (@consumer_and_producer_agree_on_topic
       sample_kafka_config sample_kafka_config (Some (lit "kafka_stream"))
       (sample_broker []) (lit "my_dataset") (lit "my_node")
       (lit "my_pipeline") sample_dataset_config sample_dataset_config
       None (Some (lit "test")) true _ _ eq_refl eq_refl) as [Hs Ht].
  split.
  - rewrite Hs, Ht. reflexivity.
  - rewrite Ht. reflexivity.
Defined.

(** The consumer's [topic_name] attribute never carries the prefix: it is
    [[pipeline.]dataset], whatever [prefix] is. *)
Lemma consumer_init_topic_name
    defaults stream_type broker dataset_name node_name pipeline_name config
    bootstrap_servers prefix has_pipeline_prefix c :
  DatasetConsumer.__init__ defaults stream_type broker dataset_name
    node_name pipeline_name config bootstrap_servers prefix
    has_pipeline_prefix = Ok c ->
  DatasetConsumer.topic_name c
  = spec_topic_name dataset_name pipeline_name None has_pipeline_prefix.
Proof.
  unfold DatasetConsumer.__init__, spec_topic_name, segment.
  destruct config as [d | m]; [destruct (Dataset_of _) | ];
    try discriminate;
    destruct (truthy_str prefix), has_pipeline_prefix;
    intros H; inversion H; subst; clear H; cbn;
    rewrite <- ?app_assoc; reflexivity.
Qed.

(** C7: for the consumer of the class docstring (dataset [my_dataset],
    pipeline [my_pipeline], pipeline-scoped, prefix [test]) the resolved
    topic is [test.my_pipeline.my_dataset]; the consumer subscribes to it
    and the producer stores it as [topic_name], but the consumer's
    [topic_name] attribute is [my_pipeline.my_dataset], without the
    prefix segment. *)
Theorem consumer_topic_name_lacks_prefix :
  exists c p,
    docstring_consumer = Ok c /\ docstring_producer = Ok p
    /\ spec_topic_name (lit "my_dataset") (lit "my_pipeline")
         (Some (lit "test")) true = lit "test.my_pipeline.my_dataset"
    /\ Kafka.subscription (DatasetConsumer.consumer c)
       = [lit "test.my_pipeline.my_dataset"]
    /\ DatasetProducer.topic_name p = lit "test.my_pipeline.my_dataset"
    /\ DatasetConsumer.topic_name c = lit "my_pipeline.my_dataset"
    /\ DatasetConsumer.topic_name c
       <> spec_topic_name (lit "my_dataset") (lit "my_pipeline")
            (Some (lit "test")) true.
Proof.
  eexists. eexists.
  repeat (split; [reflexivity |]).
  vm_compute. discriminate.
Qed.

(** ** The fake consumer *)

Section Fake.

Variable now : str.
Variables dataset_name node_name source_pipeline : str.

Local Notation "'wrapped'" :=
  (fake_envelope now dataset_name node_name source_pipeline).
Local Notation "'fake'" :=
  (fake_state dataset_name node_name source_pipeline).

Lemma fake_init values :
  FakeDatasetConsumer.__init__ dataset_name node_name source_pipeline values
  = fake values false.
Proof. reflexivity. Qed.

(** "next" on a non-empty list pops the head, wraps it, and raises the
    [empty] flag when the head was the only element. *)
Lemma fake_next_cons v vs e :
  FakeDatasetConsumer.next now (fake (v :: vs) e)
  = Return (Some (FakeDatasetConsumer.Envelope (wrapped v)))
           (fake vs (match vs with [] => true | _ :: _ => e end)).
Proof. destruct vs; reflexivity. Qed.

Lemma fake_consume_next_nil timeout e :
  FakeDatasetConsumer.consume now (lit "next") timeout (fake [] e)
  = Return None (fake [] e).
Proof. reflexivity. Qed.

(** C8: a fake consumer seeded with [[a; b; c]] hands out the envelopes
    of [a], [b] and [c], in that order, at three successive [next()]
    calls; after the third the [empty] flag is true; a fourth
    [consume(how="next")] returns [None]. *)
Theorem fake_consumer_three_values a b c timeout :
  let seeded :=
    FakeDatasetConsumer.__init__ dataset_name node_name source_pipeline
      [a; b; c] in
  FakeDatasetConsumer.next now seeded
  = Return (Some (FakeDatasetConsumer.Envelope (wrapped a)))
           (fake [b; c] false)
  /\ FakeDatasetConsumer.next now (fake [b; c] false)
     = Return (Some (FakeDatasetConsumer.Envelope (wrapped b)))
              (fake [c] false)
  /\ FakeDatasetConsumer.next now (fake [c] false)
     = Return (Some (FakeDatasetConsumer.Envelope (wrapped c)))
              (fake [] true)
  /\ FakeDatasetConsumer.empty (fake [] true) = true
  /\ FakeDatasetConsumer.consume now (lit "next") timeout (fake [] true)
     = Return None (fake [] true)
  /\ message (wrapped a) = a /\ message (wrapped b) = b
  /\ message (wrapped c) = c.
Proof.
  cbv zeta. rewrite fake_init, !fake_next_cons, fake_consume_next_nil.
  repeat split.
Qed.

Lemma last_app (vs : list json) x d : List.last (vs ++ [x]) d = x.
Proof. apply last_last. Qed.

(** C10: [consume(how="last")] of the fake returns the last element of
    [values] as it is, not wrapped in an envelope, and changes neither
    [values] nor [empty]; on an empty list it returns [None].  "next",
    by contrast, wraps the head it pops. *)
Theorem fake_consume_last_returns_raw_value vs x e timeout :
  FakeDatasetConsumer.consume now (lit "last") timeout (fake (vs ++ [x]) e)
  = Return (Some (FakeDatasetConsumer.Value x)) (fake (vs ++ [x]) e)
  /\ FakeDatasetConsumer.consume now (lit "last") timeout (fake [] e)
     = Return None (fake [] e)
  /\ FakeDatasetConsumer.consume now (lit "next") timeout (fake (x :: vs) e)
     = Return (Some (FakeDatasetConsumer.Envelope (wrapped x)))
              (fake vs (match vs with [] => true | _ :: _ => e end)).
Proof.
  split; [| split].
  - unfold FakeDatasetConsumer.consume. cbn.
    destruct (vs ++ [x]) as [| v l] eqn:E.
    + destruct vs; discriminate.
    + rewrite <- E, last_app. reflexivity.
  - reflexivity.
  - destruct vs; reflexivity.
Qed.

(** The fake's [last] does not look at its timeout. *)
Lemma fake_last_any_timeout timeout self :
  FakeDatasetConsumer.last now timeout self
  = FakeDatasetConsumer.consume now (lit "last") None self.
Proof. reflexivity. Qed.

End Fake.

(** ** [last] and its timeout *)

Lemma sample_consumer_is_constructed ds :
  DatasetConsumer.__init__ sample_kafka_config (Some (lit "kafka_stream"))
    (sample_broker ds) (lit "my_dataset") (lit "my_node")
    (lit "my_pipeline") sample_dataset_config None None true
  = Ok (sample_consumer ds).
Proof. reflexivity. Qed.

(** C9, as stated, fails on the fake: [FakeDatasetConsumer.last] with the
    timeout 0 raises nothing and returns the last value. *)
Lemma fake_last_accepts_zero_timeout :
  FakeDatasetConsumer.last sample_now 0 (sample_fake [JInt 1; JInt 2])
  = Return (Some (FakeDatasetConsumer.Value (JInt 2)))
           (sample_fake [JInt 1; JInt 2])
  /\ raises (FakeDatasetConsumer.last sample_now 0
               (sample_fake [JInt 1; JInt 2])) = false.
Proof. split; reflexivity. Qed.

Lemma fake_consume_last_never_raises now timeout self :
  raises (FakeDatasetConsumer.consume now (lit "last") timeout self) = false.
Proof.
  unfold FakeDatasetConsumer.consume. cbn.
  destruct (FakeDatasetConsumer.values self); reflexivity.
Qed.

(** C9 (amended): [DatasetConsumer.last] with a zero or negative timeout
    raises [ValueError] at once, leaving the consumer as it was: the Kafka
    client has received no call and no offset has moved.
    [FakeDatasetConsumer.last] does not check its timeout: whatever the
    timeout, it returns what [consume(how="last")] returns and raises
    nothing. *)
Theorem last_rejects_nonpositive_timeout now budget timeout self fake :
  (timeout <= 0)%Q ->
  DatasetConsumer.last now budget timeout self
  = Raise (ValueError timeout_message) self
  /\ FakeDatasetConsumer.last now timeout fake
     = FakeDatasetConsumer.consume now (lit "last") None fake
  /\ raises (FakeDatasetConsumer.last now timeout fake) = false.
Proof.
  intros H. split; [| split].
  - unfold DatasetConsumer.last.
    apply Qle_bool_iff in H. rewrite H. reflexivity.
  - reflexivity.
  - apply fake_consume_last_never_raises.
Qed.

Lemma last_rejects_nonpositive_timeout_witness :
  (0 <= 0)%Q
  /\ DatasetConsumer.last sample_now 3 0 (sample_consumer [])
     = Raise (ValueError timeout_message) (sample_consumer [])
  /\ Kafka.calls (DatasetConsumer.consumer (sample_consumer []))
     = [Kafka.CallSubscribe [lit "my_pipeline.my_dataset"]].
Proof.
  split; [apply Qle_refl |]. split; [| reflexivity].
  apply (@last_rejects_nonpositive_timeout sample_now 3 0
           (sample_consumer []) (sample_fake []) (Qle_refl 0)).
Defined.

(** ** The real consumer: [consume] and the offset seek *)

Section Consume.

Variable now : str.

Lemma consume_next budget timeout self :
  DC.consume now budget (lit "next") timeout self
  = after_poll now self
      (Kafka.poll (poll_timeout self timeout) (DC.consumer self)).
Proof.
  unfold DC.consume, after_poll, poll_timeout. cbn.
  unfold bind, get, DC.on_consumer, on_field.
  destruct (Kafka.poll _ (DC.consumer self)); reflexivity.
Qed.

Lemma consume_last budget timeout self :
  DC.consume now budget (lit "last") timeout self
  = match DC._update_offset_to_latest budget self with
    | Return _ s1 =>
        after_poll now s1 (Kafka.poll (poll_timeout self timeout) (DC.consumer s1))
    | Raise (KafkaErrorRaised _) s1 => Return None s1
    | Raise e s1 => Raise e s1
    | Running => Running
    end.
Proof.
  unfold DC.consume, after_poll, poll_timeout.
  change (str_eqb (lit "last") (lit "next")) with false.
  change (str_eqb (lit "last") (lit "last")) with true.
  cbv beta iota delta [negb orb].
  unfold bind, get, try_except_KafkaError.
  destruct (DC._update_offset_to_latest budget self)
    as [[] s1 | e s1 |]; cbn.
  - unfold DC.on_consumer, on_field, ret.
    destruct (Kafka.poll _ (DC.consumer s1)); reflexivity.
  - destruct e; reflexivity.
  - reflexivity.
Qed.

End Consume.

(** ** Seeking to the latest offset *)

Section Seek.

Lemma logged_all_nil c : logged_all c [] = c.
Proof. destruct c; unfold logged_all; cbn. rewrite app_nil_r. reflexivity. Qed.

Lemma logged_all_cons c x xs :
  logged_all (Kafka.logged c x) xs = logged_all c (x :: xs).
Proof. unfold logged_all, Kafka.logged; cbn. rewrite <- app_assoc. reflexivity. Qed.

Lemma logged_as_all c x : Kafka.logged c x = logged_all c [x].
Proof. reflexivity. Qed.

(** With every watermark available, the loop over the partitions asks
    for each watermark in turn and yields the partitions at their new
    offsets. *)
Lemma for_partition_returns cached ps c :
  forallb (watermark_available c cached) ps = true ->
  DC.for_partition cached ps c
  = Return (List.map (sought c cached) ps)
           (logged_all c
              (List.map (fun p => Kafka.CallGetWatermarkOffsets p cached) ps)).
Proof.
  revert c. induction ps as [| p ps IH]; intros c H.
  - cbn. unfold ret. rewrite logged_all_nil. reflexivity.
  - cbn in H. apply andb_prop in H. destruct H as [Hp Hps].
    cbn [DC.for_partition List.map]. unfold bind at 1.
    unfold Kafka.get_watermark_offsets.
    unfold watermark_available in Hp.
    change (Kafka.watermarks (Kafka.logged c (Kafka.CallGetWatermarkOffsets p cached)))
      with (Kafka.watermarks c).
    unfold sought at 1.
    destruct (Kafka.watermarks c p cached) as [low high | e] eqn:E;
      [| discriminate].
    unfold bind. rewrite IH.
    + unfold ret. cbn [snd]. rewrite logged_all_cons.
      unfold spec_seek_offset.
      destruct (high =? OFFSET_INVALID)%Z; reflexivity.
    + exact Hps.
Qed.

Lemma while_not_partitions_assigned budget p ps c :
  DC.while_not_partitions budget (p :: ps) c = Return (p :: ps) c.
Proof. destruct budget; reflexivity. Qed.

(** C4: [_update_offset_to_latest], run on a consumer with the
    assignment [ps] whose watermarks are available, returns without
    raising and assigns exactly the partitions of [ps], each moved to
    its high watermark minus one, or to -1 when its high watermark is
    [OFFSET_INVALID]. *)
Theorem update_offset_to_latest_seeks_every_partition budget self ps :
  Kafka.assigned (DC.consumer self) = ps ->
  ps <> [] ->
  forallb (watermark_available (DC.consumer self) (DC.cached self)) ps
  = true ->
  exists self',
    DC._update_offset_to_latest budget self = Return tt self'
    /\ Forall2
         (fun p p' =>
            topic p' = topic p /\ partition p' = partition p
            /\ exists low high,
                 Kafka.watermarks (DC.consumer self) p (DC.cached self)
                 = Kafka.Watermarks low high
                 /\ (high = OFFSET_INVALID -> offset p' = (-1)%Z)
                 /\ (high <> OFFSET_INVALID -> offset p' = (high - 1)%Z))
         ps (Kafka.assigned (DC.consumer self'))
    /\ List.last (Kafka.calls (DC.consumer self')) Kafka.CallAssignment
       = Kafka.CallAssign (Kafka.assigned (DC.consumer self'))
    /\ DC.cached self' = DC.cached self.
Proof.
  intros Hps Hne Hw.
  unfold DC._update_offset_to_latest, bind, get, DC.on_consumer, on_field.
  unfold Kafka.assignment at 1.
  change (Kafka.assigned (Kafka.logged (DC.consumer self) Kafka.CallAssignment))
    with (Kafka.assigned (DC.consumer self)).
  rewrite Hps.
  destruct ps as [| p0 ps0]; [contradiction |].
  rewrite while_not_partitions_assigned.
  rewrite logged_as_all.
  rewrite (@for_partition_returns (DC.cached self) (p0 :: ps0)
             (logged_all (DC.consumer self) [Kafka.CallAssignment]));
    [| exact Hw].
  unfold Kafka.assign.
  eexists. split; [reflexivity |].
  split; [| split]; [| | reflexivity].
  - cbn [DC.consumer DC.set_consumer Kafka.assigned].
    clear Hps Hne.
    change (sought (logged_all (DC.consumer self) [Kafka.CallAssignment]))
      with (sought (DC.consumer self)).
    remember (p0 :: ps0) as ps eqn:Eps. clear Eps p0 ps0.
    induction ps as [| p ps IH]; cbn [List.map]; constructor.
    + cbn in Hw. apply andb_prop in Hw. destruct Hw as [Hp _].
      unfold watermark_available in Hp. unfold sought.
      destruct (Kafka.watermarks (DC.consumer self) p (DC.cached self))
        as [low high | e]; [| discriminate].
      split; [reflexivity |]. split; [reflexivity |].
      exists low, high. split; [reflexivity |].
      unfold spec_seek_offset. cbn [offset DC.set_offset].
      split; intros Hh.
      * subst high. reflexivity.
      * destruct (Z.eqb_spec high OFFSET_INVALID); [contradiction | reflexivity].
    + apply IH. cbn in Hw. apply andb_prop in Hw. apply Hw.
  - cbn [DC.consumer DC.set_consumer Kafka.assigned Kafka.calls Kafka.logged].
    apply last_last.
Qed.

Lemma update_offset_to_latest_seeks_every_partition_witness :
  exists self',
    DC._update_offset_to_latest 0
      (assigned_consumer [partition_0; partition_1]
         (fun p => if (partition p =? 0)%Z then 42%Z else OFFSET_INVALID) [])
    = Return tt self'
    /\ List.map offset (Kafka.assigned (DC.consumer self'))
       = [41%Z; (-1)%Z].
Proof.
  destruct
    (@update_offset_to_latest_seeks_every_partition 0
       (assigned_consumer [partition_0; partition_1]
          (fun p => if (partition p =? 0)%Z then 42%Z else OFFSET_INVALID) [])
       [partition_0; partition_1] eq_refl
       ltac:(discriminate) eq_refl)
    as [self' [Hrun _]].
  exists self'. split; [exact Hrun |].
  vm_compute in Hrun. inversion Hrun. reflexivity.
Defined.

End Seek.
(** ** Broker errors in the blocking reads *)

Section BrokerErrors.

Variable now : str.

(** The test of the handler of [_consume_message] compares an [int]
    with a string: it fails for every error code. *)
Lemma code_is_never_the_string e :
  py_eq (JInt (code e)) (JStr DC._MAX_POLL_EXCEEDED) = false.
Proof. reflexivity. Qed.

Lemma consume_message_step budget how timeout self :
  DC._consume_message now (S budget) how timeout self
  = match DC.consume now budget how timeout self with
    | Return (Some m) s' => Return m s'
    | Return None s' => DC._consume_message now budget how timeout s'
    | Raise x s' => Raise x s'
    | Running => Running
    end.
Proof.
  cbn [DC._consume_message].
  unfold bind at 1, DC._consume_message_turn, try_except_KafkaError.
  destruct (DC.consume now budget how timeout self) as [[m |] s' | x s' |];
    try reflexivity.
  destruct x; reflexivity.
Qed.


End BrokerErrors.


(** ** The [cached] flag *)

Section Cached.

Variable now : str.

Lemma init_not_cached
    defaults stream_type broker dataset_name node_name pipeline_name config
    bootstrap_servers prefix has_pipeline_prefix c :
  DC.__init__ defaults stream_type broker dataset_name node_name
    pipeline_name config bootstrap_servers prefix has_pipeline_prefix
  = Ok c ->
  DC.cached c = false.
Proof.
  unfold DC.__init__.
  destruct config as [d | m]; [destruct (Dataset_of _) | ];
    try discriminate;
    destruct (truthy_str prefix);
    intros H; inversion H; reflexivity.
Qed.

(** The seek reads the flag and leaves it alone. *)
Lemma update_offset_to_latest_keeps_cached budget self s' :
  state_after (DC._update_offset_to_latest budget self) = Some s' ->
  DC.cached s' = DC.cached self.
Proof.
  unfold DC._update_offset_to_latest, bind at 1, get,
    DC.on_consumer, on_field.
  match goal with
  | |- context [match ?m with Return _ _ => _ | Raise _ _ => _ | Running => _ end] =>
      destruct m
  end; cbn; intros H; inversion H; reflexivity.
Qed.

Lemma after_poll_cached self polled s' :
  state_after (after_poll now self polled) = Some s' ->
  DC.cached s' = match polled with
                 | Return _ _ => true
                 | _ => DC.cached self
                 end.
Proof.
  destruct polled as [m c | e c |]; cbn.
  - unfold of_result. destruct (DC._validate_message now m);
      cbn; intros H; inversion H; reflexivity.
  - intros H; inversion H; reflexivity.
  - discriminate.
Qed.

(** C5, as stated, fails: a "next"-mode [consume] on a new consumer
    sets [cached] although no offset-to-latest operation was started. *)
Lemma next_mode_consume_sets_cached :
  let run := DC.consume sample_now 1 (lit "next") None (sample_consumer []) in
  DC.cached (sample_consumer []) = false
  /\ returned_value run = Some None
  /\ option_map DC.cached (state_after run) = Some true
  /\ option_map
       (fun s' => offset_to_latest_started (Kafka.calls (DC.consumer s')))
       (state_after run) = Some false.
Proof. cbv zeta. repeat split. Qed.

(** C5 (amended): [cached] is false from construction.  The
    offset-to-latest operation reads it and never changes it.  It is
    [consume] that sets it, after its poll has returned, in "next" mode
    as well as in "last" mode; a [consume] whose poll raises, or whose
    offset update fails, leaves the flag as it was. *)
Theorem cached_is_set_by_consume
    defaults stream_type broker dataset_name node_name pipeline_name config
    bootstrap_servers prefix has_pipeline_prefix c
    budget timeout self :
  DC.__init__ defaults stream_type broker dataset_name node_name
    pipeline_name config bootstrap_servers prefix has_pipeline_prefix
  = Ok c ->
  DC.cached c = false
  /\ (forall s',
         state_after (DC._update_offset_to_latest budget self) = Some s' ->
         DC.cached s' = DC.cached self)
  /\ (forall s',
         state_after (DC.consume now budget (lit "next") timeout self)
         = Some s' ->
         DC.cached s'
         = match Kafka.poll (poll_timeout self timeout) (DC.consumer self)
           with
           | Return _ _ => true
           | _ => DC.cached self
           end)
  /\ (forall s',
         state_after (DC.consume now budget (lit "last") timeout self)
         = Some s' ->
         DC.cached s'
         = match DC._update_offset_to_latest budget self with
           | Return _ s1 =>
               match Kafka.poll (poll_timeout self timeout) (DC.consumer s1)
               with
               | Return _ _ => true
               | _ => DC.cached self
               end
           | _ => DC.cached self
           end).
Proof.
  intros Hc. split; [exact (init_not_cached _ _ _ _ _ _ _ _ _ _ Hc) |].
  split; [intros s'; apply update_offset_to_latest_keeps_cached |].
  split; intros s'.
  - rewrite consume_next. apply after_poll_cached.
  - rewrite consume_last.
    destruct (DC._update_offset_to_latest budget self) as [[] s1 | e s1 |] eqn:E.
    + intros H. rewrite (after_poll_cached _ _ H).
      rewrite (@update_offset_to_latest_keeps_cached budget self s1);
        [reflexivity | rewrite E; reflexivity].
    + assert (Hk : DC.cached s1 = DC.cached self)
        by (apply (@update_offset_to_latest_keeps_cached budget);
            rewrite E; reflexivity).
      destruct e; cbn; intros H; inversion H; subst; exact Hk.
    + discriminate.
Qed.

End Cached.

Lemma cached_is_set_by_consume_witness :
  DC.cached (sample_consumer [idle_poll]) = false
  /\ exists s',
       state_after
         (DC.consume sample_now 1 (lit "next") None
            (sample_consumer [idle_poll])) = Some s'
       /\ DC.cached s' = true.
Proof.
  pose proof
    (@cached_is_set_by_consume sample_now sample_kafka_config
       (Some (lit "kafka_stream")) (sample_broker [idle_poll])
       (lit "my_dataset") (lit "my_node") (lit "my_pipeline")
       sample_dataset_config None None true
       (sample_consumer [idle_poll]) 1 None (sample_consumer [idle_poll])
       eq_refl) as [H0 [_ [Hnext _]]].
  split; [exact H0 |].
  eexists. split; [vm_compute; reflexivity |].
  exact (Hnext _ eq_refl).
Defined.

(** ** [consume_all] *)

Section ConsumeAll.

Variable now : str.
Variable end_message : json.

Lemma poll_incoming timeout c d rest :
  Kafka.incoming c = d :: rest ->
  exists c',
    Kafka.incoming c' = rest
    /\ Kafka.poll timeout c
       = match Kafka.yields d with
         | Kafka.NoRecord => Return None c'
         | Kafka.Polled m => Return (Some m) c'
         | Kafka.PollRaises x => Raise x c'
         end.
Proof.
  intros H. unfold Kafka.poll.
  change (Kafka.incoming (Kafka.logged c (Kafka.CallPoll timeout)))
    with (Kafka.incoming c).
  rewrite H. eexists. split; [| reflexivity]. reflexivity.
Qed.

(** The loop of [consume_all] over deliveries that neither raise nor
    end the run: it keeps the validated envelopes, in order, behind
    those it already holds, and stops at the terminator. *)
Lemma consume_all_loop_drains pre :
  forall budget self messages ws d_end rest,
    Kafka.incoming (DC.consumer self) = pre ++ d_end :: rest ->
    kept now end_message pre = Some ws ->
    terminates now end_message d_end = true ->
    (List.length pre < budget)%nat ->
    exists self',
      DC.consume_all_loop now budget end_message messages self
      = Return (messages ++ ws) self'
      /\ Kafka.incoming (DC.consumer self') = rest.
Proof.
  induction pre as [| d pre IH];
    intros budget self messages ws d_end rest Hin Hkept Hend Hb;
    (destruct budget as [| budget]; [cbn in Hb; lia |]);
    cbn [DC.consume_all_loop]; unfold bind at 1; rewrite consume_next;
    cbn [app] in Hin;
    destruct (poll_incoming (poll_timeout self None) _ Hin)
      as [c' [Hc' Hpoll]];
    rewrite Hpoll.
  - (* the terminator *)
    cbn in Hkept. inversion Hkept; subst ws.
    unfold terminates in Hend.
    destruct (Kafka.yields d_end) as [| m | e]; try discriminate.
    unfold after_poll, of_result.
    destruct (DC._validate_message now (Some m)) as [[w |] | e];
      try discriminate.
    rewrite Hend. unfold ret. rewrite app_nil_r.
    eexists. split; [reflexivity | exact Hc'].
  - cbn [kept] in Hkept. cbn [List.length] in Hb.
    destruct (Kafka.yields d) as [| m | e]; [| | discriminate].
    + (* a poll without a record *)
      unfold after_poll. cbn.
      apply IH with (d_end := d_end); auto; lia.
    + unfold after_poll, of_result.
      destruct (DC._validate_message now (Some m)) as [[w |] | e];
        [| | discriminate].
      * destruct (py_eq (message w) end_message) eqn:Eq; [discriminate |].
        destruct (kept now end_message pre) as [ws' |] eqn:Ek;
          [| discriminate].
        cbn in Hkept. inversion Hkept; subst ws.
        destruct (IH budget
                    (DC.with_cached (DC.set_consumer self c') true)
                    (messages ++ [w]) ws' d_end rest)
          as [self' [Hrun Hrest]]; auto; [lia |].
        exists self'. split; [| exact Hrest].
        rewrite Hrun, <- app_assoc. reflexivity.
      * apply IH with (d_end := d_end); auto; lia.
Qed.

(** C6: [consume_all] polls in "next" mode, skips the polls that give
    nothing, keeps the envelopes in their order of arrival and stops at
    the first one whose payload equals the end message, which it does
    not keep; what the broker holds behind the terminator stays
    unread.  For the deliveries [x, y, E, z] it returns [[x; y]]. *)
Theorem consume_all_stops_at_end_message
    budget self pre d_end rest ws :
  Kafka.incoming (DC.consumer self) = pre ++ d_end :: rest ->
  kept now end_message pre = Some ws ->
  terminates now end_message d_end = true ->
  (List.length pre < budget)%nat ->
  exists self',
    DC.consume_all now budget end_message self = Return ws self'
    /\ Kafka.incoming (DC.consumer self') = rest.
Proof.
  intros Hin Hkept Hend Hb.
  exact (@consume_all_loop_drains pre budget self [] ws d_end rest
           Hin Hkept Hend Hb).
Qed.

End ConsumeAll.

Lemma consume_all_stops_at_end_message_witness :
  exists self',
    DC.consume_all sample_now 3 payload_end
      (sample_consumer deliveries_x_y_end_z)
    = Return [sample_envelope payload_x; sample_envelope payload_y] self'
    /\ Kafka.incoming (DC.consumer self')
       = List.map delivering (skipn 3 (published [payload_x; payload_y;
                                                  payload_end; payload_z]))
    /\ List.length (Kafka.incoming (DC.consumer self')) = 1%nat.
Proof.
  destruct
    (@consume_all_stops_at_end_message sample_now payload_end 3
       (sample_consumer deliveries_x_y_end_z)
       (firstn 2 deliveries_x_y_end_z)
       (nth 2 deliveries_x_y_end_z idle_poll)
       (skipn 3 deliveries_x_y_end_z)
       [sample_envelope payload_x; sample_envelope payload_y])
    as [self' [Hrun Hrest]].
  - vm_compute. reflexivity.
  - vm_compute. reflexivity.
  - vm_compute. reflexivity.
  - vm_compute. lia.
  - exists self'. split; [exact Hrun |]. split.
    + rewrite Hrest. vm_compute. reflexivity.
    + rewrite Hrest. vm_compute. reflexivity.
Defined.

(** A record whose payload is a float is an envelope like any other, and
    the end message is compared with Python's [==]: the float [1.0] ends
    a run that waits for the integer [1]. *)
Lemma consume_all_reads_float_payloads :
  returned_value
    (DC.consume_all sample_now 2 payload_end
       (sample_consumer
          (List.map delivering
             (published [JFloat one_and_a_half; payload_end]))))
  = Some [sample_envelope (JFloat one_and_a_half)]
  /\ returned_value
       (DC.consume_all sample_now 1 (JInt 1)
          (sample_consumer
             (List.map delivering
                (published [JFloat float_one; payload_end]))))
     = Some [].
Proof. split; vm_compute; reflexivity. Qed.

(** ** The serialisation round trip *)

Unset Implicit Arguments.
Local Open Scope N_scope.

(** *** Numbers: what follows a number does not change how it is read *)

Lemma continues_number_digit rest :
  continues_number rest = false -> starts_with_digit rest = false.
Proof.
  destruct rest as [| c r]; [reflexivity |]. cbn.
  intros H. repeat (apply orb_false_elim in H; destruct H as [H ?]).
  exact H.
Qed.

Lemma scan_digits_app s rest :
  starts_with_digit rest = false ->
  scan_digits (s ++ rest)
  = (fst (scan_digits s), snd (scan_digits s) ++ rest).
Proof.
  intros Hr. induction s as [| c s IH]; cbn [app scan_digits].
  - destruct rest as [| c r]; [reflexivity |].
    cbn in Hr. cbn [scan_digits fst snd app]. rewrite Hr. reflexivity.
  - destruct (is_digit c); [| reflexivity].
    rewrite IH. destruct (scan_digits s). reflexivity.
Qed.

Lemma starts_with_digit_app s rest :
  starts_with_digit s = true -> starts_with_digit (s ++ rest) = true.
Proof. destruct s; [discriminate | exact (fun H => H)]. Qed.

Lemma scan_natural_app s rest u r :
  starts_with_digit rest = false ->
  scan_natural s = Some (u, r) ->
  scan_natural (s ++ rest) = Some (u, r ++ rest).
Proof.
  intros Hr. destruct s as [| c s]; [discriminate |].
  cbn [app scan_natural].
  destruct (c =? ch_zero).
  - intros H. inversion H. reflexivity.
  - destruct (is_digit c); [| discriminate].
    intros H.
    assert (H' : scan_digits (c :: s) = (u, r)) by congruence.
    change (c :: s ++ rest) with ((c :: s) ++ rest).
    rewrite (scan_digits_app _ _ Hr), H'. reflexivity.
Qed.

Lemma scan_integer_app s rest neg u r :
  starts_with_digit rest = false ->
  scan_integer s = Some (neg, u, r) ->
  scan_integer (s ++ rest) = Some (neg, u, r ++ rest).
Proof.
  intros Hr. destruct s as [| c s]; [discriminate |].
  cbn [app scan_integer].
  destruct (c =? ch_minus).
  - destruct (scan_natural s) as [[u' r'] |] eqn:E; [| discriminate].
    intros H. inversion H; subst.
    rewrite (scan_natural_app _ _ _ _ Hr E). reflexivity.
  - destruct (scan_natural (c :: s)) as [[u' r'] |] eqn:E; [| discriminate].
    intros H. inversion H; subst.
    change (c :: s ++ rest) with ((c :: s) ++ rest).
    rewrite (scan_natural_app _ _ _ _ Hr E). reflexivity.
Qed.

Lemma scan_frac_app s rest :
  continues_number rest = false ->
  scan_frac (s ++ rest) = (fst (scan_frac s), snd (scan_frac s) ++ rest).
Proof.
  intros Hc. pose proof (continues_number_digit _ Hc) as Hr.
  destruct s as [| c s]; cbn [app].
  - destruct rest as [| c r]; [reflexivity |].
    cbn in Hc. unfold scan_frac.
    repeat (apply orb_false_elim in Hc; destruct Hc as [Hc ?]).
    replace (c =? ch_dot) with false by congruence. reflexivity.
  - unfold scan_frac. destruct (c =? ch_dot); [| reflexivity].
    cbn [andb]. destruct (starts_with_digit s) eqn:Es.
    + rewrite (starts_with_digit_app _ _ Es), (scan_digits_app _ _ Hr).
      destruct (scan_digits s). reflexivity.
    + destruct s as [| d s]; cbn [app].
      * rewrite Hr. reflexivity.
      * cbn in Es. cbn [starts_with_digit]. rewrite Es. reflexivity.
Qed.

Lemma scan_exp_app s rest :
  continues_number rest = false ->
  scan_exp (s ++ rest) = (fst (scan_exp s), snd (scan_exp s) ++ rest).
Proof.
  intros Hc. pose proof (continues_number_digit _ Hc) as Hr.
  destruct s as [| c s]; cbn [app].
  - destruct rest as [| c r]; [reflexivity |].
    cbn in Hc. unfold scan_exp.
    repeat (apply orb_false_elim in Hc; destruct Hc as [Hc ?]).
    replace (c =? ch_e) with false by congruence.
    replace (c =? ch_E) with false by congruence. reflexivity.
  - unfold scan_exp. destruct ((c =? ch_e) || (c =? ch_E)); [| reflexivity].
    destruct s as [| sg s]; cbn [app].
    + destruct rest as [| d r]; [reflexivity |].
      cbn in Hc.
      repeat (apply orb_false_elim in Hc; destruct Hc as [Hc ?]).
      replace (d =? ch_plus) with false by congruence.
      replace (d =? ch_minus) with false by congruence.
      cbn [orb andb]. rewrite Hc. reflexivity.
    + destruct ((sg =? ch_plus) || (sg =? ch_minus)); cbn [andb].
      * destruct (starts_with_digit s) eqn:Es.
        -- rewrite (starts_with_digit_app _ _ Es), (scan_digits_app _ _ Hr).
           destruct (scan_digits s). reflexivity.
        -- assert (Es' : starts_with_digit (s ++ rest) = false).
           { destruct s; [exact Hr | exact Es]. }
           rewrite Es'.
           destruct (is_digit sg) eqn:Ed; [| reflexivity].
           change (sg :: s ++ rest) with ((sg :: s) ++ rest).
           rewrite (scan_digits_app _ _ Hr).
           destruct (scan_digits (sg :: s)). reflexivity.
      * destruct (is_digit sg) eqn:Ed; [| reflexivity].
        change (sg :: s ++ rest) with ((sg :: s) ++ rest).
        rewrite (scan_digits_app _ _ Hr).
        destruct (scan_digits (sg :: s)). reflexivity.
Qed.

(** A number is read the same whatever follows it, as long as what
    follows cannot be taken for a part of it. *)
Lemma scan_number_app s rest v r :
  continues_number rest = false ->
  scan_number s = Some (v, r) ->
  scan_number (s ++ rest) = Some (v, r ++ rest).
Proof.
  intros Hc. pose proof (continues_number_digit _ Hc) as Hr.
  unfold scan_number.
  destruct (scan_integer s) as [[[neg u] r1] |] eqn:E; [| discriminate].
  rewrite (scan_integer_app _ _ _ _ _ Hr E).
  rewrite (scan_frac_app _ _ Hc).
  destruct (scan_frac r1) as [frac r2]. cbn [fst snd].
  rewrite (scan_exp_app _ _ Hc).
  destruct (scan_exp r2) as [exp r3]. cbn [fst snd].
  destruct frac, exp; intros H; inversion H; reflexivity.
Qed.

(** *** Integers *)

Lemma scan_digits_uint_chars u rest :
  starts_with_digit rest = false ->
  scan_digits (uint_chars u ++ rest) = (u, rest).
Proof.
  intros Hr.
  induction u; cbn [uint_chars app scan_digits];
    try (change (is_digit (digit_char _)) with true; cbv iota;
         rewrite IHu; reflexivity).
  destruct rest as [| c r]; [reflexivity |].
  cbn in Hr. cbn [scan_digits]. rewrite Hr. reflexivity.
Qed.

Lemma unorm_head_zero d d' :
  Decimal.unorm d = Decimal.D0 d' -> d' = Decimal.Nil.
Proof.
  induction d; cbn; intros H; try discriminate; auto.
  inversion H. reflexivity.
Qed.

Lemma to_uint_no_leading_zero p u :
  Pos.to_uint p <> Decimal.D0 u.
Proof.
  intros H.
  assert (Hn : Decimal.unorm (Pos.to_uint p) = Pos.to_uint p).
  { rewrite <- (DecimalPos.Unsigned.to_of (Pos.to_uint p)), DecimalPos.Unsigned.of_to. reflexivity. }
  rewrite H in Hn.
  apply unorm_head_zero in Hn. subst u.
  exact (DecimalPos.Unsigned.to_uint_nonzero p H).
Qed.

Lemma scan_natural_to_uint p rest :
  starts_with_digit rest = false ->
  scan_natural (uint_chars (Pos.to_uint p) ++ rest)
  = Some (Pos.to_uint p, rest).
Proof.
  intros Hr.
  pose proof (@to_uint_no_leading_zero p) as Hz.
  pose proof (DecimalPos.Unsigned.to_uint_nonnil p) as Hn.
  pose proof (scan_digits_uint_chars (Pos.to_uint p) rest Hr) as Hs.
  destruct (Pos.to_uint p) as [| u | u | u | u | u | u | u | u | u | u ];
    try contradiction;
    try (exfalso; exact (Hz u eq_refl));
    cbn [uint_chars app scan_natural] in *;
    match goal with
    | |- context [?a =? ch_zero] =>
        change (a =? ch_zero) with false; change (is_digit a) with true
    end; cbv iota; rewrite Hs; reflexivity.
Qed.

(** The head of the digits of a positive number is a digit, and
    neither a zero nor a minus sign. *)
Lemma scan_natural_head c s u r :
  scan_natural (c :: s) = Some (u, r) ->
  is_digit c = true /\ (c =? ch_minus) = false.
Proof.
  unfold scan_natural.
  destruct (c =? ch_zero) eqn:E0.
  - apply N.eqb_eq in E0. subst c. intros _. split; reflexivity.
  - destruct (is_digit c) eqn:Ed; [| discriminate].
    intros _. split; [reflexivity |].
    unfold is_digit in Ed. apply andb_prop in Ed. destruct Ed as [Ed _].
    apply N.leb_le in Ed. apply N.eqb_neq. unfold ch_zero, ch_minus in *. lia.
Qed.

Lemma scan_integer_to_uint p rest :
  starts_with_digit rest = false ->
  scan_integer (uint_chars (Pos.to_uint p) ++ rest)
  = Some (false, Pos.to_uint p, rest).
Proof.
  intros Hr. pose proof (scan_natural_to_uint p rest Hr) as Hs.
  unfold scan_integer.
  destruct (uint_chars (Pos.to_uint p) ++ rest) as [| c s'] eqn:E;
    [discriminate |].
  destruct (scan_natural_head _ _ _ _ Hs) as [_ Hc].
  rewrite Hc, Hs. reflexivity.
Qed.

Lemma scan_frac_end : scan_frac [] = (None, []).
Proof. reflexivity. Qed.

Lemma scan_number_int_repr z :
  scan_number (int_repr z) = Some (JInt z, []).
Proof.
  unfold int_repr, scan_number.
  pose proof (DecimalZ.of_to z) as Hz.
  destruct z as [| p | p]; cbn [Z.to_int] in *.
  - reflexivity.
  - pose proof (scan_integer_to_uint p [] eq_refl) as Hs.
    rewrite app_nil_r in Hs. rewrite Hs.
    cbv beta iota delta [scan_frac scan_exp]. rewrite Hz. reflexivity.
  - pose proof (scan_natural_to_uint p [] eq_refl) as Hs.
    rewrite app_nil_r in Hs.
    cbn [scan_integer]. change (ch_minus =? ch_minus) with true. cbv iota.
    rewrite Hs. cbv beta iota delta [scan_frac scan_exp].
    rewrite Hz. reflexivity.
Qed.

Lemma scan_int_repr z rest :
  continues_number rest = false ->
  scan_number (int_repr z ++ rest) = Some (JInt z, rest).
Proof.
  intros Hc.
  exact (scan_number_app _ _ _ _ Hc (scan_number_int_repr z)).
Qed.

(** *** Floats *)

Lemma float_same_eq x y : float_same x y = true -> x = y.
Proof.
  destruct x as [s | s | | s m e], y as [s' | s' | | s' m' e'];
    cbn; try discriminate; try reflexivity.
  - intros H. apply Bool.eqb_prop in H. congruence.
  - intros H. apply Bool.eqb_prop in H. congruence.
  - intros H. apply andb_prop in H. destruct H as [H He].
    apply andb_prop in H. destruct H as [Hs Hm].
    apply Bool.eqb_prop in Hs. apply Pos.eqb_eq in Hm. apply Z.eqb_eq in He.
    congruence.
Qed.

(** A text that reads back as [x] is read as [x] wherever it stands. *)
Lemma reads_back_scans text x rest :
  reads_back text x = true ->
  continues_number rest = false ->
  scan_number (text ++ rest) = Some (JFloat x, rest).
Proof.
  unfold reads_back. intros H Hc.
  destruct (scan_number text) as [[[] r] |] eqn:E; try discriminate.
  destruct r; [| discriminate].
  apply float_same_eq in H. subst.
  exact (scan_number_app _ _ _ _ Hc E).
Qed.

Lemma nearest_binary64_sign s num den :
  nearest_binary64 s num den = with_sign s (nearest_binary64 false num den).
Proof.
  unfold nearest_binary64. cbv zeta.
  match goal with
  | |- match ?M with _ => _ end = _ => destruct M
  end; try reflexivity.
  match goal with
  | |- (if ?b then _ else _) = _ => destruct b
  end; reflexivity.
Qed.

Lemma float_of_literal_sign s u f ex :
  float_of_literal s u f ex = with_sign s (float_of_literal false u f ex).
Proof.
  unfold float_of_literal, float_of_decimal.
  destruct (0 <=? _)%Z; apply nearest_binary64_sign.
Qed.

(** The text of a negative float is a minus sign before the text of
    its absolute value. *)
Lemma scan_number_minus t m e r :
  scan_number t = Some (JFloat (SpecFloat.S754_finite false m e), r) ->
  scan_number (ch_minus :: t)
  = Some (JFloat (SpecFloat.S754_finite true m e), r).
Proof.
  unfold scan_number.
  destruct (scan_integer t) as [[[neg u] r1] |] eqn:E; [| discriminate].
  destruct t as [| c t']; [discriminate |].
  cbn [scan_integer] in *. change (ch_minus =? ch_minus) with true. cbv iota.
  destruct (c =? ch_minus) eqn:Ec.
  - (* a second minus sign: the text would read as a negative float *)
    destruct (scan_natural t') as [[u' r'] |]; [| discriminate].
    inversion E; subst.
    destruct (scan_frac r1) as [frac r2], (scan_exp r2) as [exp r3].
    rewrite float_of_literal_sign.
    destruct frac, exp; intros H; inversion H as [[Hx Hr]];
      match type of Hx with
      | with_sign true ?y = _ => destruct y; discriminate
      end.
  - destruct (scan_natural (c :: t')) as [[u' r'] |]; [| discriminate].
    inversion E; subst.
    destruct (scan_frac r1) as [frac r2], (scan_exp r2) as [exp r3].
    rewrite (float_of_literal_sign true), (float_of_literal_sign false).
    destruct frac, exp; intros H; inversion H as [[Hx Hr]];
      try (match type of Hx with
           | with_sign false ?y = _ =>
               destruct y; try discriminate; cbn in Hx |- *; congruence
           end).
Qed.

(** **** Reading the exact expansion of a float *)

Local Open Scope Z_scope.

Lemma digits2_log2 m :
  Zpos (SpecFloat.digits2_pos m) = Z.log2 (Zpos m) + 1.
Proof.
  induction m as [m IH | m IH |]; cbn [SpecFloat.digits2_pos]; [| | reflexivity].
  - rewrite Pos2Z.inj_succ, IH.
    change (Zpos m~1) with (2 * Zpos m + 1).
    rewrite Z.log2_succ_double by lia. lia.
  - rewrite Pos2Z.inj_succ, IH.
    change (Zpos m~0) with (2 * Zpos m).
    rewrite Z.log2_double by lia. lia.
Qed.

(** What [is_float] says of a finite float. *)
Lemma bounded_spec m e :
  SpecFloat.bounded 53 1024 m e = true ->
  Z.max (Z.log2 (Zpos m) + 1 + e - 53) (-1074) = e /\ e <= 971.
Proof.
  unfold SpecFloat.bounded, SpecFloat.canonical_mantissa, SpecFloat.fexp,
    SpecFloat.emin.
  intros H. apply andb_prop in H. destruct H as [Hc He].
  apply Z.eqb_eq in Hc. apply Z.leb_le in He.
  rewrite digits2_log2 in Hc. split; lia.
Qed.

(** Rounding the exact value of a float gives the float. *)
Lemma nearest_binary64_exact s m e num den :
  SpecFloat.bounded 53 1024 m e = true ->
  0 < den ->
  num * 2 ^ 1074 = Zpos m * 2 ^ (e + 1074) * den ->
  nearest_binary64 s num den = SpecFloat.S754_finite s m e.
Proof.
  intros Hb Hden Hv. apply bounded_spec in Hb. destruct Hb as [Hc He].
  assert (He0 : 0 <= e + 1074) by lia.
  assert (Hp : 0 < 2 ^ (e + 1074)) by (apply Z.pow_pos_nonneg; lia).
  unfold nearest_binary64. cbv zeta. rewrite Hv.
  rewrite Z.div_mul by lia.
  rewrite Z.log2_mul_pow2 by lia.
  replace (Z.max (e + 1074 + Z.log2 (Zpos m) - 52) 0) with (e + 1074) by lia.
  rewrite Z.div_mul by lia.
  assert (Hlt : 2 * (Zpos m * 2 ^ (e + 1074) * den)
                < (2 * Zpos m + 1) * 2 ^ (e + 1074) * den) by nia.
  apply Z.compare_lt_iff in Hlt. rewrite Hlt.
  assert (Hm : Zpos m < 2 ^ 53).
  { apply Z.log2_lt_pow2; lia. }
  replace (Zpos m =? 2 ^ 53) with false by (symmetry; apply Z.eqb_neq; lia).
  replace (e + 1074 - 1074) with e by lia.
  replace (e <=? 971) with true by (symmetry; apply Z.leb_le; lia).
  reflexivity.
Qed.

Local Open Scope Z_scope.
Lemma digits_of_pos p : digits_of (Zpos p) = uint_chars (Pos.to_uint p).
Proof. reflexivity. Qed.

Lemma of_uint_to_uint p : Z.of_uint (Pos.to_uint p) = Zpos p.
Proof. unfold Z.of_uint. rewrite DecimalPos.Unsigned.of_to. reflexivity. Qed.

Local Close Scope Z_scope.

Lemma uint_chars_head u :
  u <> Decimal.Nil ->
  exists c s, uint_chars u = c :: s /\ is_digit c = true.
Proof.
  destruct u; intros H; try contradiction; cbn [uint_chars];
    eexists; eexists; split; reflexivity.
Qed.

Lemma digits_of_head d :
  exists c s, digits_of d = c :: s /\ is_digit c = true.
Proof.
  unfold digits_of. destruct (Z.to_N d) as [| p].
  - eexists; eexists; split; reflexivity.
  - apply uint_chars_head, DecimalPos.Unsigned.to_uint_nonnil.
Qed.

(** **** Digits and their value *)

Lemma chars_after_app acc a b :
  chars_after acc (a ++ b) = chars_after (chars_after acc a) b.
Proof. apply fold_left_app. Qed.

Lemma chars_after_shift s : forall acc,
  chars_after acc s
  = (acc * 10 ^ Z.of_nat (List.length s) + chars_after 0 s)%Z.
Proof.
  induction s as [| c s IH]; intros acc.
  - cbn. lia.
  - change (chars_after acc (c :: s))
      with (chars_after (10 * acc + Z.of_N (c - ch_zero))%Z s).
    change (chars_after 0 (c :: s))
      with (chars_after (10 * 0 + Z.of_N (c - ch_zero))%Z s).
    rewrite (IH (10 * acc + Z.of_N (c - ch_zero))%Z).
    rewrite (IH (10 * 0 + Z.of_N (c - ch_zero))%Z).
    cbn [List.length]. rewrite Nat2Z.inj_succ, Z.pow_succ_r by lia. ring.
Qed.

Lemma chars_after_zeros n : forall acc,
  chars_after acc (repeat ch_zero n) = (acc * 10 ^ Z.of_nat n)%Z.
Proof.
  induction n as [| n IH]; intros acc.
  - cbn. lia.
  - cbn [repeat].
    change (chars_after acc (ch_zero :: repeat ch_zero n))
      with (chars_after (10 * acc + 0)%Z (repeat ch_zero n)).
    rewrite IH, Nat2Z.inj_succ, Z.pow_succ_r by lia. ring.
Qed.

Lemma digit_range c : is_digit c = true -> 48 <= c /\ c <= 57.
Proof.
  unfold is_digit, ch_zero. rewrite andb_true_iff, !N.leb_le. lia.
Qed.

Lemma digit_cases c :
  is_digit c = true ->
  c = 48 \/ c = 49 \/ c = 50 \/ c = 51 \/ c = 52 \/ c = 53 \/ c = 54
  \/ c = 55 \/ c = 56 \/ c = 57.
Proof.
  unfold is_digit, ch_zero. rewrite andb_true_iff, !N.leb_le. lia.
Qed.

Lemma digits_after_cons c u acc :
  is_digit c = true ->
  digits_after acc (uint_cons c u)
  = digits_after (10 * acc + Z.of_N (c - ch_zero))%Z u
  /\ Decimal.nb_digits (uint_cons c u) = S (Decimal.nb_digits u).
Proof.
  intros H. apply digit_cases in H.
  repeat (destruct H as [-> | H]); try subst c;
    (split; [cbn; f_equal; lia | reflexivity]).
Qed.

(** The digits the scanner takes from a run of digit characters. *)
Lemma scan_digits_all s :
  all_digits s = true ->
  snd (scan_digits s) = []
  /\ Decimal.nb_digits (fst (scan_digits s)) = List.length s
  /\ forall acc, digits_after acc (fst (scan_digits s)) = chars_after acc s.
Proof.
  induction s as [| c s IH]; [repeat split |].
  cbn [all_digits forallb]. intros H. apply andb_prop in H.
  destruct H as [Hc Hs]. destruct (IH Hs) as [H1 [H2 H3]].
  cbn [scan_digits]. rewrite Hc.
  destruct (scan_digits s) as [u r]. cbn [fst snd] in *.
  split; [exact H1 |].
  destruct (digits_after_cons c u 0 Hc) as [_ Hn].
  split; [rewrite Hn, H2; reflexivity |].
  intros acc. destruct (digits_after_cons c u acc Hc) as [Hv _].
  rewrite Hv, H3. reflexivity.
Qed.

Lemma scan_digits_run s rest :
  all_digits s = true ->
  starts_with_digit rest = false ->
  scan_digits (s ++ rest) = (fst (scan_digits s), rest).
Proof.
  intros Hs Hr. rewrite (scan_digits_app _ _ Hr).
  rewrite (proj1 (scan_digits_all s Hs)). reflexivity.
Qed.

Lemma all_digits_app a b : all_digits (a ++ b) = all_digits a && all_digits b.
Proof. apply forallb_app. Qed.

Lemma all_digits_uint_chars u : all_digits (uint_chars u) = true.
Proof. induction u; cbn [uint_chars]; try reflexivity; exact IHu. Qed.

Lemma all_digits_zeros n : all_digits (repeat ch_zero n) = true.
Proof. induction n as [| n IH]; [reflexivity | exact IH]. Qed.

Lemma all_digits_firstn n : forall s,
  all_digits s = true -> all_digits (firstn n s) = true.
Proof.
  induction n as [| n IH]; intros [| c s]; try reflexivity.
  cbn. intros H. apply andb_prop in H. destruct H as [Hc Hs].
  rewrite Hc. exact (IH s Hs).
Qed.

Lemma all_digits_skipn n : forall s,
  all_digits s = true -> all_digits (skipn n s) = true.
Proof.
  induction n as [| n IH]; intros [| c s]; try reflexivity.
  - exact (fun H => H).
  - cbn. intros H. apply andb_prop in H. exact (IH s (proj2 H)).
Qed.

(** The value of the digits of a numeral is its number. *)
Lemma digits_after_of_uint_acc u : forall acc,
  digits_after (Zpos acc) u = Zpos (Pos.of_uint_acc u acc).
Proof.
  induction u; intros acc; cbn [digits_after Pos.of_uint_acc];
    try reflexivity; rewrite <- IHu; f_equal; lia.
Qed.

Lemma digits_after_of_uint u : digits_after 0 u = Z.of_uint u.
Proof.
  unfold Z.of_uint.
  induction u; cbn [digits_after Pos.of_uint]; try reflexivity;
    try exact IHu;
    match goal with
    | |- digits_after ?a _ = _ =>
        change a with (Zpos 1) || change a with (Zpos 2)
        || change a with (Zpos 3) || change a with (Zpos 4)
        || change a with (Zpos 5) || change a with (Zpos 6)
        || change a with (Zpos 7) || change a with (Zpos 8)
        || change a with (Zpos 9)
    end; rewrite digits_after_of_uint_acc; reflexivity.
Qed.

Lemma chars_after_uint_chars u acc :
  chars_after acc (uint_chars u) = digits_after acc u.
Proof.
  pose proof (scan_digits_all (uint_chars u) (all_digits_uint_chars u))
    as [_ [_ H]].
  rewrite <- H.
  pose proof (scan_digits_uint_chars u [] eq_refl) as Hs.
  rewrite app_nil_r in Hs. rewrite Hs. reflexivity.
Qed.

Lemma digits_of_value p : chars_after 0 (digits_of (Zpos p)) = Zpos p.
Proof.
  rewrite digits_of_pos, chars_after_uint_chars, digits_after_of_uint.
  apply of_uint_to_uint.
Qed.

Lemma digits_of_abs x : chars_after 0 (digits_of x) = Z.max x 0.
Proof.
  destruct x as [| p | p]; [reflexivity | | reflexivity].
  rewrite digits_of_value. lia.
Qed.

(** **** The significant digits of a number *)

Lemma strip_zeros_spec t :
  exists z, t = repeat ch_zero z ++ strip_zeros t.
Proof.
  induction t as [| c t [z IH]]; [exists 0%nat; reflexivity |].
  cbn [strip_zeros]. destruct (N.eqb_spec c ch_zero) as [-> | Hc].
  - exists (S z). cbn [repeat app]. rewrite <- IH. reflexivity.
  - exists 0%nat. reflexivity.
Qed.

Lemma strip_zeros_last a c :
  c <> ch_zero -> strip_zeros (a ++ [c]) = strip_zeros a ++ [c].
Proof.
  intros Hc. induction a as [| d a IH]; cbn [app strip_zeros].
  - destruct (N.eqb_spec c ch_zero); [contradiction | reflexivity].
  - destruct (d =? ch_zero); [exact IH | reflexivity].
Qed.

Lemma rev_zeros z : rev (repeat ch_zero z) = repeat ch_zero z.
Proof.
  induction z as [| z IH]; [reflexivity |].
  cbn [repeat rev]. rewrite IH.
  clear IH. induction z as [| z IH]; [reflexivity |].
  cbn [repeat app]. rewrite IH. reflexivity.
Qed.

Lemma all_digits_rev s : all_digits s = true -> all_digits (rev s) = true.
Proof.
  unfold all_digits. rewrite !forallb_forall. intros H c Hc.
  apply H, in_rev. exact Hc.
Qed.

(** The digits of a positive number: a digit that is not zero, then
    the other significant digits, then the trailing zeros. *)
Lemma significant_spec p :
  exists c sig z,
    digits_of (Zpos p) = c :: sig ++ repeat ch_zero z
    /\ significant (Zpos p) = c :: sig
    /\ is_digit c = true /\ c <> ch_zero
    /\ all_digits sig = true.
Proof.
  unfold significant. rewrite digits_of_pos.
  pose proof (all_digits_uint_chars (Pos.to_uint p)) as Hall.
  pose proof (@to_uint_no_leading_zero p) as Hz.
  pose proof (DecimalPos.Unsigned.to_uint_nonnil p) as Hn.
  destruct (uint_chars (Pos.to_uint p)) as [| c r] eqn:E.
  { destruct (Pos.to_uint p); try contradiction; discriminate. }
  assert (Hc : c <> ch_zero).
  { intros ->. destruct (Pos.to_uint p); try discriminate.
    exact (Hz _ eq_refl). }
  cbn [all_digits forallb] in Hall. apply andb_prop in Hall.
  destruct Hall as [Hd Hr].
  cbn [rev]. rewrite (strip_zeros_last _ _ Hc), rev_app_distr. cbn [rev app].
  destruct (strip_zeros_spec (rev r)) as [z Hs].
  exists c, (rev (strip_zeros (rev r))), z.
  split; [| split; [reflexivity | split; [exact Hd | split; [exact Hc |]]]].
  - f_equal. rewrite <- (rev_involutive r) at 1. rewrite Hs at 1.
    rewrite rev_app_distr, rev_zeros. reflexivity.
  - apply all_digits_rev.
    pose proof (all_digits_rev r Hr) as Hrr. rewrite Hs in Hrr.
    rewrite all_digits_app in Hrr. apply andb_prop in Hrr. apply Hrr.
Qed.

(** **** The parts of the number pattern on runs of digits *)

Lemma digit_not_minus c : is_digit c = true -> (c =? ch_minus) = false.
Proof.
  intros H. apply digit_range in H. apply N.eqb_neq.
  unfold ch_minus. lia.
Qed.

(** An integer part: digits that do not start with a zero. *)
Lemma scan_integer_run c s rest :
  is_digit c = true -> c <> ch_zero -> all_digits s = true ->
  starts_with_digit rest = false ->
  scan_integer (c :: s ++ rest)
  = Some (false, fst (scan_digits (c :: s)), rest).
Proof.
  intros Hc Hz Hs Hr. unfold scan_integer, scan_natural.
  rewrite (digit_not_minus c Hc).
  destruct (N.eqb_spec c ch_zero); [contradiction |]. rewrite Hc.
  change (c :: s ++ rest) with ((c :: s) ++ rest).
  rewrite scan_digits_run; [reflexivity | | exact Hr].
  cbn [all_digits forallb]. rewrite Hc. exact Hs.
Qed.

(** A fraction: a point and digits. *)
Lemma scan_frac_run c s rest :
  all_digits (c :: s) = true ->
  starts_with_digit rest = false ->
  scan_frac (ch_dot :: (c :: s) ++ rest)
  = (Some (fst (scan_digits (c :: s))), rest).
Proof.
  intros Hs Hr. unfold scan_frac.
  change (ch_dot =? ch_dot) with true.
  assert (Hc : is_digit c = true).
  { cbn [all_digits forallb] in Hs. apply andb_prop in Hs. apply Hs. }
  cbn [app starts_with_digit andb]. rewrite Hc.
  change (c :: s ++ rest) with ((c :: s) ++ rest).
  rewrite scan_digits_run by assumption. reflexivity.
Qed.

Lemma digits_of_all d : all_digits (digits_of d) = true.
Proof. apply all_digits_uint_chars. Qed.

Lemma of_uint_scan_digits s :
  all_digits s = true ->
  Z.of_uint (fst (scan_digits s)) = chars_after 0 s.
Proof.
  intros H. rewrite <- digits_after_of_uint.
  apply (proj2 (proj2 (scan_digits_all s H))).
Qed.

(** The exponent [repr] prints is read by the exponent part of the
    number pattern. *)
Lemma scan_exp_exponent_chars x :
  scan_exp (ch_e :: exponent_chars x) = (Some x, []).
Proof.
  unfold exponent_chars.
  set (pad := if (Z.abs x <? 10)%Z then [ch_zero] else []).
  assert (Hall : all_digits (pad ++ digits_of (Z.abs x)) = true).
  { rewrite all_digits_app, digits_of_all. subst pad.
    destruct (Z.abs x <? 10)%Z; reflexivity. }
  assert (Hhead : starts_with_digit (pad ++ digits_of (Z.abs x)) = true).
  { subst pad. destruct (Z.abs x <? 10)%Z; [reflexivity |].
    destruct (digits_of_head (Z.abs x)) as [c [s [E Hc]]].
    rewrite E. exact Hc. }
  assert (Hval : Z.of_uint (fst (scan_digits (pad ++ digits_of (Z.abs x))))
                 = Z.abs x).
  { rewrite (of_uint_scan_digits _ Hall), chars_after_app.
    replace (chars_after 0 pad) with 0%Z
      by (subst pad; destruct (Z.abs x <? 10)%Z; reflexivity).
    rewrite digits_of_abs. lia. }
  pose proof (proj1 (scan_digits_all _ Hall)) as Hend.
  unfold scan_exp.
  change ((ch_e =? ch_e) || (ch_e =? ch_E)) with true. cbv iota.
  destruct (Z.ltb_spec x 0) as [Hx | Hx].
  - change ((ch_minus =? ch_plus) || (ch_minus =? ch_minus)) with true.
    rewrite Hhead. cbn [andb].
    destruct (scan_digits (pad ++ digits_of (Z.abs x))) as [u r].
    cbn [fst snd] in *. subst r.
    change (ch_minus =? ch_minus) with true. cbv iota.
    rewrite Hval. f_equal. f_equal. lia.
  - change ((ch_plus =? ch_plus) || (ch_plus =? ch_minus)) with true.
    rewrite Hhead. cbn [andb].
    destruct (scan_digits (pad ++ digits_of (Z.abs x))) as [u r].
    cbn [fst snd] in *. subst r.
    change (ch_plus =? ch_minus) with false. cbv iota.
    rewrite Hval. f_equal. f_equal. lia.
Qed.

(** **** The layouts of [repr] under the number pattern *)

Lemma scan_number_parts text neg u r1 frac r2 ex r3 :
  scan_integer text = Some (neg, u, r1) ->
  scan_frac r1 = (frac, r2) ->
  scan_exp r2 = (ex, r3) ->
  (frac = None -> ex = None -> False) ->
  scan_number text
  = Some (JFloat
            (float_of_literal neg u
               (match frac with Some f => f | None => Decimal.Nil end)
               (match ex with Some x => x | None => 0%Z end)), r3).
Proof.
  intros H1 H2 H3 H. unfold scan_number. rewrite H1, H2, H3.
  destruct frac, ex; try reflexivity. exfalso. auto.
Qed.

Lemma scan_frac_digits s rest :
  s <> [] -> all_digits s = true -> starts_with_digit rest = false ->
  scan_frac (ch_dot :: s ++ rest) = (Some (fst (scan_digits s)), rest).
Proof.
  destruct s as [| c s]; [contradiction |].
  intros _. apply scan_frac_run.
Qed.

Lemma all_digits_cons c s :
  is_digit c = true -> all_digits s = true -> all_digits (c :: s) = true.
Proof. intros Hc Hs. cbn [all_digits forallb]. rewrite Hc. exact Hs. Qed.

(** One digit, the others after a point, and an exponent. *)
Lemma scans_exponent_layout c sig x :
  is_digit c = true -> c <> ch_zero -> all_digits sig = true ->
  scan_number
    (c :: match sig with [] => [] | _ :: _ => ch_dot :: sig end
     ++ ch_e :: exponent_chars x)
  = Some (JFloat (float_of_decimal false (chars_after 0 (c :: sig))
                    (x - Z.of_nat (List.length sig))), []).
Proof.
  intros Hc Hz Hs.
  pose proof (scan_digits_all [c] (all_digits_cons c [] Hc eq_refl))
    as [_ [_ Hv]].
  destruct sig as [| d t].
  - pose proof (scan_integer_run c [] (ch_e :: exponent_chars x)
                  Hc Hz eq_refl eq_refl) as H1.
    cbn [app] in H1 |- *.
    rewrite (scan_number_parts _ _ _ _ None _ _ _ H1 eq_refl
               (scan_exp_exponent_chars x)) by discriminate.
    unfold float_of_literal. cbn [digits_after]. rewrite Hv. reflexivity.
  - pose proof (scan_integer_run c []
                  (ch_dot :: (d :: t) ++ ch_e :: exponent_chars x)
                  Hc Hz eq_refl eq_refl) as H1.
    pose proof (scan_frac_run d t (ch_e :: exponent_chars x) Hs eq_refl)
      as H2.
    cbn [app] in H1 |- *.
    rewrite (scan_number_parts _ _ _ _ _ _ _ _ H1 H2
               (scan_exp_exponent_chars x)) by discriminate.
    unfold float_of_literal.
    pose proof (scan_digits_all (d :: t) Hs) as [_ [Hn Hw]].
    rewrite Hn, Hw, Hv.
    change (c :: d :: t) with ([c] ++ d :: t).
    rewrite chars_after_app. reflexivity.
Qed.

(** A zero, a point, zeros and the digits. *)
Lemma scans_leading_zeros j c sig :
  is_digit c = true -> all_digits sig = true ->
  scan_number (ch_zero :: ch_dot :: repeat ch_zero j ++ c :: sig)
  = Some (JFloat (float_of_decimal false (chars_after 0 (c :: sig))
                    (- Z.of_nat (j + List.length (c :: sig)))), []).
Proof.
  intros Hc Hs.
  assert (Hall : all_digits (repeat ch_zero j ++ c :: sig) = true).
  { rewrite all_digits_app, all_digits_zeros, (all_digits_cons c sig Hc Hs).
    reflexivity. }
  assert (Hne : repeat ch_zero j ++ c :: sig <> []).
  { destruct j; discriminate. }
  pose proof (scan_frac_digits _ [] Hne Hall eq_refl) as H2.
  rewrite app_nil_r in H2.
  rewrite (scan_number_parts
             (ch_zero :: ch_dot :: repeat ch_zero j ++ c :: sig) false
             (Decimal.D0 Decimal.Nil) _ _ _ None [] eq_refl H2 eq_refl)
    by discriminate.
  unfold float_of_literal.
  pose proof (scan_digits_all _ Hall) as [_ [Hn Hw]].
  rewrite Hn, Hw.
  change (digits_after 0 (Decimal.D0 Decimal.Nil)) with (10 * 0)%Z.
  rewrite chars_after_app, chars_after_zeros, length_app, repeat_length.
  replace (10 * 0 * 10 ^ Z.of_nat j)%Z with 0%Z by lia.
  f_equal.
Qed.

(** The point among the digits. *)
Lemma scans_point_inside i c sig :
  is_digit c = true -> c <> ch_zero -> all_digits sig = true ->
  (i < List.length sig)%nat ->
  scan_number (c :: firstn i sig ++ ch_dot :: skipn i sig)
  = Some (JFloat (float_of_decimal false (chars_after 0 (c :: sig))
                    (- Z.of_nat (List.length sig - i))), []).
Proof.
  intros Hc Hz Hs Hi.
  assert (Hf : all_digits (firstn i sig) = true)
    by (apply all_digits_firstn, Hs).
  assert (Hk : all_digits (skipn i sig) = true)
    by (apply all_digits_skipn, Hs).
  assert (Hne : skipn i sig <> []).
  { intros E. apply (f_equal (@List.length N)) in E.
    rewrite length_skipn in E. cbn in E. lia. }
  pose proof (scan_integer_run c (firstn i sig) (ch_dot :: skipn i sig)
                Hc Hz Hf eq_refl) as H1.
  pose proof (scan_frac_digits _ [] Hne Hk eq_refl) as H2.
  rewrite app_nil_r in H2.
  rewrite (scan_number_parts _ _ _ _ _ _ None [] H1 H2 eq_refl)
    by discriminate.
  unfold float_of_literal.
  pose proof (scan_digits_all _ Hk) as [_ [Hn Hw]].
  pose proof (scan_digits_all _ (all_digits_cons c _ Hc Hf)) as [_ [_ Hv]].
  rewrite Hn, Hw, Hv, <- chars_after_app, length_skipn.
  change ((c :: firstn i sig) ++ skipn i sig)
    with (c :: firstn i sig ++ skipn i sig).
  rewrite firstn_skipn. f_equal.
Qed.

(** The digits, zeros, a point and a zero. *)
Lemma scans_trailing_zeros j c sig :
  is_digit c = true -> c <> ch_zero -> all_digits sig = true ->
  scan_number (c :: sig ++ repeat ch_zero j ++ [ch_dot; ch_zero])
  = Some (JFloat (float_of_decimal false
                    (chars_after 0 (c :: sig) * 10 ^ (Z.of_nat j + 1))
                    (-1)), []).
Proof.
  intros Hc Hz Hs.
  assert (Hall : all_digits (sig ++ repeat ch_zero j) = true).
  { rewrite all_digits_app, Hs, all_digits_zeros. reflexivity. }
  pose proof (scan_integer_run c (sig ++ repeat ch_zero j)
                [ch_dot; ch_zero] Hc Hz Hall eq_refl) as H1.
  rewrite <- app_assoc in H1.
  rewrite (scan_number_parts _ _ _ _ (Some (Decimal.D0 Decimal.Nil)) []
             None [] H1 eq_refl eq_refl) by discriminate.
  unfold float_of_literal.
  pose proof (scan_digits_all _ (all_digits_cons c _ Hc Hall)) as [_ [_ Hv]].
  cbn [digits_after]. rewrite Hv.
  change (c :: sig ++ repeat ch_zero j)
    with ((c :: sig) ++ repeat ch_zero j).
  rewrite chars_after_app, chars_after_zeros.
  change (Z.of_nat (Decimal.nb_digits (Decimal.D0 Decimal.Nil))) with 1%Z.
  rewrite Z.pow_add_r by lia. change (10 ^ 1)%Z with 10%Z.
  replace (10 * (chars_after 0 (c :: sig) * 10 ^ Z.of_nat j))%Z
    with (chars_after 0 (c :: sig) * (10 ^ Z.of_nat j * 10))%Z by ring.
  reflexivity.
Qed.

(** **** The exact decimal of a float reads back as the float *)

Local Open Scope Z_scope.

Lemma nearest_exact_ratio s m e a b :
  SpecFloat.bounded 53 1024 m e = true ->
  0 < b ->
  a * denominator e = numerator m e * b ->
  nearest_binary64 s a b = SpecFloat.S754_finite s m e.
Proof.
  intros Hb Hpos Hv. apply (nearest_binary64_exact s m e a b Hb Hpos).
  pose proof (bounded_spec m e Hb) as [Hc He].
  unfold numerator, denominator in Hv.
  destruct (Z.leb_spec 0 e) as [H0 | H0].
  - rewrite Z.pow_add_r by lia. rewrite Z.mul_1_r in Hv. rewrite Hv. ring.
  - replace 1074 with (- e + (e + 1074)) at 1 by lia.
    rewrite Z.pow_add_r by lia.
    transitivity (a * 2 ^ (- e) * 2 ^ (e + 1074)); [ring |].
    rewrite Hv. ring.
Qed.

Lemma float_of_decimal_exact m e a k :
  SpecFloat.bounded 53 1024 m e = true ->
  (if 0 <=? k then a * 10 ^ k * denominator e = numerator m e
   else a * denominator e = numerator m e * 10 ^ (- k)) ->
  float_of_decimal false a k = SpecFloat.S754_finite false m e.
Proof.
  intros Hb. unfold float_of_decimal.
  destruct (Z.leb_spec 0 k) as [Hk | Hk]; intros Hv.
  - apply (nearest_exact_ratio false m e _ 1 Hb); lia.
  - apply (nearest_exact_ratio false m e _ _ Hb); [| exact Hv].
    apply Z.pow_pos_nonneg; lia.
Qed.

Lemma float_same_refl x : float_same x x = true.
Proof.
  destruct x as [s | s | | s m e]; cbn [float_same];
    rewrite ?Bool.eqb_reflx, ?Pos.eqb_refl, ?Z.eqb_refl; reflexivity.
Qed.

(** How [repr] lays out the digits of [p] with the last of them at the
    power [k] of ten. *)
Lemma decimal_text_scans p k :
  exists c sig z a k2,
    digits_of (Zpos p) = c :: sig ++ repeat ch_zero z
    /\ scan_number (decimal_text (Zpos p) k)
       = Some (JFloat (float_of_decimal false a k2), [])
    /\ ((a = chars_after 0 (c :: sig) /\ k2 = Z.of_nat z + k)
        \/ (0 <= Z.of_nat z + k
            /\ a = chars_after 0 (c :: sig) * 10 ^ (Z.of_nat z + k + 1)
            /\ k2 = -1)).
Proof.
  destruct (significant_spec p) as [c [sig [z [Hd [Hsig [Hc [Hz Hs]]]]]]].
  exists c, sig, z.
  unfold decimal_text. rewrite Hsig, Hd. unfold format_short.
  cbn [List.length]. rewrite length_app, repeat_length.
  set (decpt := Z.of_nat (S (List.length sig + z)) + k).
  destruct ((decpt <=? -4) || (16 <? decpt)).
  - eexists; eexists; split; [reflexivity |].
    split; [apply scans_exponent_layout; assumption |].
    left. split; [reflexivity | lia].
  - destruct (Z.leb_spec decpt 0) as [H0 | H0].
    + eexists; eexists; split; [reflexivity |].
      split; [apply scans_leading_zeros; assumption |].
      left. split; [reflexivity |]. cbn [List.length]. lia.
    + destruct (Z.ltb_spec decpt (Z.of_nat (S (List.length sig)))) as [H1 | H1].
      * destruct (Z.to_nat decpt) as [| i] eqn:Ei; [lia |].
        cbn [firstn skipn app].
        eexists; eexists; split; [reflexivity |].
        split; [apply scans_point_inside; try assumption; lia |].
        left. split; [reflexivity | lia].
      * eexists; eexists; split; [reflexivity |].
        cbn [app].
        split; [apply scans_trailing_zeros; assumption |].
        right. split; [lia |]. split; [| reflexivity].
        f_equal. f_equal. lia.
Qed.

(** The text of the exact decimal of a float reads back as the
    float. *)
Lemma exact_decimal_reads_back m e p k :
  SpecFloat.bounded 53 1024 m e = true ->
  k <= 0 ->
  Zpos p * denominator e = numerator m e * 10 ^ (- k) ->
  reads_back (decimal_text (Zpos p) k) (SpecFloat.S754_finite false m e)
  = true.
Proof.
  intros Hb Hk Hv.
  destruct (decimal_text_scans p k) as [c [sig [z [a [k2 [Hd [Hscan Hcase]]]]]]].
  assert (HV : Zpos p = chars_after 0 (c :: sig) * 10 ^ Z.of_nat z).
  { rewrite <- (digits_of_value p), Hd.
    change (c :: sig ++ repeat ch_zero z)
      with ((c :: sig) ++ repeat ch_zero z).
    rewrite chars_after_app, chars_after_zeros. reflexivity. }
  rewrite HV in Hv. clear HV Hd.
  set (V := chars_after 0 (c :: sig)) in *. clearbody V.
  set (den := denominator e) in *. set (num := numerator m e) in *.
  unfold reads_back. rewrite Hscan.
  rewrite (float_of_decimal_exact m e a k2 Hb); [apply float_same_refl |].
  fold den num.
  assert (Hp : 0 < 10 ^ (- k)) by (apply Z.pow_pos_nonneg; lia).
  assert (Hz : 0 < 10 ^ Z.of_nat z) by (apply Z.pow_pos_nonneg; lia).
  assert (Hup : 0 <= Z.of_nat z + k ->
                V * 10 ^ (Z.of_nat z + k) * den = num).
  { intros H. apply (Z.mul_reg_r _ _ (10 ^ (- k))); [lia |].
    rewrite <- Hv.
    replace (Z.of_nat z) with (Z.of_nat z + k + - k) at 2 by lia.
    rewrite (Z.pow_add_r 10 (Z.of_nat z + k) (- k)) by lia. ring. }
  destruct Hcase as [[-> ->] | [H0 [-> ->]]].
  - destruct (Z.leb_spec 0 (Z.of_nat z + k)) as [H | H]; [exact (Hup H) |].
    apply (Z.mul_reg_r _ _ (10 ^ Z.of_nat z)); [lia |].
    transitivity (num * 10 ^ (- k)); [rewrite <- Hv; ring |].
    replace (- k) with (- (Z.of_nat z + k) + Z.of_nat z) at 1 by lia.
    rewrite (Z.pow_add_r 10 (- (Z.of_nat z + k)) (Z.of_nat z)) by lia. ring.
  - change (0 <=? -1) with false. cbv iota.
    change (10 ^ (- -1)) with 10.
    rewrite (Z.pow_add_r 10 (Z.of_nat z + k) 1) by lia.
    change (10 ^ 1) with 10.
    rewrite <- (Hup H0). ring.
Qed.

(** At the last step of the search the decimal is the exact one. *)
Lemma last_candidate m e :
  exists p,
    floor_scaled (numerator m e) (denominator e) (last_exponent m e)
    = Zpos p
    /\ nearer_low (numerator m e) (denominator e) (last_exponent m e)
         (Zpos p) = true
    /\ last_exponent m e <= 0
    /\ Zpos p * denominator e
       = numerator m e * 10 ^ (- last_exponent m e).
Proof.
  assert (Hk : last_exponent m e <= e /\ last_exponent m e <= 0).
  { unfold last_exponent.
    pose proof (Z.le_min_l (Z.min e 0)
                  (decimal_exponent (numerator m e) (denominator e))).
    lia. }
  set (k := last_exponent m e) in *. clearbody k.
  assert (Hnum : 0 < numerator m e).
  { unfold numerator. destruct (0 <=? e) eqn:E; [| lia].
    apply Z.leb_le in E.
    assert (0 < 2 ^ e) by (apply Z.pow_pos_nonneg; lia). nia. }
  assert (Hq : exists q, 0 < q /\ 10 ^ (- k) = q * denominator e).
  { unfold denominator. destruct (Z.leb_spec 0 e) as [H | H].
    - exists (10 ^ (- k)). split; [apply Z.pow_pos_nonneg; lia | ring].
    - exists (2 ^ (- k + e) * 5 ^ (- k)).
      split.
      + assert (0 < 2 ^ (- k + e)) by (apply Z.pow_pos_nonneg; lia).
        assert (0 < 5 ^ (- k)) by (apply Z.pow_pos_nonneg; lia). nia.
      + change 10 with (2 * 5). rewrite Z.pow_mul_l.
        replace (- k) with (- k + e + - e) at 1 by lia.
        rewrite Z.pow_add_r by lia. ring. }
  destruct Hq as [q [Hq Hten]].
  assert (Hden : 0 < denominator e).
  { unfold denominator. destruct (Z.leb_spec 0 e); [lia |].
    apply Z.pow_pos_nonneg; lia. }
  set (den := denominator e) in *. set (num := numerator m e) in *.
  clearbody den num.
  assert (Hlo : floor_scaled num den k = num * q).
  { unfold floor_scaled. destruct (Z.leb_spec 0 k) as [H | H].
    - replace k with 0 in * by lia. change (10 ^ (- 0)) with 1 in Hten.
      change (10 ^ 0) with 1.
      assert (q = 1 /\ den = 1) as [-> ->] by nia.
      rewrite !Z.mul_1_r. apply Z.div_1_r.
    - rewrite Hten, Z.mul_assoc. apply Z.div_mul. lia. }
  destruct (num * q) as [| p | p] eqn:Ep; [nia | | nia].
  exists p. split; [exact Hlo |].
  split; [| split; [lia | rewrite Hten, <- Ep; ring]].
  unfold nearer_low.
  assert (Hlt : 2 * num * 10 ^ (- k) < (2 * Zpos p + 1) * den).
  { rewrite Hten, <- Ep. nia. }
  destruct (Z.leb_spec 0 k) as [H | H].
  - replace k with 0 in * by lia. change (10 ^ (- 0)) with 1 in Hlt.
    change (10 ^ 0) with 1.
    assert (Hc : 2 * num < (2 * Zpos p + 1) * 1 * den) by lia.
    apply Z.compare_lt_iff in Hc. rewrite Hc. reflexivity.
  - apply Z.compare_lt_iff in Hlt. rewrite Hlt. reflexivity.
Qed.

Local Close Scope Z_scope.

(** What the search of [repr] finds reads back as the float. *)
Lemma shortest_reads_back fuel : forall n num den e10 x text,
  shortest fuel n num den e10 x = Some text ->
  reads_back text x = true.
Proof.
  induction fuel as [| fuel IH]; intros n num den e10 x text; [discriminate |].
  cbn [shortest]. cbv zeta.
  set (k := (e10 - (n - 1))%Z).
  set (lo := floor_scaled num den k).
  set (first := if nearer_low num den k lo then lo else (lo + 1)%Z).
  set (second := if nearer_low num den k lo then (lo + 1)%Z else lo).
  destruct (reads_back (decimal_text first k) x) eqn:E1.
  - intros H. inversion H; subst. exact E1.
  - destruct (reads_back (decimal_text second k) x) eqn:E2.
    + intros H. inversion H; subst. exact E2.
    + apply IH.
Qed.

(** The search ends by the step whose nearer decimal reads back. *)
Lemma shortest_finds fuel : forall n num den e10 x,
  nearer_low num den (e10 - (n + Z.of_nat fuel - 1))
    (floor_scaled num den (e10 - (n + Z.of_nat fuel - 1))) = true ->
  reads_back
    (decimal_text (floor_scaled num den (e10 - (n + Z.of_nat fuel - 1)))
       (e10 - (n + Z.of_nat fuel - 1))) x = true ->
  exists text, shortest (S fuel) n num den e10 x = Some text.
Proof.
  induction fuel as [| fuel IH]; intros n num den e10 x Hn Hr.
  - replace (n + Z.of_nat 0 - 1)%Z with (n - 1)%Z in * by lia.
    cbn [shortest]. cbv zeta. rewrite Hn, Hr. eexists. reflexivity.
  - replace (n + Z.of_nat (S fuel) - 1)%Z
      with (n + 1 + Z.of_nat fuel - 1)%Z in * by lia.
    destruct (IH (n + 1)%Z num den e10 x Hn Hr) as [text Ht].
    change (shortest (S (S fuel)) n num den e10 x)
      with (let k := (e10 - (n - 1))%Z in
            let lo := floor_scaled num den k in
            let first := if nearer_low num den k lo then lo else (lo + 1)%Z in
            let second := if nearer_low num den k lo then (lo + 1)%Z else lo in
            if reads_back (decimal_text first k) x
            then Some (decimal_text first k)
            else if reads_back (decimal_text second k) x
            then Some (decimal_text second k)
            else shortest (S fuel) (n + 1) num den e10 x).
    cbv zeta. clear Hn Hr IH.
    set (k := (e10 - (n - 1))%Z).
    set (lo := floor_scaled num den k).
    set (first := if nearer_low num den k lo then lo else (lo + 1)%Z).
    set (second := if nearer_low num den k lo then (lo + 1)%Z else lo).
    destruct (reads_back (decimal_text first k) x); [eexists; reflexivity |].
    destruct (reads_back (decimal_text second k) x); [eexists; reflexivity |].
    exists text. exact Ht.
Qed.

(** The search of [repr] finds a text for every float. *)
Lemma unsigned_text_found m e :
  SpecFloat.bounded 53 1024 m e = true ->
  exists text,
    shortest
      (Z.to_nat (decimal_exponent (numerator m e) (denominator e)
                 - last_exponent m e + 1))
      1 (numerator m e) (denominator e)
      (decimal_exponent (numerator m e) (denominator e))
      (SpecFloat.S754_finite false m e) = Some text.
Proof.
  intros Hb.
  destruct (last_candidate m e) as [p [Hlo [Hn [Hk Hv]]]].
  pose proof (exact_decimal_reads_back m e p _ Hb Hk Hv) as Hr.
  assert (Hle : (last_exponent m e
                 <= decimal_exponent (numerator m e) (denominator e))%Z)
    by apply Z.le_min_r.
  set (e10 := decimal_exponent (numerator m e) (denominator e)) in *.
  clearbody e10.
  set (k := last_exponent m e) in *. clearbody k.
  replace (Z.to_nat (e10 - k + 1)) with (S (Z.to_nat (e10 - k))) by lia.
  apply shortest_finds;
    replace (e10 - (1 + Z.of_nat (Z.to_nat (e10 - k)) - 1))%Z with k by lia;
    rewrite Hlo; assumption.
Qed.

Lemma float_repr_finite s m e :
  float_repr (SpecFloat.S754_finite s m e)
  = (if s then [ch_minus] else []) ++ unsigned_text m e.
Proof. reflexivity. Qed.

Lemma unsigned_text_reads_back m e :
  SpecFloat.bounded 53 1024 m e = true ->
  scan_number (unsigned_text m e)
  = Some (JFloat (SpecFloat.S754_finite false m e), []).
Proof.
  intros Hb. unfold unsigned_text.
  destruct (unsigned_text_found m e Hb) as [text E]. rewrite E.
  apply shortest_reads_back in E.
  pose proof (reads_back_scans _ _ [] E eq_refl) as H.
  rewrite app_nil_r in H. exact H.
Qed.

(** [float.__repr__] of a number reads back as the number. *)
Lemma scan_number_float_repr x :
  is_float x = true -> is_finite x = true ->
  scan_number (float_repr x) = Some (JFloat x, []).
Proof.
  destruct x as [[|] | | | s m e]; try discriminate; intros Hb _.
  - vm_compute. reflexivity.
  - vm_compute. reflexivity.
  - rewrite float_repr_finite. destruct s; cbn [app].
    + apply scan_number_minus, unsigned_text_reads_back, Hb.
    + apply unsigned_text_reads_back, Hb.
Qed.

(** A number is a value for [scan_once]. *)
Lemma scan_once_number budget s v r :
  scan_number s = Some (v, r) ->
  scan_once (S budget) s = Some (v, r).
Proof.
  intros H. destruct s as [| c s']; [discriminate |].
  assert (Hc : c = ch_minus \/ is_digit c = true).
  { unfold scan_number in H.
    destruct (scan_integer (c :: s')) as [[[neg u] r1] |] eqn:E;
      [| discriminate].
    cbn [scan_integer] in E.
    destruct (N.eqb_spec c ch_minus) as [-> | Hne]; [left; reflexivity |].
    destruct (scan_natural (c :: s')) as [[u' r'] |] eqn:En; [| discriminate].
    right. exact (proj1 (scan_natural_head _ _ _ _ En)). }
  cbn [scan_once].
  assert (Hne : (c =? ch_quote) = false /\ (c =? ch_lbrace) = false
                /\ (c =? ch_lbracket) = false /\ (c =? ch_n) = false
                /\ (c =? ch_t) = false /\ (c =? ch_f) = false).
  { destruct Hc as [-> | Hd]; [repeat split |].
    unfold is_digit in Hd. apply andb_prop in Hd.
    rewrite !N.leb_le in Hd.
    unfold ch_quote, ch_lbrace, ch_lbracket, ch_n, ch_t, ch_f, ch_zero in *.
    repeat split; apply N.eqb_neq; lia. }
  destruct Hne as [H1 [H2 [H3 [H4 [H5 H6]]]]].
  rewrite H1, H2, H3, H4, H5, H6, H. reflexivity.
Qed.

(** What [json.dumps] writes for a float, [json.loads] reads as that
    float. *)
Lemma scan_once_floatstr budget x rest :
  is_float x = true ->
  continues_number rest = false ->
  scan_once (S budget) (floatstr x ++ rest) = Some (JFloat x, rest).
Proof.
  intros Hx Hc.
  destruct x as [s | [|] | | s m e]; try reflexivity;
    apply scan_once_number;
    apply (scan_number_app _ _ _ [] Hc);
    change (floatstr ?y) with (float_repr y);
    apply scan_number_float_repr; auto.
Qed.

(** **** The shape of the text of a float *)

Lemma is_ascii_app a b : is_ascii (a ++ b) = is_ascii a && is_ascii b.
Proof. apply forallb_app. Qed.

Lemma is_ascii_rev s : is_ascii s = true -> is_ascii (rev s) = true.
Proof.
  unfold is_ascii. rewrite !forallb_forall. intros H c Hc.
  apply H, in_rev. exact Hc.
Qed.

Lemma is_ascii_strip_zeros s :
  is_ascii s = true -> is_ascii (strip_zeros s) = true.
Proof.
  induction s as [| c s IH]; [reflexivity |].
  cbn [strip_zeros]. destruct (c =? ch_zero); [| exact (fun H => H)].
  intros H. cbn in H. apply andb_prop in H. apply IH, H.
Qed.

Lemma is_ascii_firstn n : forall s,
  is_ascii s = true -> is_ascii (firstn n s) = true.
Proof.
  induction n as [| n IH]; intros [| c s]; try reflexivity.
  cbn. intros H. apply andb_prop in H. destruct H as [Hc Hs].
  rewrite Hc. exact (IH s Hs).
Qed.

Lemma is_ascii_skipn n : forall s,
  is_ascii s = true -> is_ascii (skipn n s) = true.
Proof.
  induction n as [| n IH]; intros [| c s]; try reflexivity.
  - exact (fun H => H).
  - cbn. intros H. apply andb_prop in H. exact (IH s (proj2 H)).
Qed.

Lemma is_ascii_zeros n : is_ascii (repeat ch_zero n) = true.
Proof. induction n as [| n IH]; [reflexivity | exact IH]. Qed.

Lemma uint_chars_ascii u : is_ascii (uint_chars u) = true.
Proof. induction u; cbn [uint_chars]; try reflexivity; exact IHu. Qed.

Lemma int_repr_ascii z : is_ascii (int_repr z) = true.
Proof.
  unfold int_repr. destruct (Z.to_int z); [| cbn [is_ascii forallb]];
    apply uint_chars_ascii.
Qed.

Lemma digits_of_ascii d : is_ascii (digits_of d) = true.
Proof. apply uint_chars_ascii. Qed.

Lemma significant_ascii d : is_ascii (significant d) = true.
Proof.
  unfold significant.
  apply is_ascii_rev, is_ascii_strip_zeros, is_ascii_rev, digits_of_ascii.
Qed.

Lemma exponent_chars_ascii x : is_ascii (exponent_chars x) = true.
Proof.
  unfold exponent_chars.
  change (?c :: ?a ++ ?b) with ([c] ++ a ++ b).
  rewrite !is_ascii_app, digits_of_ascii.
  destruct (x <? 0)%Z, (Z.abs x <? 10)%Z; reflexivity.
Qed.

Lemma format_short_ascii ds decpt :
  is_ascii ds = true -> is_ascii (format_short ds decpt) = true.
Proof.
  intros H. unfold format_short.
  destruct ((decpt <=? -4)%Z || (16 <? decpt)%Z).
  - destruct ds as [| c tail]; [reflexivity |].
    cbn in H. apply andb_prop in H. destruct H as [Hc Ht].
    change (c :: ?a ++ ?b) with ([c] ++ a ++ b).
    change (ch_e :: ?b) with ([ch_e] ++ b).
    rewrite !is_ascii_app, exponent_chars_ascii.
    cbn [is_ascii forallb]. rewrite Hc.
    destruct tail as [| d tail']; [reflexivity |].
    change (ch_dot :: d :: tail') with ([ch_dot] ++ d :: tail').
    rewrite is_ascii_app. unfold is_ascii in Ht |- *. rewrite Ht.
    reflexivity.
  - destruct (decpt <=? 0)%Z.
    + change (ch_zero :: ch_dot :: ?a ++ ?b) with ([ch_zero; ch_dot] ++ a ++ b).
      rewrite !is_ascii_app, is_ascii_zeros, H. reflexivity.
    + destruct (decpt <? Z.of_nat (List.length ds))%Z.
      * change (?a ++ ch_dot :: ?b) with (a ++ [ch_dot] ++ b).
        rewrite !is_ascii_app, is_ascii_firstn, is_ascii_skipn by exact H.
        reflexivity.
      * rewrite !is_ascii_app, is_ascii_zeros, H. reflexivity.
Qed.

Lemma decimal_text_ascii d k : is_ascii (decimal_text d k) = true.
Proof. apply format_short_ascii, significant_ascii. Qed.

Lemma shortest_ascii fuel : forall n num den e10 x text,
  shortest fuel n num den e10 x = Some text -> is_ascii text = true.
Proof.
  induction fuel as [| fuel IH]; intros n num den e10 x text; [discriminate |].
  cbn [shortest]. cbv zeta.
  set (k := (e10 - (n - 1))%Z).
  set (lo := floor_scaled num den k).
  set (first := if nearer_low num den k lo then lo else (lo + 1)%Z).
  set (second := if nearer_low num den k lo then (lo + 1)%Z else lo).
  destruct (reads_back (decimal_text first k) x).
  - intros H. inversion H. apply decimal_text_ascii.
  - destruct (reads_back (decimal_text second k) x).
    + intros H. inversion H. apply decimal_text_ascii.
    + apply IH.
Qed.

Lemma unsigned_text_ascii m e : is_ascii (unsigned_text m e) = true.
Proof.
  unfold unsigned_text.
  destruct (shortest _ _ _ _ _ _) as [text |] eqn:E; [| reflexivity].
  exact (shortest_ascii _ _ _ _ _ _ _ E).
Qed.

Lemma floatstr_ascii x : is_ascii (floatstr x) = true.
Proof.
  destruct x as [[|] | [|] | | s m e]; try reflexivity.
  change (floatstr ?y) with (float_repr y).
  rewrite float_repr_finite, is_ascii_app, unsigned_text_ascii.
  destruct s; reflexivity.
Qed.

Lemma scan_number_head c s v r :
  scan_number (c :: s) = Some (v, r) ->
  c = ch_minus \/ is_digit c = true.
Proof.
  unfold scan_number. intros H.
  destruct (scan_integer (c :: s)) as [[[neg u] r1] |] eqn:E;
    [| discriminate].
  cbn [scan_integer] in E.
  destruct (N.eqb_spec c ch_minus) as [-> | Hne]; [left; reflexivity |].
  destruct (scan_natural (c :: s)) as [[u' r'] |] eqn:En; [| discriminate].
  right. exact (proj1 (scan_natural_head _ _ _ _ En)).
Qed.

(** The text of a float starts with a minus sign, a digit or the first
    letter of [NaN] or [Infinity]. *)
Lemma floatstr_head x :
  is_float x = true ->
  exists c s, floatstr x = c :: s
              /\ (c = ch_minus \/ is_digit c = true \/ c = 78 \/ c = 73).
Proof.
  intros Hx.
  destruct x as [[|] | [|] | | sg m e];
    try (eexists; eexists; split; [reflexivity | tauto]);
    try (eexists; eexists; split; [reflexivity | right; left; reflexivity]).
  change (floatstr ?y) with (float_repr y). rewrite float_repr_finite.
  destruct sg; [eexists; eexists; split; [reflexivity | tauto] |].
  cbn [app].
  pose proof (unsigned_text_reads_back m e Hx) as Hs.
  destruct (unsigned_text m e) as [| c s]; [discriminate |].
  exists c, s. split; [reflexivity |].
  destruct (scan_number_head _ _ _ _ Hs); tauto.
Qed.

(** The codec on some numbers. *)
Lemma loads_reads_numbers :
  loads (lit "[1.5, 0.1, 1e0, -0.0, 1E+400, NaN, 12, 5e-324]")
  = Some (JArr [JFloat one_and_a_half; JFloat a_tenth; JFloat float_one;
                JFloat (SpecFloat.S754_zero true);
                JFloat (SpecFloat.S754_infinity false);
                JFloat SpecFloat.S754_nan; JInt 12;
                JFloat (SpecFloat.S754_finite false 1 (-1074))]).
Proof. vm_compute. reflexivity. Qed.

Lemma dumps_writes_numbers :
  dumps (JArr [JFloat one_and_a_half; JFloat a_tenth; JFloat float_one;
               JFloat (SpecFloat.S754_zero true);
               JFloat (SpecFloat.S754_infinity false);
               JFloat SpecFloat.S754_nan; JInt 12;
               JFloat (SpecFloat.S754_finite false 1 (-1074));
               JFloat (SpecFloat.S754_finite false 5000000000000000 1)])
  = lit "[1.5, 0.1, 1.0, -0.0, Infinity, NaN, 12, 5e-324, 1e+16]".
Proof. vm_compute. reflexivity. Qed.

Lemma py_eq_on_numbers :
  py_eq (JFloat float_one) (JInt 1) = true
  /\ py_eq (JBool true) (JFloat float_one) = true
  /\ py_eq (JFloat one_and_a_half) (JInt 1) = false
  /\ py_eq (JFloat SpecFloat.S754_nan) (JFloat SpecFloat.S754_nan) = false.
Proof. repeat split. Qed.

(** *** Strings *)

Lemma hex_value_hex_char d :
  d < 16 -> hex_value (hex_char d) = Some d.
Proof.
  intros H.
  assert (Hn : exists k, (k < 16)%nat /\ d = N.of_nat k).
  { exists (N.to_nat d). split; [lia | now rewrite N2Nat.id]. }
  destruct Hn as [k [Hk ->]]. clear H.
  do 16 (destruct k as [| k]; [reflexivity |]). lia.
Qed.

Lemma decode_hex4 n tail :
  n < 65536 -> decode_uXXXX (hex4 n ++ tail) = Some (n, tail).
Proof.
  intros H. unfold hex4, decode_uXXXX. cbn [app].
  rewrite !hex_value_hex_char by (apply N.mod_lt; discriminate).
  f_equal. f_equal.
  zify. Z.to_euclidean_division_equations. lia.
Qed.

Lemma lor_above a x k :
  x < 2 ^ k -> N.lor (a * 2 ^ k) x = a * 2 ^ k + x.
Proof.
  intros Hx.
  assert (Hl : N.land (a * 2 ^ k) x = 0).
  { apply N.bits_inj_0. intros n. rewrite N.land_spec.
    destruct (N.lt_ge_cases n k) as [Hn | Hn].
    - rewrite N.mul_pow2_bits_low by exact Hn. reflexivity.
    - rewrite <- (N.mod_small x (2 ^ k)) by exact Hx.
      rewrite N.mod_pow2_bits_high by exact Hn.
      apply andb_false_r. }
  rewrite (N.add_nocarry_lxor _ _ Hl). symmetry. apply N.lxor_lor. exact Hl.
Qed.

Lemma add_sub_l a b : a + b - a = b.
Proof. lia. Qed.

(** The surrogate pair of an astral code point, and back. *)
Lemma high_of_astral c :
  65536 <= c -> c < 1114112 ->
  N.lor 55296 (N.land (N.shiftr (c - 65536) 10) 1023)
  = 55296 + (c - 65536) / 1024.
Proof.
  intros H1 H2.
  change 1023 with (N.ones 10). rewrite N.land_ones, N.shiftr_div_pow2.
  change (2 ^ 10) with 1024.
  rewrite N.mod_small
    by (apply N.Div0.div_lt_upper_bound; lia).
  change 55296 with (54 * 2 ^ 10) at 1.
  rewrite lor_above.
  - reflexivity.
  - change (2 ^ 10) with 1024. apply N.Div0.div_lt_upper_bound; lia.
Qed.

Lemma low_of_astral c :
  N.lor 56320 (N.land (c - 65536) 1023) = 56320 + (c - 65536) mod 1024.
Proof.
  change 1023 with (N.ones 10). rewrite N.land_ones.
  change 56320 with (55 * 2 ^ 10) at 1.
  rewrite lor_above; [reflexivity | apply N.mod_lt; discriminate].
Qed.

Lemma join_surrogates_of_astral c :
  65536 <= c -> c < 1114112 ->
  join_surrogates (55296 + (c - 65536) / 1024)
                  (56320 + (c - 65536) mod 1024) = c.
Proof.
  intros H1 H2. unfold join_surrogates.
  rewrite !add_sub_l.
  rewrite N.shiftl_mul_pow2, lor_above by (apply N.mod_lt; discriminate).
  change (2 ^ 10) with 1024.
  pose proof (N.div_mod (c - 65536) 1024 ltac:(discriminate)) as Hd.
  revert Hd.
  generalize ((c - 65536) / 1024) ((c - 65536) mod 1024). intros q r Hd. lia.
Qed.

Lemma escape_char_shape c : is_code_point c = true -> escape_shape c.
Proof.
  intros Hc. unfold is_code_point in Hc. apply N.ltb_lt in Hc.
  destruct (N.eqb_spec c ch_backslash) as [-> | H1];
    [apply shape_short with (e := ch_backslash);
     [reflexivity | discriminate | reflexivity | discriminate] |].
  destruct (N.eqb_spec c ch_quote) as [-> | H2];
    [apply shape_short with (e := ch_quote);
     [reflexivity | discriminate | reflexivity | discriminate] |].
  destruct (N.eqb_spec c 8) as [-> | H3];
    [apply shape_short with (e := ch_b);
     [reflexivity | discriminate | reflexivity | discriminate] |].
  destruct (N.eqb_spec c 12) as [-> | H4];
    [apply shape_short with (e := ch_f);
     [reflexivity | discriminate | reflexivity | discriminate] |].
  destruct (N.eqb_spec c 10) as [-> | H5];
    [apply shape_short with (e := ch_n);
     [reflexivity | discriminate | reflexivity | discriminate] |].
  destruct (N.eqb_spec c 13) as [-> | H6];
    [apply shape_short with (e := ch_r);
     [reflexivity | discriminate | reflexivity | discriminate] |].
  destruct (N.eqb_spec c 9) as [-> | H7];
    [apply shape_short with (e := ch_t);
     [reflexivity | discriminate | reflexivity | discriminate] |].
  assert (Hesc :
    escape_char c
    = if (32 <=? c) && (c <=? 126) then [c]
      else if c <? 65536 then u_escape c
      else u_escape (N.lor 55296 (N.land (N.shiftr (c - 65536) 10) 1023))
           ++ u_escape (N.lor 56320 (N.land (c - 65536) 1023))).
  { unfold escape_char.
    rewrite (proj2 (N.eqb_neq _ _) H1), (proj2 (N.eqb_neq _ _) H2),
      (proj2 (N.eqb_neq _ _) H3), (proj2 (N.eqb_neq _ _) H4),
      (proj2 (N.eqb_neq _ _) H5), (proj2 (N.eqb_neq _ _) H6),
      (proj2 (N.eqb_neq _ _) H7).
    reflexivity. }
  destruct ((32 <=? c) && (c <=? 126)) eqn:Hp.
  - apply andb_prop in Hp. destruct Hp as [Ha Hb].
    apply N.leb_le in Ha. apply N.leb_le in Hb.
    apply shape_literal; assumption.
  - destruct (N.ltb_spec c 65536) as [Hlt | Hge].
    + apply shape_u; assumption.
    + apply shape_pair; [| exact Hge].
      rewrite Hesc, high_of_astral, low_of_astral by assumption.
      reflexivity.
Qed.

Lemma high_surrogate_range c :
  is_high_surrogate c = true <-> 55296 <= c /\ c <= 56319.
Proof.
  unfold is_high_surrogate. rewrite andb_true_iff, !N.leb_le. tauto.
Qed.

Lemma low_surrogate_range c :
  is_low_surrogate c = true <-> 56320 <= c /\ c <= 57343.
Proof.
  unfold is_low_surrogate. rewrite andb_true_iff, !N.leb_le. tauto.
Qed.

Lemma not_high_surrogate c :
  c < 55296 \/ 56319 < c -> is_high_surrogate c = false.
Proof.
  intros H. destruct (is_high_surrogate c) eqn:E; [| reflexivity].
  apply high_surrogate_range in E. lia.
Qed.

Lemma not_low_surrogate c :
  c < 56320 \/ 57343 < c -> is_low_surrogate c = false.
Proof.
  intros H. destruct (is_low_surrogate c) eqn:E; [| reflexivity].
  apply low_surrogate_range in E. lia.
Qed.

Lemma astral_high_in_range c :
  c < 1114112 -> is_high_surrogate (55296 + (c - 65536) / 1024) = true.
Proof.
  intros H. apply high_surrogate_range.
  assert ((c - 65536) / 1024 < 1024)
    by (apply N.Div0.div_lt_upper_bound; lia).
  dlia.
Qed.

Lemma astral_low_in_range c :
  is_low_surrogate (56320 + (c - 65536) mod 1024) = true.
Proof.
  apply low_surrogate_range.
  pose proof (N.mod_lt (c - 65536) 1024 ltac:(discriminate)). dlia.
Qed.

Lemma scan_char_u_escape n tail :
  n < 65536 ->
  scan_char (u_escape n ++ tail)
  = if is_high_surrogate n then scan_low_surrogate n tail else Char n tail.
Proof.
  intros H. unfold u_escape. cbn [app scan_char].
  change (ch_backslash =? ch_quote) with false.
  change (ch_backslash =? ch_backslash) with true.
  change (ch_u =? ch_u) with true. cbv iota.
  rewrite decode_hex4 by exact H. reflexivity.
Qed.

Lemma scan_low_surrogate_u_escape uni n tail :
  n < 65536 ->
  scan_low_surrogate uni (u_escape n ++ tail)
  = if is_low_surrogate n then Char (join_surrogates uni n) tail
    else Char uni (u_escape n ++ tail).
Proof.
  intros H. unfold u_escape. cbn [app scan_low_surrogate].
  change (ch_backslash =? ch_backslash) with true.
  change (ch_u =? ch_u) with true. cbv iota beta delta [andb].
  rewrite decode_hex4 by exact H. reflexivity.
Qed.

(** Scanning one escaped character gives the character back, unless it is
    a high surrogate, for which the scanner looks at what follows. *)
Lemma scan_char_escape c tail :
  is_code_point c = true ->
  scan_char (escape_char c ++ tail)
  = if is_high_surrogate c then scan_low_surrogate c tail else Char c tail.
Proof.
  intros Hc. pose proof Hc as Hlt. apply N.ltb_lt in Hlt.
  destruct (escape_char_shape c Hc) as [E H1 H2 Ha Hb | e E He Hs Hb | E Hu | E Hp];
    rewrite E.
  - rewrite not_high_surrogate by lia.
    cbn [app scan_char].
    rewrite (proj2 (N.eqb_neq _ _) H2), (proj2 (N.eqb_neq _ _) H1).
    destruct (N.ltb_spec c 32); [lia | reflexivity].
  - rewrite not_high_surrogate by lia. apply Hs.
  - apply scan_char_u_escape. exact Hu.
  - rewrite not_high_surrogate by lia.
    rewrite <- app_assoc, scan_char_u_escape.
    + rewrite astral_high_in_range by exact Hlt.
      rewrite scan_low_surrogate_u_escape.
      * rewrite astral_low_in_range, join_surrogates_of_astral by assumption.
        reflexivity.
      * pose proof (N.mod_lt (c - 65536) 1024 ltac:(discriminate)). dlia.
    + assert ((c - 65536) / 1024 < 1024)
        by (apply N.Div0.div_lt_upper_bound; lia).
      dlia.
Qed.

(** After a high surrogate, the next escaped character is joined to it
    exactly when it is a low surrogate. *)
Lemma scan_low_surrogate_escape uni d tail :
  is_code_point d = true ->
  scan_low_surrogate uni (escape_char d ++ tail)
  = if is_low_surrogate d then Char (join_surrogates uni d) tail
    else Char uni (escape_char d ++ tail).
Proof.
  intros Hd. pose proof Hd as Hlt. apply N.ltb_lt in Hlt.
  destruct (escape_char_shape d Hd) as [E H1 H2 Ha Hb | e E He Hs Hb | E Hu | E Hp];
    rewrite E.
  - rewrite not_low_surrogate by lia.
    cbn [app scan_low_surrogate].
    rewrite (proj2 (N.eqb_neq _ _) H1).
    destruct tail; reflexivity.
  - rewrite not_low_surrogate by lia.
    cbn [app scan_low_surrogate].
    rewrite (proj2 (N.eqb_neq _ _) He), andb_false_r. reflexivity.
  - apply scan_low_surrogate_u_escape. exact Hu.
  - rewrite not_low_surrogate by lia.
    rewrite <- app_assoc, scan_low_surrogate_u_escape.
    + rewrite not_low_surrogate; [reflexivity |].
      assert ((d - 65536) / 1024 < 1024)
        by (apply N.Div0.div_lt_upper_bound; lia).
      dlia.
    + assert ((d - 65536) / 1024 < 1024)
        by (apply N.Div0.div_lt_upper_bound; lia).
      dlia.
Qed.

Lemma escape_char_nonempty c : (1 <= List.length (escape_char c))%nat.
Proof.
  unfold escape_char.
  repeat match goal with
         | |- context [if ?b then _ else _] => destruct b
         end; cbn; lia.
Qed.

Lemma joined_cons_not_high c s :
  is_high_surrogate c = false -> joined (c :: s) = c :: joined s.
Proof. intros H. destruct s; cbn [joined]; [| rewrite H]; reflexivity. Qed.

Lemma scan_low_surrogate_quote uni rest :
  scan_low_surrogate uni (ch_quote :: rest) = Char uni (ch_quote :: rest).
Proof. destruct rest; reflexivity. Qed.

Lemma scanstring_loop_step budget s acc :
  scanstring_loop (S budget) s acc
  = match scan_char s with
    | Closed r => Some (rev acc, r)
    | Char c r => scanstring_loop budget r (c :: acc)
    | Invalid => None
    end.
Proof. reflexivity. Qed.

(** The scanner reads the escapes of a string back, joining surrogate
    pairs. *)
Lemma scanstring_loop_escaped n :
  forall s, (List.length s <= n)%nat -> is_str s = true ->
  forall budget rest acc,
    (List.length (flat_map escape_char s) < budget)%nat ->
    scanstring_loop budget (flat_map escape_char s ++ ch_quote :: rest) acc
    = Some (rev acc ++ joined s, rest).
Proof.
  induction n as [| n IH]; intros s Hn Hs budget rest acc Hb.
  - destruct s; [| cbn in Hn; lia].
    destruct budget; [cbn in Hb; lia |].
    cbn. rewrite app_nil_r. reflexivity.
  - destruct s as [| c s'].
    + destruct budget; [cbn in Hb; lia |].
      cbn. rewrite app_nil_r. reflexivity.
    + cbn [is_str forallb] in Hs. apply andb_prop in Hs.
      destruct Hs as [Hc Hs'].
      destruct budget as [| b]; [cbn in Hb; lia |].
      cbn [flat_map] in *. rewrite length_app in Hb.
      pose proof (escape_char_nonempty c) as Hne.
      rewrite <- app_assoc, scanstring_loop_step, scan_char_escape by exact Hc.
      destruct (is_high_surrogate c) eqn:Hh.
      * destruct s' as [| d s''].
        -- cbn [flat_map app]. rewrite scan_low_surrogate_quote.
           pose proof (IH [] ltac:(cbn; lia) eq_refl b rest (c :: acc)
                          ltac:(cbn in *; lia)) as E.
           cbn [flat_map app] in E. rewrite E.
           cbn. rewrite <- app_assoc. reflexivity.
        -- cbn [is_str forallb] in Hs'. apply andb_prop in Hs'.
           destruct Hs' as [Hd Hs''].
           cbn [flat_map] in *. rewrite length_app in Hb.
           rewrite <- app_assoc, scan_low_surrogate_escape by exact Hd.
           cbn [joined]. rewrite Hh. cbn [andb].
           destruct (is_low_surrogate d) eqn:Hl.
           ++ rewrite (IH s'' ltac:(cbn in Hn; lia) Hs'' b rest _
                          ltac:(lia)).
              cbn [rev]. rewrite <- app_assoc. reflexivity.
           ++ rewrite app_assoc.
              change (escape_char d ++ flat_map escape_char s'')
                with (flat_map escape_char (d :: s'')).
              rewrite (IH (d :: s'') ltac:(cbn in *; lia)
                          ltac:(cbn; rewrite Hd, Hs''; reflexivity)
                          b rest _
                          ltac:(cbn [flat_map]; rewrite length_app; lia)).
              cbn [rev]. rewrite <- app_assoc. reflexivity.
      * rewrite (IH s' ltac:(cbn in Hn; lia) Hs' b rest _ ltac:(lia)).
        rewrite joined_cons_not_high by exact Hh.
        cbn [rev]. rewrite <- app_assoc. reflexivity.
Qed.

Lemma scanstring_escaped s rest :
  is_str s = true ->
  scanstring (flat_map escape_char s ++ ch_quote :: rest)
  = Some (joined s, rest).
Proof.
  intros Hs. unfold scanstring.
  rewrite (@scanstring_loop_escaped (List.length s) s (le_n _) Hs).
  - reflexivity.
  - rewrite length_app. cbn. lia.
Qed.

Lemma is_text_is_str s : is_text s = true -> is_str s = true.
Proof.
  unfold is_text, is_str. induction s as [| c s IH]; [reflexivity |].
  cbn. intros H. apply andb_prop in H. destruct H as [Hc Hs].
  apply andb_prop in Hc. destruct Hc as [Hc _].
  rewrite Hc, (IH Hs). reflexivity.
Qed.

(** Text holds no surrogate, so nothing is joined. *)
Lemma joined_text s : is_text s = true -> joined s = s.
Proof.
  induction s as [| c s IH]; [reflexivity |].
  cbn [is_text forallb]. intros H. apply andb_prop in H.
  destruct H as [Hc Hs]. apply andb_prop in Hc. destruct Hc as [_ Hc].
  rewrite joined_cons_not_high, (IH Hs); [reflexivity |].
  unfold is_surrogate in Hc. apply negb_true_iff in Hc.
  apply not_high_surrogate.
  apply andb_false_iff in Hc. rewrite !N.leb_gt in Hc. lia.
Qed.

(** *** Values *)

Lemma dumps_list l :
  dumps (JArr l) = ch_lbracket :: dumps_items l ++ [ch_rbracket].
Proof.
  reflexivity.
Qed.

Lemma dumps_dict d :
  dumps (JObj d) = ch_lbrace :: dumps_members d ++ [ch_rbrace].
Proof.
  reflexivity.
Qed.

Lemma int_repr_head z :
  exists c s, int_repr z = c :: s
              /\ (c = ch_minus \/ is_digit c = true).
Proof.
  unfold int_repr. destruct z as [| p | p]; cbn [Z.to_int].
  - eexists; eexists; split; [reflexivity | right; reflexivity].
  - destruct (uint_chars_head _ (DecimalPos.Unsigned.to_uint_nonnil p))
      as [c [s [E Hd]]].
    exists c, s. rewrite E. auto.
  - eexists; eexists; split; [reflexivity | left; reflexivity].
Qed.

Lemma starts_value_dumps v rest :
  is_py v = true -> starts_value (dumps v ++ rest) = true.
Proof.
  intros Hv.
  assert (Hd : forall c, is_digit c = true ->
                         negb (is_ws c) && negb (c =? ch_rbracket) = true).
  { intros c Hd. apply digit_range in Hd. unfold is_ws, ch_rbracket.
    repeat match goal with
           | |- context [?a =? ?b] =>
               destruct (N.eqb_spec a b); [lia |]
           end.
    reflexivity. }
  destruct v as [| [|] | z | x | s | l | d];
    try rewrite dumps_list; try rewrite dumps_dict; try reflexivity.
  - destruct (int_repr_head z) as [c [s [E [-> | Hz]]]];
      cbn [dumps]; rewrite E; [reflexivity |].
    cbn [app starts_value]. exact (Hd c Hz).
  - destruct (floatstr_head x Hv) as [c [s [E [-> | [Hx | [-> | ->]]]]]];
      cbn [dumps]; rewrite E; try reflexivity.
    cbn [app starts_value]. exact (Hd c Hx).
Qed.

Lemma skip_ws_starts_value s : starts_value s = true -> skip_ws s = s.
Proof.
  destruct s as [| c s]; [reflexivity |].
  cbn. intros H. apply andb_prop in H. destruct H as [H _].
  apply negb_true_iff in H. rewrite H. reflexivity.
Qed.

Lemma scan_once_int budget z rest :
  continues_number rest = false ->
  scan_once (S budget) (int_repr z ++ rest) = Some (JInt z, rest).
Proof.
  intros Hr. apply scan_once_number, scan_int_repr, Hr.
Qed.

Lemma dumps_members_cons k x d :
  dumps_members ((k, x) :: d) = ch_quote :: members_tail k x d.
Proof.
  cbn [dumps_members]. unfold encode_basestring_ascii, members_tail.
  cbn [app]. rewrite <- !app_assoc. reflexivity.
Qed.

Lemma size_positive v : (1 <= size v)%nat.
Proof. destruct v; cbn; lia. Qed.

Lemma scans_at_0 : scans_at 0.
Proof.
  repeat split; intros.
  - pose proof (size_positive v). lia.
  - lia.
  - lia.
Qed.

Lemma JSONArray_step b s acc :
  JSONArray (S b) s acc
  = match scan_once b s with
    | None => None
    | Some (v, r) =>
        match skip_ws r with
        | c :: r1 =>
            if c =? ch_rbracket then Some (JArr (rev (v :: acc)), r1)
            else if c =? ch_comma
                 then JSONArray b (skip_ws r1) (v :: acc)
                 else None
        | [] => None
        end
    end.
Proof. reflexivity. Qed.

Lemma JSONObject_step b s acc :
  JSONObject (S b) s acc
  = match scanstring s with
    | None => None
    | Some (k, r) =>
        match skip_ws r with
        | c :: r1 =>
            if c =? ch_colon then
              match scan_once b (skip_ws r1) with
              | None => None
              | Some (v, r2) =>
                  match skip_ws r2 with
                  | c2 :: r3 =>
                      if c2 =? ch_rbrace
                      then Some (JObj (dict_of_pairs (rev ((k, v) :: acc))), r3)
                      else if c2 =? ch_comma then
                             match skip_ws r3 with
                             | c3 :: r4 =>
                                 if c3 =? ch_quote
                                 then JSONObject b r4 ((k, v) :: acc)
                                 else None
                             | [] => None
                             end
                           else None
                  | [] => None
                  end
              end
            else None
        | [] => None
        end
    end.
Proof. reflexivity. Qed.

Lemma skip_ws_space_value v rest :
  is_py v = true ->
  skip_ws (ch_space :: dumps v ++ rest) = dumps v ++ rest.
Proof.
  intros Hv. cbn [skip_ws]. change (is_ws ch_space) with true. cbv iota.
  apply skip_ws_starts_value, starts_value_dumps, Hv.
Qed.

Lemma array_scans b : scans_at b -> forall x l acc rest,
  is_py x = true -> forallb is_py l = true ->
  (S (size x + sizes l) <= S b)%nat ->
  JSONArray (S b) (dumps_items (x :: l) ++ ch_rbracket :: rest) acc
  = Some (JArr (rev acc ++ List.map decoded (x :: l)), rest).
Proof.
  intros [Hv [Ha _]] x l acc rest Hx Hl Hsz.
  rewrite JSONArray_step. cbn [dumps_items]. rewrite <- app_assoc.
  destruct l as [| y l'].
  - cbn [app]. rewrite Hv; [| exact Hx | size_lia
                             | reflexivity].
    cbn. reflexivity.
  - unfold item_separator. cbn [app].
    rewrite Hv; [| exact Hx | size_lia
                  | reflexivity].
    cbn [skip_ws]. change (is_ws ch_comma) with false. cbv iota.
    change (ch_comma =? ch_rbracket) with false.
    change (ch_comma =? ch_comma) with true. cbv iota.
    cbn [forallb] in Hl. apply andb_prop in Hl. destruct Hl as [Hy Hl'].
    assert (E : skip_ws (ch_space :: dumps_items (y :: l') ++ ch_rbracket :: rest)
                = dumps_items (y :: l') ++ ch_rbracket :: rest).
    { cbn [dumps_items]. rewrite <- app_assoc.
      apply skip_ws_space_value, Hy. }
    rewrite E.
    rewrite Ha; [| exact Hy | exact Hl'
                  | size_lia].
    cbn [rev List.map]. rewrite <- app_assoc. reflexivity.
Qed.

Lemma object_scans b : scans_at b -> forall k x d acc rest,
  is_str k = true -> is_py x = true -> are_py d = true ->
  (S (size x + member_sizes d) <= S b)%nat ->
  JSONObject (S b) (members_tail k x d ++ ch_rbrace :: rest) acc
  = Some (JObj (dict_of_pairs
                  (rev acc ++ List.map decoded_pair ((k, x) :: d))),
          rest).
Proof.
  intros [Hv [_ Ho]] k x d acc rest Hk Hx Hd Hsz.
  rewrite JSONObject_step. unfold members_tail.
  rewrite <- app_assoc. cbn [app].
  rewrite scanstring_escaped by exact Hk.
  unfold key_separator. cbn [app skip_ws].
  change (is_ws ch_colon) with false. cbv iota.
  change (ch_colon =? ch_colon) with true. cbv iota.
  rewrite <- app_assoc, skip_ws_space_value by exact Hx.
  destruct d as [| [k' x'] d'].
  - cbn [app]. rewrite Hv; [| exact Hx
                             | size_lia
                             | reflexivity].
    cbn. reflexivity.
  - unfold item_separator. cbn [app].
    rewrite Hv; [| exact Hx
                  | size_lia
                  | reflexivity].
    cbn [skip_ws]. change (is_ws ch_comma) with false. cbv iota.
    change (ch_comma =? ch_rbrace) with false.
    change (ch_comma =? ch_comma) with true. cbv iota.
    rewrite dumps_members_cons. cbn [app skip_ws].
    change (is_ws ch_space) with true. change (is_ws ch_quote) with false.
    cbv iota. change (ch_quote =? ch_quote) with true. cbv iota.
    unfold are_py in Hd. cbn [forallb fst snd] in Hd.
    apply andb_prop in Hd. destruct Hd as [Hkx Hd'].
    apply andb_prop in Hkx. destruct Hkx as [Hk' Hx'].
    rewrite Ho; [| exact Hk' | exact Hx' | exact Hd'
                  | size_lia].
    cbn [rev List.map]. rewrite <- app_assoc. reflexivity.
Qed.

Lemma scan_once_bracket b s :
  scan_once (S b) (ch_lbracket :: s)
  = match skip_ws s with
    | c1 :: r1 =>
        if c1 =? ch_rbracket then Some (JArr [], r1)
        else JSONArray b (c1 :: r1) []
    | [] => None
    end.
Proof. reflexivity. Qed.

Lemma scan_once_brace b s :
  scan_once (S b) (ch_lbrace :: s)
  = match skip_ws s with
    | c1 :: r1 =>
        if c1 =? ch_rbrace then Some (JObj [], r1)
        else if c1 =? ch_quote then JSONObject b r1 []
        else None
    | [] => None
    end.
Proof. reflexivity. Qed.

Lemma scan_once_quote b s :
  scan_once (S b) (ch_quote :: s)
  = match scanstring s with
    | Some (x, r) => Some (JStr x, r)
    | None => None
    end.
Proof. reflexivity. Qed.

Lemma value_scans b : scans_at b -> forall v rest,
  is_py v = true -> (size v <= S b)%nat ->
  continues_number rest = false ->
  scan_once (S b) (dumps v ++ rest) = Some (decoded v, rest).
Proof.
  intros Hb v rest Hv Hsz Hr.
  destruct v as [| [|] | z | x | s | l | d].
  - reflexivity.
  - reflexivity.
  - reflexivity.
  - apply scan_once_int. exact Hr.
  - apply scan_once_floatstr; [exact Hv | exact Hr].
  - cbn [dumps decoded]. unfold encode_basestring_ascii.
    cbn [app]. rewrite <- app_assoc. cbn [app].
    rewrite scan_once_quote, scanstring_escaped by exact Hv. reflexivity.
  - rewrite dumps_list. cbn [app]. rewrite <- app_assoc. cbn [app].
    rewrite scan_once_bracket.
    destruct l as [| x l']; [reflexivity |].
    assert (Hx0 : is_py x = true).
    { cbn [is_py forallb] in Hv. apply andb_prop in Hv. apply Hv. }
    pose proof (starts_value_dumps x
                  (match l' with
                   | [] => []
                   | _ :: _ => item_separator ++ dumps_items l'
                   end ++ ch_rbracket :: rest) Hx0) as Hs.
    assert (E : dumps_items (x :: l') ++ ch_rbracket :: rest
                = dumps x ++ match l' with
                             | [] => []
                             | _ :: _ => item_separator ++ dumps_items l'
                             end ++ ch_rbracket :: rest).
    { cbn [dumps_items]. rewrite <- app_assoc. reflexivity. }
    rewrite <- E in Hs. rewrite (skip_ws_starts_value _ Hs).
    destruct (dumps_items (x :: l') ++ ch_rbracket :: rest)
      as [| c1 r1] eqn:Es; [discriminate |].
    cbn [starts_value] in Hs. apply andb_prop in Hs. destruct Hs as [_ Hs].
    apply negb_true_iff in Hs. rewrite Hs, <- Es.
    cbn [is_py forallb] in Hv. apply andb_prop in Hv. destruct Hv as [Hx Hl].
    destruct Hb as [_ [Ha _]].
    rewrite Ha; [reflexivity | exact Hx | exact Hl |].
    cbn [size] in Hsz. size_lia.
  - rewrite dumps_dict. cbn [app]. rewrite <- app_assoc. cbn [app].
    rewrite scan_once_brace.
    destruct d as [| [k x] d']; [reflexivity |].
    rewrite dumps_members_cons. cbn [app skip_ws].
    change (is_ws ch_quote) with false. cbv iota.
    change (ch_quote =? ch_rbrace) with false.
    change (ch_quote =? ch_quote) with true. cbv iota.
    cbn [is_py forallb fst snd] in Hv. apply andb_prop in Hv.
    destruct Hv as [Hkx Hd]. apply andb_prop in Hkx. destruct Hkx as [Hk Hx].
    destruct Hb as [_ [_ Ho]].
    rewrite Ho; [reflexivity | exact Hk | exact Hx | exact Hd |].
    cbn [size] in Hsz. size_lia.
Qed.

Lemma scans_always b : scans_at b.
Proof.
  induction b as [| b IH]; [exact scans_at_0 |].
  split; [| split].
  - apply value_scans. exact IH.
  - apply array_scans. exact IH.
  - apply object_scans. exact IH.
Qed.

(** The scanner reads a dumped value back, given a budget of at least its
    size, whatever follows it but what continues a number. *)
Lemma scan_once_dumps b v rest :
  is_py v = true -> (size v <= b)%nat ->
  continues_number rest = false ->
  scan_once b (dumps v ++ rest) = Some (decoded v, rest).
Proof. intros. apply (proj1 (scans_always b)); assumption. Qed.

(** *** Induction on nested values *)

Lemma json_nested_ind (P : json -> Prop) :
  P JNull -> (forall b, P (JBool b)) -> (forall z, P (JInt z)) ->
  (forall x, P (JFloat x)) -> (forall s, P (JStr s)) ->
  (forall l, Forall P l -> P (JArr l)) ->
  (forall d, Forall (fun kv => P (snd kv)) d -> P (JObj d)) ->
  forall v, P v.
Proof.
  intros Hnull Hbool Hint Hfloat Hstr Harr Hobj.
  fix IH 1. intros [| b | z | x | s | l | d].
  - exact Hnull.
  - apply Hbool.
  - apply Hint.
  - apply Hfloat.
  - apply Hstr.
  - apply Harr. induction l as [| x l IHl]; constructor.
    + apply IH.
    + exact IHl.
  - apply Hobj. induction d as [| [k x] d IHd]; constructor.
    + apply IH.
    + exact IHd.
Qed.

(** *** The budget of [loads] is enough *)

Lemma uint_chars_nonempty u :
  u <> Decimal.Nil -> (1 <= List.length (uint_chars u))%nat.
Proof. destruct u; intros H; try contradiction; cbn; lia. Qed.

Lemma int_repr_nonempty z : (1 <= List.length (int_repr z))%nat.
Proof.
  destruct (int_repr_head z) as [c [s [E _]]]. rewrite E. cbn. lia.
Qed.

Lemma size_le_length v :
  is_py v = true -> (size v <= List.length (dumps v))%nat.
Proof.
  induction v as [| b | z | x | s | l IH | d IH] using json_nested_ind;
    intros Hv.
  - cbn. lia.
  - destruct b; cbn; lia.
  - cbn [size dumps]. apply int_repr_nonempty.
  - cbn [size dumps]. destruct (floatstr_head x Hv) as [c [s [E _]]].
    rewrite E. cbn. lia.
  - cbn [size dumps]. unfold encode_basestring_ascii. cbn. lia.
  - rewrite dumps_list. cbn [size List.length]. rewrite length_app.
    cbn [List.length]. cbn [is_py] in Hv.
    assert (H : (sizes l <= 1 + List.length (dumps_items l))%nat).
    { induction IH as [| x l' Hx Hl IHl]; [cbn; lia |].
      cbn [forallb] in Hv. apply andb_prop in Hv. destruct Hv as [Hvx Hvl].
      specialize (Hx Hvx). specialize (IHl Hvl).
      cbn [dumps_items]. rewrite length_app.
      destruct l' as [| y l''].
      - size_lia.
      - rewrite length_app. unfold item_separator.
        cbn [List.length] in *. size_lia. }
    unfold sizes in H. lia.
  - rewrite dumps_dict. cbn [size List.length]. rewrite length_app.
    cbn [List.length]. cbn [is_py] in Hv.
    assert (H : (member_sizes d <= 1 + List.length (dumps_members d))%nat).
    { induction IH as [| [k x] d' Hx Hd IHd]; [cbn; lia |].
      cbn [forallb fst snd] in Hv. apply andb_prop in Hv.
      destruct Hv as [Hvx Hvd]. apply andb_prop in Hvx.
      cbn [snd] in Hx. specialize (Hx (proj2 Hvx)). specialize (IHd Hvd).
      cbn [dumps_members]. unfold encode_basestring_ascii, key_separator.
      rewrite !length_app. cbn [List.length app]. rewrite !length_app.
      destruct d' as [| kx d''].
      - size_lia.
      - rewrite length_app. unfold item_separator.
        cbn [List.length] in *. size_lia. }
    unfold member_sizes in H. lia.
Qed.

(** [json.loads (json.dumps v)] for any value made of Python strings. *)
Lemma loads_dumps v : is_py v = true -> loads (dumps v) = Some (decoded v).
Proof.
  intros Hv. unfold loads.
  pose proof (starts_value_dumps v [] Hv) as Hs. rewrite app_nil_r in Hs.
  rewrite (skip_ws_starts_value _ Hs).
  pose proof (scan_once_dumps (S (List.length (dumps v))) v [] Hv) as H.
  rewrite app_nil_r in H. rewrite H; [reflexivity | | reflexivity].
  pose proof (size_le_length v Hv). lia.
Qed.

(** *** Representable values come back unchanged *)

Lemma dict_set_fresh acc k v :
  forallb (fun a => negb (str_eqb (fst a) k)) acc = true ->
  dict_set acc k v = acc ++ [(k, v)].
Proof.
  induction acc as [| [k' v'] acc IH]; [reflexivity |].
  cbn [forallb fst dict_set app]. intros H. apply andb_prop in H.
  destruct H as [Hk H]. apply negb_true_iff in Hk. rewrite Hk, (IH H).
  reflexivity.
Qed.

Lemma distinct_before ks k rest :
  distinct (ks ++ k :: rest) = true ->
  forallb (fun a => negb (str_eqb a k)) ks = true
  /\ distinct ((ks ++ [k]) ++ rest) = true.
Proof.
  intros H. split.
  - induction ks as [| a ks IH]; [reflexivity |].
    cbn [app distinct forallb] in *. apply andb_prop in H.
    destruct H as [Ha H]. rewrite (IH H), andb_true_r.
    apply negb_true_iff in Ha. rewrite existsb_app in Ha.
    apply orb_false_iff in Ha. destruct Ha as [_ Ha].
    cbn [existsb] in Ha. apply orb_false_iff in Ha. destruct Ha as [Ha _].
    rewrite Ha. reflexivity.
  - rewrite <- app_assoc. exact H.
Qed.

Lemma fold_dict_set d : forall acc,
  distinct (List.map fst acc ++ List.map fst d) = true ->
  fold_left (fun c kv => dict_set c (fst kv) (snd kv)) d acc = acc ++ d.
Proof.
  induction d as [| [k v] d IH]; intros acc H.
  - cbn. rewrite app_nil_r. reflexivity.
  - cbn [fold_left fst snd List.map] in *.
    destruct (distinct_before _ _ _ H) as [Hk Hd].
    rewrite dict_set_fresh.
    + rewrite IH.
      * rewrite <- app_assoc. reflexivity.
      * rewrite map_app. exact Hd.
    + rewrite forallb_forall in *. intros [a w] Hin. cbn [fst].
      apply Hk. apply in_map_iff. exists (a, w). split; [reflexivity | exact Hin].
Qed.

Lemma dict_of_pairs_distinct d :
  distinct (List.map fst d) = true -> dict_of_pairs d = d.
Proof. intros H. unfold dict_of_pairs. apply (fold_dict_set d []). exact H. Qed.

Lemma decoded_representable v :
  json_representable v = true -> decoded v = v.
Proof.
  induction v as [| b | z | x | s | l IH | d IH] using json_nested_ind;
    try reflexivity.
  - cbn. intros H. rewrite joined_text by exact H. reflexivity.
  - cbn [json_representable decoded]. intros H. f_equal.
    induction IH as [| x l' Hx Hl IHl]; [reflexivity |].
    cbn [forallb List.map] in *. apply andb_prop in H. destruct H as [H1 H2].
    rewrite (Hx H1), (IHl H2). reflexivity.
  - cbn [json_representable decoded]. intros H. apply andb_prop in H.
    destruct H as [Hd H]. f_equal.
    assert (E : List.map (fun kv => (joined (fst kv), decoded (snd kv))) d = d).
    { clear Hd. induction IH as [| [k x] d' Hx Hl IHl]; [reflexivity |].
      cbn [forallb List.map fst snd] in *. apply andb_prop in H.
      destruct H as [H1 H2]. apply andb_prop in H1. destruct H1 as [Hk Hv].
      rewrite (joined_text _ Hk), (Hx Hv), (IHl H2). reflexivity. }
    rewrite E. apply dict_of_pairs_distinct. exact Hd.
Qed.

Lemma representable_is_py v : json_representable v = true -> is_py v = true.
Proof.
  induction v as [| b | z | x | s | l IH | d IH] using json_nested_ind;
    try reflexivity.
  - cbn. intros H. apply andb_prop in H. apply H.
  - cbn. apply is_text_is_str.
  - cbn [json_representable is_py]. intros H.
    induction IH as [| x l' Hx Hl IHl]; [reflexivity |].
    cbn [forallb] in *. apply andb_prop in H. destruct H as [H1 H2].
    rewrite (Hx H1), (IHl H2). reflexivity.
  - cbn [json_representable is_py]. intros H. apply andb_prop in H.
    destruct H as [_ H].
    induction IH as [| [k x] d' Hx Hl IHl]; [reflexivity |].
    cbn [forallb fst snd] in *. apply andb_prop in H.
    destruct H as [H1 H2]. apply andb_prop in H1. destruct H1 as [Hk Hv].
    rewrite (is_text_is_str _ Hk), (Hx Hv), (IHl H2). reflexivity.
Qed.

(** *** UTF-8 on the output of [json.dumps] *)

Lemma hex_char_ascii d : d < 16 -> hex_char d < 128.
Proof.
  intros H. unfold hex_char, ch_zero.
  destruct (N.ltb_spec d 10); lia.
Qed.

Lemma u_escape_ascii n : is_ascii (u_escape n) = true.
Proof.
  unfold u_escape, hex4, is_ascii. cbn [forallb].
  change (ch_backslash <? 128) with true. change (ch_u <? 128) with true.
  rewrite !(proj2 (N.ltb_lt (hex_char _) 128))
    by (apply hex_char_ascii, N.mod_lt; discriminate).
  reflexivity.
Qed.

Lemma escape_char_ascii c : is_ascii (escape_char c) = true.
Proof.
  unfold escape_char.
  repeat match goal with
         | |- context [if ?a =? ?b then _ else _] =>
             destruct (a =? b); [reflexivity |]
         end.
  destruct ((32 <=? c) && (c <=? 126)) eqn:E.
  - apply andb_prop in E. destruct E as [_ E]. apply N.leb_le in E.
    cbn. rewrite (proj2 (N.ltb_lt c 128)) by lia. reflexivity.
  - destruct (c <? 65536).
    + apply u_escape_ascii.
    + rewrite is_ascii_app, !u_escape_ascii. reflexivity.
Qed.

Lemma encode_basestring_ascii_is_ascii s :
  is_ascii (encode_basestring_ascii s) = true.
Proof.
  unfold encode_basestring_ascii.
  change (ch_quote :: flat_map escape_char s ++ [ch_quote])
    with ([ch_quote] ++ flat_map escape_char s ++ [ch_quote]).
  rewrite !is_ascii_app.
  replace (is_ascii (flat_map escape_char s)) with true; [reflexivity |].
  symmetry. induction s as [| c s IH]; [reflexivity |].
  cbn [flat_map]. rewrite is_ascii_app, escape_char_ascii, IH. reflexivity.
Qed.

Lemma dumps_ascii v : is_ascii (dumps v) = true.
Proof.
  induction v as [| b | z | x | s | l IH | d IH] using json_nested_ind.
  - reflexivity.
  - destruct b; reflexivity.
  - apply int_repr_ascii.
  - apply floatstr_ascii.
  - apply encode_basestring_ascii_is_ascii.
  - rewrite dumps_list.
    change (ch_lbracket :: dumps_items l ++ [ch_rbracket])
      with ([ch_lbracket] ++ dumps_items l ++ [ch_rbracket]).
    rewrite !is_ascii_app.
    replace (is_ascii (dumps_items l)) with true; [reflexivity |].
    symmetry. induction IH as [| x l' Hx Hl IHl]; [reflexivity |].
    cbn [dumps_items]. rewrite is_ascii_app, Hx.
    destruct l'; [reflexivity |].
    rewrite is_ascii_app, IHl. reflexivity.
  - rewrite dumps_dict.
    change (ch_lbrace :: dumps_members d ++ [ch_rbrace])
      with ([ch_lbrace] ++ dumps_members d ++ [ch_rbrace]).
    rewrite !is_ascii_app.
    replace (is_ascii (dumps_members d)) with true; [reflexivity |].
    symmetry. induction IH as [| [k x] d' Hx Hl IHl]; [reflexivity |].
    cbn [dumps_members snd] in *.
    rewrite !is_ascii_app, encode_basestring_ascii_is_ascii, Hx.
    destruct d'; [reflexivity |].
    rewrite is_ascii_app, IHl. reflexivity.
Qed.

Lemma to_N_byte_of c : c < 256 -> Byte.to_N (byte_of c) = c.
Proof.
  intros H. unfold byte_of.
  destruct (Byte.of_N c) as [b |] eqn:E.
  - apply Byte.to_of_N. exact E.
  - apply Byte.of_N_None_iff in E. lia.
Qed.

(** ASCII text is encoded byte for byte. *)
Lemma utf8_encode_ascii s :
  is_ascii s = true -> utf8_encode s = Some (List.map byte_of s).
Proof.
  induction s as [| c s IH]; [reflexivity |].
  cbn [is_ascii forallb utf8_encode List.map]. intros H.
  apply andb_prop in H. destruct H as [Hc Hs].
  unfold utf8_encode_char. rewrite Hc, (IH Hs). reflexivity.
Qed.

Lemma utf8_decode_loop_ascii s : forall budget,
  is_ascii s = true -> (List.length s <= budget)%nat ->
  utf8_decode_loop budget (List.map byte_of s) = Some s.
Proof.
  induction s as [| c s IH]; intros budget H Hb.
  - destruct budget; reflexivity.
  - destruct budget as [| budget]; [cbn in Hb; lia |].
    cbn [is_ascii forallb] in H. apply andb_prop in H.
    destruct H as [Hc Hs].
    cbn [List.map utf8_decode_loop utf8_decode_char].
    apply N.ltb_lt in Hc.
    rewrite to_N_byte_of by lia.
    rewrite (proj2 (N.ltb_lt c 128) Hc).
    rewrite IH; [reflexivity | exact Hs | cbn in Hb; lia].
Qed.

Lemma utf8_round_trip_ascii s :
  is_ascii s = true ->
  exists b, utf8_encode s = Some b /\ utf8_decode b = Some s.
Proof.
  intros H. exists (List.map byte_of s). split.
  - apply utf8_encode_ascii. exact H.
  - unfold utf8_decode. apply utf8_decode_loop_ascii; [exact H |].
    rewrite length_map. lia.
Qed.

(** *** The envelope on the wire *)

Lemma decoded_model_dump m :
  decoded (model_dump m) = model_dump (decoded_envelope m).
Proof. destruct m. reflexivity. Qed.

Lemma MessageData_of_model_dump now m :
  MessageData_of now (model_dump m) = Ok m.
Proof. destruct m. reflexivity. Qed.

Lemma is_py_model_dump m :
  is_py_envelope m = true -> is_py (model_dump m) = true.
Proof.
  unfold is_py_envelope. intros H.
  repeat (apply andb_prop in H; let H' := fresh "H" in destruct H as [H H']).
  cbn [model_dump is_py forallb fst snd].
  repeat match goal with
         | E : _ = true |- _ => rewrite E; clear E
         end.
  reflexivity.
Qed.

(** The bytes [produce] publishes for an envelope validate to the
    envelope [json.loads] reads back. *)
Lemma validate_wire now m :
  is_py_envelope m = true ->
  DC._validate_message now
    (Some {| value := Some (Bytes (List.map byte_of (dumps (model_dump m))));
             error := None |})
  = Ok (Some (decoded_envelope m)).
Proof.
  intros H. unfold DC._validate_message. cbn [value error].
  unfold utf8_decode. rewrite utf8_decode_loop_ascii;
    [| apply dumps_ascii | rewrite length_map; lia].
  rewrite loads_dumps by (apply is_py_model_dump; exact H).
  rewrite decoded_model_dump, MessageData_of_model_dump. reflexivity.
Qed.

Lemma produce_returns now self p key :
  key_encodes key = true ->
  DatasetProducer.produce now p key self
  = Return tt
      (DatasetProducer.set_producer self
         {| Kafka.producer_config :=
              Kafka.producer_config (DatasetProducer.producer self);
            Kafka.produced :=
              Kafka.produced (DatasetProducer.producer self)
              ++ [wire_record now self p key];
            Kafka.polls := S (Kafka.polls (DatasetProducer.producer self));
            Kafka.flushes :=
              S (Kafka.flushes (DatasetProducer.producer self)) |}).
Proof.
  intros Hk. unfold DatasetProducer.produce, wire_record.
  unfold bind at 1, get. unfold bind at 1.
  unfold DatasetProducer.on_producer at 1, on_field, Kafka.producer_poll.
  unfold bind at 1.
  assert (Hkey :
    forall s : DatasetProducer.t,
      match key with
      | Some k => bind (DatasetProducer.encode k) (fun b => ret (Some b))
      | None => ret None
      end s
      = Return (match key with
                | Some k => utf8_encode k
                | None => None
                end) s).
  { intros s. destruct key as [k |]; [| reflexivity].
    unfold bind, DatasetProducer.encode. cbn in Hk.
    destruct (utf8_encode k); [reflexivity | discriminate]. }
  rewrite Hkey. unfold bind at 1, DatasetProducer.encode.
  rewrite utf8_encode_ascii by apply dumps_ascii.
  reflexivity.
Qed.

(** *** Produce, then consume *)

(** C2: for a JSON-representable payload [p] (nulls, booleans,
    integers, floats that are numbers, text, lists and dicts of these),
    [produce] wraps [p] in an envelope, serialises it with [json.dumps]
    and hands the UTF-8 bytes to Kafka; a consumer that polls this record
    in "next" mode decodes it, parses it with [json.loads], validates the
    envelope and returns an envelope whose [message] is [p]. *)
Theorem produce_then_consume_round_trip
    (now : str) (self : DatasetProducer.t) (p : json) (key : option str)
    (now' : str) (budget : nat) (timeout : option Q) (reader : DC.t)
    (d : Kafka.delivery) (rest : list Kafka.delivery) :
  is_str now = true ->
  is_str (DatasetProducer.dataset self) = true ->
  is_str (DatasetProducer.source_node self) = true ->
  is_str (DatasetProducer.source_pipeline self) = true ->
  json_representable p = true ->
  key_encodes key = true ->
  Kafka.incoming (DC.consumer reader) = d :: rest ->
  Kafka.yields d = Kafka.Polled (as_polled (wire_record now self p key)) ->
  exists self' w reader',
    DatasetProducer.produce now p key self = Return tt self'
    /\ Kafka.produced (DatasetProducer.producer self')
       = Kafka.produced (DatasetProducer.producer self)
         ++ [wire_record now self p key]
    /\ DC.consume now' budget (lit "next") timeout reader
       = Return (Some w) reader'
    /\ message w = p
    /\ Kafka.incoming (DC.consumer reader') = rest.
Proof.
  intros Hnow Hds Hnode Hpipe Hp Hkey Hin Hd.
  destruct (poll_incoming (poll_timeout reader timeout) _ Hin)
    as [c' [Hc' Hpoll]].
  rewrite Hd in Hpoll.
  eexists. eexists. eexists.
  split; [apply produce_returns; exact Hkey |].
  split; [reflexivity |].
  rewrite consume_next, Hpoll. unfold after_poll, as_polled, wire_record.
  cbn [Kafka.payload_bytes].
  rewrite validate_wire.
  - split; [reflexivity |]. split; [| exact Hc'].
    cbn. apply decoded_representable. exact Hp.
  - unfold is_py_envelope, DatasetProducer.envelope.
    cbn [timestamp dataset source_node source_pipeline message].
    rewrite Hnow, Hds, Hnode, Hpipe, (representable_is_py _ Hp).
    reflexivity.
Qed.

Lemma produce_then_consume_round_trip_witness :
  json_representable payload_nested = true
  /\ exists self' w reader',
       DatasetProducer.produce sample_now payload_nested None sample_producer
       = Return tt self'
       /\ DC.consume sample_now 0 (lit "next") None
            (sample_consumer
               (List.map delivering (published [payload_nested])))
          = Return (Some w) reader'
       /\ message w = payload_nested.
Proof.
  split; [reflexivity |].
  destruct
    (produce_then_consume_round_trip
       sample_now sample_producer payload_nested None
       sample_now 0 None
       (sample_consumer (List.map delivering (published [payload_nested])))
       (delivering
          (as_polled
             (wire_record sample_now sample_producer payload_nested None)))
       []
       eq_refl eq_refl eq_refl eq_refl eq_refl eq_refl
       ltac:(vm_compute; reflexivity) eq_refl)
    as [self' [w [reader' [Hproduce [_ [Hconsume [Hmessage _]]]]]]].
  exists self', w, reader'.
  split; [exact Hproduce |]. split; [exact Hconsume | exact Hmessage].
Defined.

(* ================================================================== *)
(** * Further properties *)

Local Close Scope N_scope.

(** ** Strings and dictionaries *)

Lemma str_eqb_eq a b : str_eqb a b = true <-> a = b.
Proof.
  revert b. induction a as [| x a IH]; intros [| y b]; cbn;
    try (split; [discriminate | discriminate]); [tauto |].
  rewrite andb_true_iff, N.eqb_eq, IH.
  split; [intros [-> ->]; reflexivity | intros H; inversion H; auto].
Qed.

Lemma str_eqb_refl a : str_eqb a a = true.
Proof. apply str_eqb_eq. reflexivity. Qed.

Lemma str_eqb_neq a b : a <> b -> str_eqb a b = false.
Proof.
  intros H. destruct (str_eqb a b) eqn:E; [| reflexivity].
  apply str_eqb_eq in E. contradiction.
Qed.

Lemma str_eqb_sym a b : str_eqb a b = str_eqb b a.
Proof.
  destruct (str_eqb b a) eqn:E.
  - apply str_eqb_eq in E. subst. apply str_eqb_refl.
  - destruct (str_eqb a b) eqn:E'; [| reflexivity].
    apply str_eqb_eq in E'. subst. rewrite str_eqb_refl in E. discriminate.
Qed.

(** Reading a key that was just set gives the value set. *)
Lemma dict_get_set_same d k v : dict_get (dict_set d k v) k = Some v.
Proof.
  induction d as [| [k' v'] d IH]; cbn.
  - rewrite str_eqb_refl. reflexivity.
  - destruct (str_eqb k' k) eqn:E; cbn; rewrite E; [reflexivity | exact IH].
Qed.

(** Setting a key leaves the other keys as they were. *)
Lemma dict_get_set_other d k v k0 :
  k0 <> k -> dict_get (dict_set d k v) k0 = dict_get d k0.
Proof.
  intros H. induction d as [| [k' v'] d IH]; cbn.
  - rewrite (str_eqb_neq k k0) by congruence. reflexivity.
  - destruct (str_eqb k' k) eqn:E; cbn.
    + apply str_eqb_eq in E. subst k'.
      rewrite (str_eqb_neq k k0) by congruence. reflexivity.
    + destruct (str_eqb k' k0); [reflexivity | exact IH].
Qed.

Lemma dict_get_absent_in_distinct k (rest : dict) :
  distinct (k :: List.map fst rest) = true -> dict_get rest k = None.
Proof.
  cbn [distinct]. intros H. apply andb_prop in H. destruct H as [H _].
  apply negb_true_iff in H.
  induction rest as [| [k' v'] rest IH]; [reflexivity |].
  cbn in H |- *. apply orb_false_iff in H. destruct H as [H1 H2].
  rewrite str_eqb_sym, H1. apply IH. exact H2.
Qed.

(** Writing the items of a dict into another, one after the other: the
    items written win over what was there. *)
Lemma dict_get_update (ps : dict) : forall (d : dict) k,
  distinct (List.map fst ps) = true ->
  dict_get (fold_left (fun c pv => dict_set c (fst pv) (snd pv)) ps d) k
  = match dict_get ps k with
    | Some v => Some v
    | None => dict_get d k
    end.
Proof.
  induction ps as [| [k' v'] ps IH]; intros d k Hd; [reflexivity |].
  cbn [fold_left fst snd List.map dict_get] in *.
  pose proof (dict_get_absent_in_distinct k' ps Hd) as Habs.
  cbn [distinct] in Hd. apply andb_prop in Hd. destruct Hd as [_ Hd].
  rewrite IH by exact Hd.
  destruct (str_eqb k' k) eqn:E.
  - apply str_eqb_eq in E. subst k'. rewrite Habs.
    apply dict_get_set_same.
  - destruct (dict_get ps k); [reflexivity |].
    apply dict_get_set_other. intros ->. rewrite str_eqb_refl in E.
    discriminate.
Qed.

(** ** Unknown read modes *)

Lemma unknown_how how :
  how <> lit "next" -> how <> lit "last" ->
  negb (str_eqb how (lit "next") || str_eqb how (lit "last")) = true.
Proof.
  intros H1 H2. rewrite (str_eqb_neq _ _ H1), (str_eqb_neq _ _ H2).
  reflexivity.
Qed.

(** X1: [consume] called with a mode other than "next" and "last" raises
    [ValueError] and leaves the consumer untouched (no call reaches the
    Kafka client); the blocking wrapper does not retry it but raises it at
    once; the fake consumer raises [ValueError] as well. *)
Theorem consume_rejects_unknown_how now budget how timeout self fake :
  how <> lit "next" -> how <> lit "last" ->
  DC.consume now budget how timeout self
  = Raise (ValueError (DC.invalid_how how)) self
  /\ DC._consume_message now (S budget) how timeout self
     = Raise (ValueError (DC.invalid_how how)) self
  /\ FakeDatasetConsumer.consume now how timeout fake
     = Raise (ValueError (FakeDatasetConsumer.invalid_how how)) fake.
Proof.
  intros H1 H2.
  assert (E : DC.consume now budget how timeout self
              = Raise (ValueError (DC.invalid_how how)) self).
  { unfold DC.consume. rewrite (unknown_how how H1 H2). reflexivity. }
  split; [exact E |]. split.
  - rewrite consume_message_step, E. reflexivity.
  - unfold FakeDatasetConsumer.consume. rewrite (unknown_how how H1 H2).
    reflexivity.
Qed.

Lemma consume_rejects_unknown_how_witness :
  DC.consume sample_now 2 (lit "bogus") None (sample_consumer [idle_poll])
  = Raise (ValueError (lit "Invalid how: bogus. Expected `next` or `last`."))
          (sample_consumer [idle_poll])
  /\ FakeDatasetConsumer.consume sample_now (lit "bogus") None
       (sample_fake [JInt 1])
     = Raise (ValueError (lit "Invalid how: bogus. Expected 'next' or 'last'."))
             (sample_fake [JInt 1]).
Proof.
  pose proof
    (consume_rejects_unknown_how sample_now 2 (lit "bogus") None
       (sample_consumer [idle_poll]) (sample_fake [JInt 1])
       ltac:(discriminate) ltac:(discriminate)) as [H1 [_ H3]].
  split; [exact H1 | exact H3].
Defined.

(** ** Configuration of the clients *)

Section Configuration.

Variables (defaults : KafkaConfig) (stream_type : option str).
Variable broker : Kafka.Broker.
Variables dataset_name node_name pipeline_name : str.
Variables bootstrap_servers prefix : option str.
Variable has_pipeline_prefix : bool.

(** X2: the consumer's [name] is [[prefix.]pipeline.node], and it is the
    [group.id] the Kafka client is created with, whatever the defaults and
    the dataset parameters say about [group.id]. *)
Theorem consumer_group_id_is_its_name config c :
  DC.__init__ defaults stream_type broker dataset_name node_name
    pipeline_name config bootstrap_servers prefix has_pipeline_prefix
  = Ok c ->
  DC.name c = consumer_identity pipeline_name node_name prefix
  /\ dict_get (Kafka.config (DC.consumer c)) group_id_key
     = Some (JStr (DC.name c)).
Proof.
  unfold DC.__init__, consumer_identity, segment, group_id_key.
  destruct config as [d | m]; [destruct (Dataset_of _) | ];
    try discriminate;
    destruct (truthy_str prefix);
    intros H; inversion H; subst; clear H; cbn [DC.name DC.consumer];
    (split; [rewrite <- ?app_assoc; reflexivity |]);
    unfold Kafka.subscribed_to, Kafka.logged, Kafka.Consumer_new;
    cbn [Kafka.config]; apply dict_get_set_same.
Qed.

(** X3: for every key but [group.id], the configuration of the consumer's
    Kafka client is read, in this order, from the dataset parameters, from
    the [bootstrap_servers] argument (for [bootstrap.servers], when given
    and not empty) and from the default consumer configuration. *)
Theorem consumer_config_precedence m c k :
  DC.__init__ defaults stream_type broker dataset_name node_name
    pipeline_name (ConfigModel m) bootstrap_servers prefix
    has_pipeline_prefix
  = Ok c ->
  distinct (List.map fst (match params m with Some p => p | None => [] end))
  = true ->
  k <> group_id_key ->
  dict_get (Kafka.config (DC.consumer c)) k
  = match dict_get (match params m with Some p => p | None => [] end) k with
    | Some v => Some v
    | None =>
        if truthy_str bootstrap_servers && str_eqb k bootstrap_servers_key
        then Some (json_of_opt_str bootstrap_servers)
        else dict_get (CONSUMER_CONFIG defaults) k
    end.
Proof.
  intros Hc Hd Hk.
  assert (E : Kafka.config (DC.consumer c)
              = dict_set
                  (fold_left (fun c pv => dict_set c (fst pv) (snd pv))
                     (match params m with Some p => p | None => [] end)
                     (if truthy_str bootstrap_servers
                      then dict_set (CONSUMER_CONFIG defaults)
                             bootstrap_servers_key
                             (json_of_opt_str bootstrap_servers)
                      else CONSUMER_CONFIG defaults))
                  group_id_key (JStr (DC.name c))).
  { unfold DC.__init__ in Hc.
    destruct (truthy_str prefix); inversion Hc; reflexivity. }
  rewrite E, dict_get_set_other by exact Hk.
  rewrite dict_get_update by exact Hd.
  destruct (dict_get _ k); [reflexivity |].
  destruct (truthy_str bootstrap_servers); [| reflexivity].
  cbn [andb]. destruct (str_eqb k bootstrap_servers_key) eqn:Eb.
  - apply str_eqb_eq in Eb. subst k. apply dict_get_set_same.
  - apply dict_get_set_other. intros ->. rewrite str_eqb_refl in Eb.
    discriminate.
Qed.

(** Copying the overridable parameters, one after the other. *)
Lemma dict_get_overridables (ps : dict) (os : list str) : forall (d : dict) k,
  dict_get
    (fold_left
       (fun c param =>
          match dict_get ps param with
          | Some v => dict_set c param v
          | None => c
          end) os d) k
  = if key_in k os
    then match dict_get ps k with
         | Some v => Some v
         | None => dict_get d k
         end
    else dict_get d k.
Proof.
  induction os as [| o os IH]; intros d k; [reflexivity |].
  cbn [fold_left key_in existsb]. rewrite IH. fold (key_in k os).
  destruct (str_eqb k o) eqn:E.
  - apply str_eqb_eq in E. subst o. cbn [orb].
    destruct (dict_get ps k) as [v |] eqn:Ep.
    + rewrite dict_get_set_same. destruct (key_in k os); reflexivity.
    + destruct (key_in k os); reflexivity.
  - cbn [orb].
    assert (Ho : dict_get
                   match dict_get ps o with
                   | Some v => dict_set d o v
                   | None => d
                   end k = dict_get d k).
    { destruct (dict_get ps o); [| reflexivity].
      apply dict_get_set_other. intros ->. rewrite str_eqb_refl in E.
      discriminate. }
    rewrite Ho. reflexivity.
Qed.

(** X4: the producer's Kafka client takes from the dataset parameters
    only the keys listed in [PRODUCER_OVERRIDABLES]; every other key keeps
    the value of the default producer configuration, whatever the dataset
    parameters hold for it. *)
Theorem producer_config_overridables m p k :
  DatasetProducer.__init__ defaults dataset_name node_name pipeline_name
    (ConfigModel m) prefix has_pipeline_prefix = Ok p ->
  Kafka.producer_config (DatasetProducer.producer p)
  = PRODUCER_CONFIG (DatasetProducer.kafka_config p)
  /\ dict_get (Kafka.producer_config (DatasetProducer.producer p)) k
     = if key_in k (PRODUCER_OVERRIDABLES defaults)
       then match dict_get (match params m with Some ps => ps | None => [] end) k
            with
            | Some v => Some v
            | None => dict_get (PRODUCER_CONFIG defaults) k
            end
       else dict_get (PRODUCER_CONFIG defaults) k.
Proof.
  unfold DatasetProducer.__init__. intros H. inversion H; subst; clear H.
  cbn [DatasetProducer.producer DatasetProducer.kafka_config
       Kafka.Producer_new Kafka.producer_config with_PRODUCER_CONFIG
       PRODUCER_CONFIG].
  split; [reflexivity |].
  destruct (params m) as [[| kv ps] |].
  - destruct (key_in k _); reflexivity.
  - apply dict_get_overridables.
  - destruct (key_in k _); reflexivity.
Qed.

End Configuration.

(** ** Blocking reads *)

Section BlockingReads.

Variable now : str.

(** X5: the blocking [next()] goes past the polls that give no record
    and the records that validate to [None] (an empty record, one the
    broker flags with an error, a text that is not JSON), and returns the
    envelope of the first record that validates; what the broker holds
    behind that record stays unread. *)
Theorem next_returns_first_valid_message pre : forall budget self d rest w,
  Kafka.incoming (DC.consumer self) = pre ++ d :: rest ->
  forallb (passed_over now) pre = true ->
  delivered now d = Some w ->
  (List.length pre < budget)%nat ->
  exists self',
    DC.next now budget self = Return w self'
    /\ Kafka.incoming (DC.consumer self') = rest
    /\ DC.cached self' = true.
Proof.
  unfold DC.next.
  induction pre as [| d0 pre IH]; intros budget self d rest w Hin Hpre Hd Hb;
    (destruct budget as [| budget]; [cbn in Hb; lia |]);
    rewrite consume_message_step, consume_next;
    cbn [app] in Hin;
    destruct (poll_incoming (poll_timeout self None) _ Hin)
      as [c' [Hc' Hpoll]];
    rewrite Hpoll.
  - unfold delivered in Hd.
    destruct (Kafka.yields d) as [| m | e]; try discriminate.
    unfold after_poll, of_result.
    destruct (DC._validate_message now (Some m)) as [[w' |] | e];
      try discriminate.
    inversion Hd; subst w'.
    eexists. split; [reflexivity |]. split; [exact Hc' | reflexivity].
  - cbn [forallb] in Hpre. apply andb_prop in Hpre.
    destruct Hpre as [H0 Hpre]. unfold passed_over in H0.
    cbn [List.length] in Hb.
    destruct (Kafka.yields d0) as [| m | e].
    + unfold after_poll. cbn.
      apply IH with (d := d); auto; lia.
    + unfold after_poll, of_result.
      destruct (DC._validate_message now (Some m)) as [[w' |] | e];
        try discriminate.
      apply IH with (d := d); auto; lia.
    + discriminate.
Qed.

(** A turn of the wait for an assignment. *)
Lemma while_not_partitions_step budget c :
  DC.while_not_partitions (S budget) [] c
  = match Kafka.poll (Some 0%Q) c with
    | Return _ c1 =>
        DC.while_not_partitions budget (Kafka.assigned c1)
          (Kafka.logged c1 Kafka.CallAssignment)
    | Raise e c1 => Raise e c1
    | Running => Running
    end.
Proof.
  cbn [DC.while_not_partitions]. unfold bind at 1.
  destruct (Kafka.poll (Some 0%Q) c); reflexivity.
Qed.

Lemma poll_quiet timeout c d rest :
  Kafka.incoming c = d :: rest ->
  poll_raises d = false ->
  exists m c',
    Kafka.poll timeout c = Return m c'
    /\ Kafka.incoming c' = rest
    /\ Kafka.assigned c'
       = match Kafka.rebalance d with
         | Some ps => ps
         | None => Kafka.assigned c
         end
    /\ same_client c c'.
Proof.
  intros Hin Hd. unfold Kafka.poll.
  change (Kafka.incoming (Kafka.logged c (Kafka.CallPoll timeout)))
    with (Kafka.incoming c).
  rewrite Hin. unfold poll_raises in Hd.
  destruct (Kafka.yields d); try discriminate;
    eexists; eexists; (split; [reflexivity |]);
    repeat split.
Qed.

Lemma same_client_logged c c' x :
  same_client c c' -> same_client c (Kafka.logged c' x).
Proof. intros H. exact H. Qed.

Lemma same_client_trans c1 c2 c3 :
  same_client c1 c2 -> same_client c2 c3 -> same_client c1 c3.
Proof.
  intros [A1 [A2 A3]] [B1 [B2 B3]].
  repeat split; congruence.
Qed.

(** The wait ends at the first poll that completes a rebalance. *)
Lemma while_not_partitions_waits pre : forall budget c d rest p ps,
  Kafka.assigned c = [] ->
  Kafka.incoming c = pre ++ d :: rest ->
  forallb leaves_unassigned pre = true ->
  Kafka.rebalance d = Some (p :: ps) ->
  poll_raises d = false ->
  (List.length pre < budget)%nat ->
  exists c',
    DC.while_not_partitions budget [] c = Return (p :: ps) c'
    /\ Kafka.incoming c' = rest
    /\ Kafka.assigned c' = p :: ps
    /\ same_client c c'.
Proof.
  induction pre as [| d0 pre IH];
    intros budget c d rest p ps Ha Hin Hpre Hd Hr Hb;
    (destruct budget as [| budget]; [cbn in Hb; lia |]);
    rewrite while_not_partitions_step; cbn [app] in Hin.
  - destruct (poll_quiet (Some 0%Q) c d rest Hin Hr)
      as [m [c1 [Hpoll [Hin1 [Ha1 Hs]]]]].
    rewrite Hpoll, Ha1, Hd.
    rewrite while_not_partitions_assigned.
    eexists. split; [reflexivity |].
    split; [exact Hin1 |]. split; [| exact Hs].
    cbn. rewrite Ha1, Hd. reflexivity.
  - cbn [forallb] in Hpre. apply andb_prop in Hpre.
    destruct Hpre as [H0 Hpre]. unfold leaves_unassigned in H0.
    apply andb_prop in H0. destruct H0 as [H0 H0'].
    assert (Hq : poll_raises d0 = false).
    { unfold poll_raises. destruct (Kafka.yields d0); auto; discriminate. }
    destruct (poll_quiet (Some 0%Q) c d0 (pre ++ d :: rest) Hin Hq)
      as [m [c1 [Hpoll [Hin1 [Ha1 Hs]]]]].
    assert (Ha1' : Kafka.assigned c1 = []).
    { rewrite Ha1. destruct (Kafka.rebalance d0) as [[| q qs] |];
        [reflexivity | discriminate | exact Ha]. }
    rewrite Hpoll, Ha1'.
    destruct (IH budget (Kafka.logged c1 Kafka.CallAssignment) d rest p ps)
      as [c' [Hrun [Hin' [Ha' Hs']]]]; auto.
    + cbn [List.length] in Hb. lia.
    + exists c'. split; [exact Hrun |]. split; [exact Hin' |].
      split; [exact Ha' |].
      exact (same_client_trans c c1 c' Hs Hs').
Qed.

Lemma forallb_pointwise {A} (f g : A -> bool) l :
  (forall x, f x = g x) -> forallb f l = forallb g l.
Proof.
  intros H. induction l as [| x l IH]; [reflexivity |].
  cbn. rewrite H, IH. reflexivity.
Qed.

Lemma sought_same_client c c' cached p :
  same_client c c' -> sought c' cached p = sought c cached p.
Proof. intros [_ [_ H]]. unfold sought. rewrite H. reflexivity. Qed.

Lemma watermark_available_same_client c c' cached p :
  same_client c c' ->
  watermark_available c' cached p = watermark_available c cached p.
Proof. intros [_ [_ H]]. unfold watermark_available. rewrite H. reflexivity. Qed.

(** X6: on a consumer without partitions, [_update_offset_to_latest]
    polls with the timeout 0 until a poll completes a rebalance, then
    seeks the partitions it was given.  The records those polls returned
    are dropped: the operation returns nothing and the broker's queue has
    moved past them. *)
Theorem update_offset_to_latest_waits_for_assignment
    budget self pre d rest p ps :
  Kafka.assigned (DC.consumer self) = [] ->
  Kafka.incoming (DC.consumer self) = pre ++ d :: rest ->
  forallb leaves_unassigned pre = true ->
  Kafka.rebalance d = Some (p :: ps) ->
  poll_raises d = false ->
  forallb (watermark_available (DC.consumer self) (DC.cached self)) (p :: ps)
  = true ->
  (List.length pre < budget)%nat ->
  exists self',
    DC._update_offset_to_latest budget self = Return tt self'
    /\ Kafka.assigned (DC.consumer self')
       = List.map (sought (DC.consumer self) (DC.cached self)) (p :: ps)
    /\ Kafka.incoming (DC.consumer self') = rest.
Proof.
  intros Ha Hin Hpre Hd Hr Hw Hb.
  unfold DC._update_offset_to_latest, bind, get, DC.on_consumer, on_field.
  unfold Kafka.assignment at 1.
  change (Kafka.assigned (Kafka.logged (DC.consumer self) Kafka.CallAssignment))
    with (Kafka.assigned (DC.consumer self)).
  rewrite Ha.
  destruct (while_not_partitions_waits pre budget
              (Kafka.logged (DC.consumer self) Kafka.CallAssignment)
              d rest p ps Ha Hin Hpre Hd Hr Hb)
    as [c' [Hrun [Hin' [Ha' Hs]]]].
  rewrite Hrun.
  rewrite for_partition_returns.
  - unfold Kafka.assign. eexists. split; [reflexivity |].
    cbn [DC.consumer DC.set_consumer Kafka.assigned Kafka.incoming
         Kafka.logged logged_all].
    split; [| exact Hin'].
    apply map_ext. intros q. apply sought_same_client. exact Hs.
  - rewrite <- Hw. apply forallb_pointwise. intros q.
    apply watermark_available_same_client. exact Hs.
Qed.

End BlockingReads.

(** ** What the reads never do *)

Section Reads.

Variable now : str.

Lemma poll_empty timeout c :
  Kafka.incoming c = [] ->
  Kafka.poll timeout c = Return None (Kafka.logged c (Kafka.CallPoll timeout)).
Proof.
  intros H. unfold Kafka.poll.
  change (Kafka.incoming (Kafka.logged c (Kafka.CallPoll timeout)))
    with (Kafka.incoming c).
  rewrite H. reflexivity.
Qed.

(** Without a rebalance, the wait for an assignment uses up any budget. *)
Lemma while_not_partitions_runs budget : forall c,
  Kafka.assigned c = [] ->
  forallb leaves_unassigned (Kafka.incoming c) = true ->
  DC.while_not_partitions budget [] c = Running.
Proof.
  induction budget as [| budget IH]; intros c Ha Hq; [reflexivity |].
  rewrite while_not_partitions_step.
  destruct (Kafka.incoming c) as [| d rest] eqn:Hin.
  - rewrite poll_empty by exact Hin. cbn [Kafka.assigned Kafka.logged].
    rewrite Ha. apply IH; [exact Ha |]. cbn. rewrite Hin. reflexivity.
  - cbn [forallb] in Hq. apply andb_prop in Hq. destruct Hq as [H0 Hq].
    unfold leaves_unassigned in H0. apply andb_prop in H0.
    destruct H0 as [H0 H0'].
    assert (Hr : poll_raises d = false).
    { unfold poll_raises. destruct (Kafka.yields d); auto; discriminate. }
    destruct (poll_quiet (Some 0%Q) c d rest Hin Hr)
      as [m [c1 [Hpoll [Hin1 [Ha1 _]]]]].
    assert (Ha1' : Kafka.assigned c1 = []).
    { rewrite Ha1. destruct (Kafka.rebalance d) as [[| q qs] |];
        [reflexivity | discriminate | exact Ha]. }
    rewrite Hpoll, Ha1'. apply IH; [exact Ha1' |].
    cbn. rewrite Hin1. exact Hq.
Qed.

(** X7: as long as no poll completes a rebalance, a consumer without
    partitions never gets out of [_update_offset_to_latest]: whatever the
    number of turns allowed, the operation is still running, and so are a
    "last"-mode [consume] and the blocking [last]. *)
Theorem last_mode_waits_for_ever_without_assignment
    budget timeout blocking_timeout self :
  Kafka.assigned (DC.consumer self) = [] ->
  forallb leaves_unassigned (Kafka.incoming (DC.consumer self)) = true ->
  (0 < blocking_timeout)%Q ->
  DC._update_offset_to_latest budget self = Running
  /\ DC.consume now budget (lit "last") timeout self = Running
  /\ DC.last now (S budget) blocking_timeout self = Running.
Proof.
  intros Ha Hq Ht.
  assert (E : DC._update_offset_to_latest budget self = Running).
  { unfold DC._update_offset_to_latest, bind, get, DC.on_consumer, on_field.
    unfold Kafka.assignment at 1.
    change (Kafka.assigned
              (Kafka.logged (DC.consumer self) Kafka.CallAssignment))
      with (Kafka.assigned (DC.consumer self)).
    rewrite Ha, while_not_partitions_runs; [reflexivity | exact Ha | exact Hq]. }
  split; [exact E |].
  assert (E' : forall t, DC.consume now budget (lit "last") t self = Running).
  { intros t. rewrite consume_last, E. reflexivity. }
  split; [apply E' |].
  unfold DC.last.
  destruct (Qle_bool blocking_timeout 0) eqn:Hle.
  - apply Qle_bool_iff in Hle. exfalso.
    exact (Qlt_not_le _ _ Ht Hle).
  - rewrite consume_message_step, E'. reflexivity.
Qed.

(** X8: [consume_all] never returns when the end message never comes:
    if nothing the broker holds raises or carries the end message, the
    loop is still running after any number of turns. *)
Theorem consume_all_runs_without_end_message budget end_message :
  forall self ws,
    kept now end_message (Kafka.incoming (DC.consumer self)) = Some ws ->
    DC.consume_all now budget end_message self = Running.
Proof.
  unfold DC.consume_all. generalize (@nil MessageData) as messages.
  induction budget as [| budget IH]; intros messages self ws Hk;
    [reflexivity |].
  cbn [DC.consume_all_loop]. unfold bind at 1. rewrite consume_next.
  destruct (Kafka.incoming (DC.consumer self)) as [| d rest] eqn:Hin.
  - rewrite poll_empty by exact Hin. unfold after_poll. cbn.
    apply IH with (ws := []). cbn. rewrite Hin. reflexivity.
  - destruct (poll_incoming (poll_timeout self None) _ Hin)
      as [c' [Hc' Hpoll]].
    rewrite Hpoll. cbn [kept] in Hk.
    destruct (Kafka.yields d) as [| m | e]; [| | discriminate].
    + unfold after_poll. cbn.
      apply IH with (ws := ws). cbn. rewrite Hc'. exact Hk.
    + unfold after_poll, of_result.
      destruct (DC._validate_message now (Some m)) as [[w |] | e];
        [| | discriminate].
      * destruct (py_eq (message w) end_message); [discriminate |].
        destruct (kept now end_message rest) as [ws' |] eqn:Ek;
          [| discriminate].
        apply IH with (ws := ws'). cbn. rewrite Hc'. exact Ek.
      * apply IH with (ws := ws). cbn. rewrite Hc'. exact Hk.
Qed.

(** X9: on a consumer that has partitions, [_update_offset_to_latest]
    does not poll: it asks for the assignment, asks for the watermarks of
    each partition once, in order, passing the [cached] flag, and assigns
    the partitions at their new offsets; the broker's queue is left as it
    was. *)
Theorem update_offset_to_latest_calls budget self p ps :
  Kafka.assigned (DC.consumer self) = p :: ps ->
  forallb (watermark_available (DC.consumer self) (DC.cached self)) (p :: ps)
  = true ->
  exists self',
    DC._update_offset_to_latest budget self = Return tt self'
    /\ Kafka.calls (DC.consumer self')
       = Kafka.calls (DC.consumer self)
         ++ Kafka.CallAssignment
            :: List.map (watermark_call (DC.cached self)) (p :: ps)
         ++ [Kafka.CallAssign
               (List.map (sought (DC.consumer self) (DC.cached self))
                  (p :: ps))]
    /\ Kafka.incoming (DC.consumer self')
       = Kafka.incoming (DC.consumer self).
Proof.
  intros Hps Hw.
  unfold DC._update_offset_to_latest, bind, get, DC.on_consumer, on_field.
  unfold Kafka.assignment at 1.
  change (Kafka.assigned (Kafka.logged (DC.consumer self) Kafka.CallAssignment))
    with (Kafka.assigned (DC.consumer self)).
  rewrite Hps, while_not_partitions_assigned, logged_as_all.
  rewrite (@for_partition_returns (DC.cached self) (p :: ps)
             (logged_all (DC.consumer self) [Kafka.CallAssignment]));
    [| exact Hw].
  unfold Kafka.assign. eexists. split; [reflexivity |].
  cbn [DC.consumer DC.set_consumer Kafka.calls Kafka.incoming Kafka.logged
       logged_all].
  split; [| reflexivity].
  rewrite <- !app_assoc. reflexivity.
Qed.

End Reads.

(** ** What reading leaves alone *)

Section Identity.

Variable now : str.

Lemma same_client_refl c : same_client c c.
Proof. repeat split. Qed.

Lemma poll_same_client timeout c c' :
  state_after (Kafka.poll timeout c) = Some c' -> same_client c c'.
Proof.
  unfold Kafka.poll.
  destruct (Kafka.incoming (Kafka.logged c (Kafka.CallPoll timeout)))
    as [| d rest]; [| destruct (Kafka.yields d)];
    cbn; intros H; inversion H; repeat split.
Qed.

(** Calls that keep the client's configuration, subscription and
    watermarks, however they end. *)
Lemma keeps_client_bind {A B} (m : M Kafka.Consumer A)
    (k : A -> M Kafka.Consumer B) :
  keeps_client m -> (forall a, keeps_client (k a)) ->
  keeps_client (bind m k).
Proof.
  intros Hm Hk c c'. unfold bind.
  destruct (m c) as [a c1 | e c1 |] eqn:E.
  - intros H. apply same_client_trans with (c2 := c1).
    + apply Hm. rewrite E. reflexivity.
    + exact (Hk a c1 c' H).
  - cbn. intros H. inversion H; subst. apply Hm. rewrite E. reflexivity.
  - discriminate.
Qed.

Lemma keeps_client_ret {A} (a : A) : keeps_client (ret a).
Proof. intros c c' H. inversion H. apply same_client_refl. Qed.

Lemma keeps_client_poll timeout : keeps_client (Kafka.poll timeout).
Proof. intros c c'. apply poll_same_client. Qed.

Lemma keeps_client_assignment : keeps_client Kafka.assignment.
Proof. intros c c' H. inversion H. repeat split. Qed.

Lemma keeps_client_assign ps : keeps_client (Kafka.assign ps).
Proof. intros c c' H. inversion H. repeat split. Qed.

Lemma keeps_client_get_watermark_offsets p cached :
  keeps_client (Kafka.get_watermark_offsets p cached).
Proof.
  intros c c'. unfold Kafka.get_watermark_offsets.
  destruct (Kafka.watermarks _ p cached); cbn; intros H; inversion H;
    repeat split.
Qed.

Lemma keeps_client_while_not_partitions budget : forall ps,
  keeps_client (DC.while_not_partitions budget ps).
Proof.
  induction budget as [| budget IH]; intros [| p ps];
    cbn [DC.while_not_partitions];
    try apply keeps_client_ret.
  - intros c c' H. discriminate.
  - apply keeps_client_bind; [apply keeps_client_poll |]. intros _.
    apply keeps_client_bind; [apply keeps_client_assignment |]. intros ps.
    apply IH.
Qed.

Lemma keeps_client_for_partition cached ps :
  keeps_client (DC.for_partition cached ps).
Proof.
  induction ps as [| p ps IH]; cbn [DC.for_partition];
    [apply keeps_client_ret |].
  apply keeps_client_bind; [apply keeps_client_get_watermark_offsets |].
  intros marks.
  apply keeps_client_bind; [exact IH |]. intros rest.
  apply keeps_client_ret.
Qed.

Lemma same_identity_refl s : same_identity s s.
Proof. repeat split. Qed.

Lemma same_identity_trans s1 s2 s3 :
  same_identity s1 s2 -> same_identity s2 s3 -> same_identity s1 s3.
Proof.
  unfold same_identity. intros H1 H2.
  repeat match goal with
         | H : _ /\ _ |- _ => destruct H
         end.
  repeat split; congruence.
Qed.

Lemma same_identity_set_consumer s c :
  same_client (DC.consumer s) c -> same_identity s (DC.set_consumer s c).
Proof. intros [H1 [H2 H3]]. repeat split; assumption. Qed.

Lemma same_identity_with_cached s b : same_identity s (DC.with_cached s b).
Proof. repeat split. Qed.

(** The seek changes neither what the consumer is, nor its [cached]
    flag. *)
Lemma update_offset_to_latest_same_identity budget self s' :
  state_after (DC._update_offset_to_latest budget self) = Some s' ->
  same_identity self s' /\ DC.cached s' = DC.cached self.
Proof.
  unfold DC._update_offset_to_latest, bind at 1, get,
    DC.on_consumer, on_field.
  match goal with
  | |- context [match ?m ?c with Return _ _ => _ | Raise _ _ => _ | Running => _ end] =>
      assert (Hk : keeps_client m);
      [| destruct (m c) as [a c1 | e c1 |] eqn:Hm ]
  end.
  - apply keeps_client_bind; [apply keeps_client_assignment |]. intros ps.
    apply keeps_client_bind; [apply keeps_client_while_not_partitions |].
    intros ps'.
    apply keeps_client_bind; [apply keeps_client_for_partition |].
    intros ps''. apply keeps_client_assign.
  - cbn. intros H. inversion H; subst. split; [| reflexivity].
    apply same_identity_set_consumer, Hk. rewrite Hm. reflexivity.
  - cbn. intros H. inversion H; subst. split; [| reflexivity].
    apply same_identity_set_consumer, Hk. rewrite Hm. reflexivity.
  - discriminate.
Qed.

Lemma after_poll_same_identity self polled s' :
  (forall c, state_after polled = Some c ->
             same_client (DC.consumer self) c) ->
  state_after (after_poll now self polled) = Some s' ->
  same_identity self s'.
Proof.
  intros Hc. destruct polled as [m c | e c |]; cbn.
  - unfold of_result.
    destruct (DC._validate_message now m); cbn; intros H; inversion H;
      apply same_identity_trans with (s2 := DC.set_consumer self c);
      try apply same_identity_with_cached;
      apply same_identity_set_consumer, Hc; reflexivity.
  - intros H; inversion H.
    apply same_identity_set_consumer, Hc; reflexivity.
  - discriminate.
Qed.

Lemma consume_same_identity budget how timeout self s' :
  state_after (DC.consume now budget how timeout self) = Some s' ->
  same_identity self s'.
Proof.
  destruct (str_eqb how (lit "next")) eqn:E1.
  - apply str_eqb_eq in E1. subst how. rewrite consume_next.
    apply after_poll_same_identity. intros c.
    apply poll_same_client.
  - destruct (str_eqb how (lit "last")) eqn:E2.
    + apply str_eqb_eq in E2. subst how. rewrite consume_last.
      destruct (DC._update_offset_to_latest budget self)
        as [[] s1 | e s1 |] eqn:Hu.
      * intros H.
        apply same_identity_trans with (s2 := s1).
        -- apply (update_offset_to_latest_same_identity budget).
           rewrite Hu. reflexivity.
        -- revert H. apply after_poll_same_identity. intros c.
           apply poll_same_client.
      * assert (Hs : same_identity self s1)
          by (apply (update_offset_to_latest_same_identity budget);
              rewrite Hu; reflexivity).
        destruct e; cbn; intros H; inversion H; subst; exact Hs.
      * discriminate.
    + unfold DC.consume. rewrite E1, E2. cbn. intros H. inversion H.
      apply same_identity_refl.
Qed.

Lemma consume_message_same_identity budget how timeout : forall self s',
  state_after (DC._consume_message now budget how timeout self) = Some s' ->
  same_identity self s'.
Proof.
  induction budget as [| budget IH]; intros self s'; [discriminate |].
  rewrite consume_message_step.
  destruct (DC.consume now budget how timeout self)
    as [[m |] s1 | e s1 |] eqn:Hc; try discriminate;
    assert (Hs : same_identity self s1)
      by (apply (consume_same_identity budget how timeout);
          rewrite Hc; reflexivity).
  - cbn. intros H. inversion H; subst. exact Hs.
  - intros H. apply IH in H.
    exact (same_identity_trans _ _ _ Hs H).
  - cbn. intros H. inversion H; subst. exact Hs.
Qed.

Lemma consume_all_loop_same_identity budget end_message :
  forall messages self s',
    state_after (DC.consume_all_loop now budget end_message messages self)
    = Some s' ->
    same_identity self s'.
Proof.
  induction budget as [| budget IH]; intros messages self s';
    [discriminate |].
  cbn [DC.consume_all_loop]. unfold bind at 1.
  destruct (DC.consume now budget (lit "next") None self)
    as [[w |] s1 | e s1 |] eqn:Hc; try discriminate;
    assert (Hs : same_identity self s1)
      by (apply (consume_same_identity budget (lit "next") None);
          rewrite Hc; reflexivity).
  - destruct (py_eq (message w) end_message).
    + cbn. intros H. inversion H; subst. exact Hs.
    + intros H. apply IH in H. exact (same_identity_trans _ _ _ Hs H).
  - intros H. apply IH in H. exact (same_identity_trans _ _ _ Hs H).
  - cbn. intros H. inversion H; subst. exact Hs.
Qed.

(** X10: no read changes what the consumer is: whether they return or
    raise, [consume], the blocking [next] and [last] and [consume_all]
    leave the pipeline name, the prefix, the name, the topic name and the
    Kafka configuration as they were, and the Kafka client keeps its
    configuration and its subscription. *)
Theorem reads_keep_identity budget how timeout blocking_timeout
    end_message self s' :
  state_after (DC.consume now budget how timeout self) = Some s'
  \/ state_after (DC.next now budget self) = Some s'
  \/ state_after (DC.last now budget blocking_timeout self) = Some s'
  \/ state_after (DC.consume_all now budget end_message self) = Some s' ->
  same_identity self s'.
Proof.
  intros [H | [H | [H | H]]].
  - exact (consume_same_identity _ _ _ _ _ H).
  - exact (consume_message_same_identity _ _ _ _ _ H).
  - unfold DC.last in H. destruct (Qle_bool blocking_timeout 0).
    + cbn in H. inversion H. apply same_identity_refl.
    + exact (consume_message_same_identity _ _ _ _ _ H).
  - exact (consume_all_loop_same_identity _ _ _ _ _ H).
Qed.

End Identity.

(** ** One read, one poll *)

Section Polls.

Variable now : str.

(** X11: a "last"-mode [consume] is the offset seek followed by what a
    "next"-mode [consume] does from there: when
    [_update_offset_to_latest] returns, the two give the same result and
    leave the same consumer. *)
Theorem consume_last_is_seek_then_next budget budget' timeout self s1 :
  DC._update_offset_to_latest budget self = Return tt s1 ->
  DC.consume now budget (lit "last") timeout self
  = DC.consume now budget' (lit "next") timeout s1.
Proof.
  intros Hu. rewrite consume_last, consume_next, Hu.
  assert (Hs : same_identity self s1)
    by (apply (update_offset_to_latest_same_identity budget);
        rewrite Hu; reflexivity).
  destruct Hs as [_ [Hcfg _]]. unfold poll_timeout. rewrite Hcfg.
  reflexivity.
Qed.

(** X12: a "next"-mode [consume] polls the Kafka client exactly once and
    makes no other call.  It polls with the timeout it was given, unless
    that is [None] or zero: then it polls with the configured
    [CONSUMER_TIMEOUT]. *)
Theorem consume_next_polls_once budget timeout self s' :
  state_after (DC.consume now budget (lit "next") timeout self) = Some s' ->
  Kafka.calls (DC.consumer s')
  = Kafka.calls (DC.consumer self)
    ++ [Kafka.CallPoll
          match timeout with
          | None => CONSUMER_TIMEOUT (DC.kafka_config self)
          | Some t =>
              if Qeq_bool t 0 then CONSUMER_TIMEOUT (DC.kafka_config self)
              else Some t
          end]
  /\ Kafka.incoming (DC.consumer s') = tl (Kafka.incoming (DC.consumer self)).
Proof.
  rewrite consume_next. unfold poll_timeout, or_default, Kafka.poll.
  set (t := match timeout with
            | Some t => if Qeq_bool t 0
                        then CONSUMER_TIMEOUT (DC.kafka_config self)
                        else Some t
            | None => CONSUMER_TIMEOUT (DC.kafka_config self)
            end).
  change (Kafka.incoming (Kafka.logged (DC.consumer self) (Kafka.CallPoll t)))
    with (Kafka.incoming (DC.consumer self)).
  destruct (Kafka.incoming (DC.consumer self)) as [| d rest] eqn:Hin;
    [| destruct (Kafka.yields d) as [| m | e]];
    unfold after_poll, of_result;
    try match goal with
        | |- context [DC._validate_message now ?m] =>
            destruct (DC._validate_message now m)
        end;
    cbn; intros H; inversion H; cbn; rewrite ?Hin; split; reflexivity.
Qed.

(** X13: a record whose payload is well-formed JSON but not an object
    makes [_validate_message] raise [TypeError]: it is not reported as
    absent, and the blocking [next] does not go past it but raises the
    error to its caller, the record being consumed. *)
Theorem next_raises_on_non_object_payload budget self j d rest :
  is_py j = true ->
  is_object j = false ->
  Kafka.incoming (DC.consumer self) = d :: rest ->
  Kafka.yields d = Kafka.Polled (json_record j) ->
  DC._validate_message now (Some (json_record j)) = Err TypeError
  /\ exists s',
       DC.next now (S budget) self = Raise TypeError s'
       /\ Kafka.incoming (DC.consumer s') = rest.
Proof.
  intros Hj Ho Hin Hd.
  assert (E : DC._validate_message now (Some (json_record j)) = Err TypeError).
  { unfold DC._validate_message, json_record. cbn [value error].
    unfold utf8_decode. rewrite utf8_decode_loop_ascii;
      [| apply dumps_ascii | rewrite length_map; lia].
    rewrite loads_dumps by exact Hj.
    destruct j; try discriminate; reflexivity. }
  split; [exact E |].
  destruct (poll_incoming (poll_timeout self None) _ Hin)
    as [c' [Hc' Hpoll]].
  rewrite Hd in Hpoll.
  unfold DC.next. rewrite consume_message_step, consume_next, Hpoll.
  unfold after_poll. rewrite E. cbn.
  eexists. split; [reflexivity | exact Hc'].
Qed.

End Polls.

(** ** The fakes over many calls *)

Section Fakes.

Variable now : str.
Variables dataset_name node_name source_pipeline : str.

Local Notation "'wrapped'" :=
  (fake_envelope now dataset_name node_name source_pipeline).
Local Notation "'fake'" :=
  (fake_state dataset_name node_name source_pipeline).

Lemma fake_nexts_exhausted n e :
  fake_nexts now n (fake [] e) = Return (repeat None n) (fake [] e).
Proof.
  induction n as [| n IH]; [reflexivity |].
  cbn [fake_nexts repeat]. unfold bind at 1.
  change (FakeDatasetConsumer.next now (fake [] e))
    with (@Return FakeDatasetConsumer.t _ (@None FakeDatasetConsumer.returned)
            (fake [] e)).
  cbv iota beta. unfold bind at 1. rewrite IH. reflexivity.
Qed.

(** X14: successive [next()] calls of the fake hand out the seeded
    values in their order, each wrapped in an envelope, and nothing but
    [None] once the values are used up; the [empty] flag is up at the end
    unless the fake was seeded with no value at all. *)
Theorem fake_nexts_drain_in_order vs : forall more e,
  fake_nexts now (List.length vs + more) (fake vs e)
  = Return
      (List.map (fun v => Some (FakeDatasetConsumer.Envelope (wrapped v))) vs
       ++ repeat None more)
      (fake [] (match vs with [] => e | _ :: _ => true end)).
Proof.
  induction vs as [| v vs IH]; intros more e.
  - apply fake_nexts_exhausted.
  - cbn [List.length Nat.add fake_nexts List.map app]. unfold bind at 1.
    rewrite (fake_next_cons now dataset_name node_name source_pipeline v vs e).
    unfold bind at 1. rewrite IH. unfold ret.
    destruct vs; reflexivity.
Qed.

(** One call of the fake's [consume], whatever the mode: the values left
    are the values there were, or all of them but the first; the [empty]
    flag goes up only when the last value goes. *)
Lemma fake_after_step call s :
  let s' := fake_after now call s in
  (FakeDatasetConsumer.values s' = FakeDatasetConsumer.values s
   /\ FakeDatasetConsumer.empty s' = FakeDatasetConsumer.empty s)
  \/ (exists v,
        FakeDatasetConsumer.values s = v :: FakeDatasetConsumer.values s'
        /\ FakeDatasetConsumer.empty s'
           = match FakeDatasetConsumer.values s' with
             | [] => true
             | _ :: _ => FakeDatasetConsumer.empty s
             end).
Proof.
  destruct call as [how timeout]. destruct s as [ds n p vs e].
  unfold fake_after, FakeDatasetConsumer.consume. cbn [fst snd].
  destruct (negb (str_eqb how (lit "next") || str_eqb how (lit "last")));
    [left; split; reflexivity |].
  unfold bind at 1, get. cbn [FakeDatasetConsumer.values].
  destruct (str_eqb how (lit "next")); destruct vs as [| v vs];
    try (destruct (str_eqb how (lit "last")); left; split; reflexivity).
  right. exists v. destruct vs; split; reflexivity.
Qed.

(** X15: whatever calls of [consume] a fake consumer receives, the values
    it still holds are a tail of the values it was seeded with, its
    [empty] flag is up only when no value is left, and a fake seeded with
    no value never raises the flag. *)
Theorem fake_run_keeps_a_tail calls values :
  let s := fake_run now calls
             (FakeDatasetConsumer.__init__ dataset_name node_name
                source_pipeline values) in
  (exists taken, values = taken ++ FakeDatasetConsumer.values s)
  /\ (FakeDatasetConsumer.empty s = true -> FakeDatasetConsumer.values s = [])
  /\ (values = [] -> FakeDatasetConsumer.empty s = false).
Proof.
  cbv zeta. unfold fake_run.
  set (s0 := FakeDatasetConsumer.__init__ dataset_name node_name
               source_pipeline values).
  assert (H0 : (exists taken, values = taken ++ FakeDatasetConsumer.values s0)
               /\ (FakeDatasetConsumer.empty s0 = true ->
                   FakeDatasetConsumer.values s0 = [])
               /\ (values = [] -> FakeDatasetConsumer.empty s0 = false)).
  { split; [exists []; reflexivity |]. split; [discriminate | reflexivity]. }
  revert H0. generalize s0. clear s0.
  induction calls as [| call calls IH]; intros s H0; [exact H0 |].
  cbn [fold_left]. apply IH. clear IH.
  destruct H0 as [[taken Ht] [He Hn]].
  destruct (fake_after_step call s) as [[Hv Hf] | [v [Hv Hf]]].
  - rewrite Hv, Hf. split; [exists taken; exact Ht |]. split; assumption.
  - split; [| split].
    + exists (taken ++ [v]). rewrite <- app_assoc. cbn. rewrite <- Hv. exact Ht.
    + rewrite Hf.
      destruct (FakeDatasetConsumer.values (fake_after now call s));
        [reflexivity |].
      intros E. apply He in E. rewrite E in Hv. discriminate.
    + intros E. rewrite E, Hv in Ht.
      destruct taken; discriminate.
Qed.

End Fakes.

Section FakeProducer.

Variable now : str.

(** X16: the fake producer never fails and keeps what it was given, in
    order: after producing the messages [ms] its log is the log it had
    followed by one envelope for each message, stamped with the fake's
    dataset, node and pipeline. *)
Theorem fake_producer_logs_in_order ms : forall self,
  fake_produce_all now ms self
  = Return tt
      {| FakeDatasetProducer.dataset_name :=
           FakeDatasetProducer.dataset_name self;
         FakeDatasetProducer.node_name := FakeDatasetProducer.node_name self;
         FakeDatasetProducer.source_pipeline :=
           FakeDatasetProducer.source_pipeline self;
         FakeDatasetProducer.values :=
           FakeDatasetProducer.values self
           ++ List.map (fake_producer_envelope now self) ms |}.
Proof.
  induction ms as [| m ms IH]; intros self.
  - cbn. rewrite app_nil_r. destruct self; reflexivity.
  - cbn [fake_produce_all List.map]. unfold bind at 1.
    unfold FakeDatasetProducer.produce at 1. rewrite IH.
    cbn [FakeDatasetProducer.dataset_name FakeDatasetProducer.node_name
         FakeDatasetProducer.source_pipeline FakeDatasetProducer.values].
    rewrite <- app_assoc. reflexivity.
Qed.

End FakeProducer.

(** ** The producer over many calls *)

Section Producer.

Variable now : str.

Lemma wire_record_set_producer self p m key :
  wire_record now (DatasetProducer.set_producer self p) m key
  = wire_record now self m key.
Proof. reflexivity. Qed.

Lemma producer_after_nil self :
  DatasetProducer.set_producer self
    (producer_after (DatasetProducer.producer self) [])
  = self.
Proof.
  destruct self as [a b c d e f g [cfg rs n k]]. unfold producer_after.
  cbn. rewrite app_nil_r. reflexivity.
Qed.

(** X17: every [produce] hands exactly one record to the Kafka producer,
    polls it once before and flushes it once after: producing the items
    [items], whose keys can be encoded, leaves the records of the items,
    in order, behind those already produced, all on the producer's topic,
    and adds one poll and one flush per item. *)
Theorem produce_all_publishes_in_order items : forall self,
  forallb (fun item => key_encodes (snd item)) items = true ->
  produce_all now items self
  = Return tt
      (DatasetProducer.set_producer self
         (producer_after (DatasetProducer.producer self)
            (List.map (fun item => wire_record now self (fst item) (snd item))
               items))).
Proof.
  induction items as [| [m key] items IH]; intros self Hk.
  - cbn [produce_all List.map]. rewrite producer_after_nil. reflexivity.
  - cbn [forallb snd] in Hk. apply andb_prop in Hk. destruct Hk as [Hkey Hk].
    cbn [produce_all List.map fst snd]. unfold bind at 1.
    rewrite produce_returns by exact Hkey.
    rewrite IH by exact Hk.
    f_equal. destruct self as [a b c d e f g [cfg rs n k]].
    unfold DatasetProducer.set_producer, producer_after.
    cbn [DatasetProducer.source_pipeline DatasetProducer.dataset
         DatasetProducer.source_node DatasetProducer.prefix
         DatasetProducer.has_pipeline_prefix DatasetProducer.topic_name
         DatasetProducer.kafka_config DatasetProducer.producer
         Kafka.producer_config Kafka.produced Kafka.polls Kafka.flushes
         List.length].
    f_equal. f_equal.
    + rewrite <- app_assoc. reflexivity.
    + rewrite !length_map. lia.
    + rewrite !length_map. lia.
Qed.

(** X18: a key that cannot be encoded in UTF-8 makes [produce] raise
    [UnicodeEncodeError] after the poll and before anything is handed to
    the Kafka producer: no record is produced and nothing is flushed. *)
Theorem produce_raises_on_unencodable_key self m key :
  key_encodes key = false ->
  exists self',
    DatasetProducer.produce now m key self = Raise UnicodeEncodeError self'
    /\ Kafka.produced (DatasetProducer.producer self')
       = Kafka.produced (DatasetProducer.producer self)
    /\ Kafka.flushes (DatasetProducer.producer self')
       = Kafka.flushes (DatasetProducer.producer self)
    /\ Kafka.polls (DatasetProducer.producer self')
       = S (Kafka.polls (DatasetProducer.producer self)).
Proof.
  intros Hk. destruct key as [k |]; [| discriminate].
  unfold key_encodes in Hk.
  unfold DatasetProducer.produce.
  unfold bind at 1, get. unfold bind at 1.
  unfold DatasetProducer.on_producer at 1, on_field, Kafka.producer_poll.
  unfold bind at 1. unfold bind at 1, DatasetProducer.encode at 1.
  destruct (utf8_encode k); [discriminate |].
  eexists. split; [reflexivity |]. repeat split.
Qed.

(** The envelope read back is the envelope written when its strings are
    text. *)
Lemma decoded_envelope_text m :
  is_text_envelope m = true -> decoded_envelope m = m.
Proof.
  unfold is_text_envelope. intros H.
  repeat (apply andb_prop in H; let H' := fresh "H" in destruct H as [H H']).
  destruct m as [ts ds node pipe msg]. unfold decoded_envelope.
  cbn [timestamp dataset Models.source_node Models.source_pipeline message]
    in *.
  rewrite !joined_text, decoded_representable by assumption. reflexivity.
Qed.

Lemma is_text_envelope_is_py m :
  is_text_envelope m = true -> is_py_envelope m = true.
Proof.
  unfold is_text_envelope, is_py_envelope. intros H.
  repeat (apply andb_prop in H; let H' := fresh "H" in destruct H as [H H']).
  rewrite !is_text_is_str, representable_is_py by assumption. reflexivity.
Qed.

(** X19: the whole envelope survives the wire.  When the producer's
    names and the timestamp are text and the payload is
    JSON-representable, the consumer that polls the produced record
    returns exactly the envelope the producer built: the payload, the
    logical dataset name (not the topic name), the producing node and
    pipeline, and the producer's timestamp, not the time of the read. *)
Theorem consume_returns_the_produced_envelope
    (self : DatasetProducer.t) (p : json) (key : option str)
    (now' : str) (budget : nat) (timeout : option Q) (reader : DC.t)
    (d : Kafka.delivery) (rest : list Kafka.delivery) :
  is_text_envelope (DatasetProducer.envelope now self p) = true ->
  Kafka.incoming (DC.consumer reader) = d :: rest ->
  Kafka.yields d = Kafka.Polled (as_polled (wire_record now self p key)) ->
  exists reader',
    DC.consume now' budget (lit "next") timeout reader
    = Return (Some (DatasetProducer.envelope now self p)) reader'
    /\ Kafka.incoming (DC.consumer reader') = rest.
Proof.
  intros Ht Hin Hd.
  destruct (poll_incoming (poll_timeout reader timeout) _ Hin)
    as [c' [Hc' Hpoll]].
  rewrite Hd in Hpoll.
  rewrite consume_next, Hpoll. unfold after_poll, as_polled, wire_record.
  cbn [Kafka.payload_bytes].
  rewrite validate_wire by (apply is_text_envelope_is_py; exact Ht).
  rewrite decoded_envelope_text by exact Ht.
  eexists. split; [reflexivity | exact Hc'].
Qed.

End Producer.

(** ** The properties at sample inputs *)

Lemma consumer_group_id_is_its_name_witness :
  exists c,
    DC.__init__ sample_kafka_config None (sample_broker [])
      (lit "my_dataset") (lit "my_node") (lit "my_pipeline")
      (ConfigModel sample_model_with_params) None (Some (lit "test")) true
    = Ok c
    /\ DC.name c = lit "test.my_pipeline.my_node"
    /\ dict_get (Kafka.config (DC.consumer c)) (lit "group.id")
       = Some (JStr (lit "test.my_pipeline.my_node")).
Proof.
  eexists. split; [reflexivity |].
  pose proof
    (consumer_group_id_is_its_name sample_kafka_config None (sample_broker [])
       (lit "my_dataset") (lit "my_node") (lit "my_pipeline") None
       (Some (lit "test")) true (ConfigModel sample_model_with_params) _
       eq_refl) as [Hn Hg].
  split; [exact Hn | exact Hg].
Defined.

Lemma consumer_config_precedence_witness :
  exists c,
    DC.__init__ sample_kafka_config None (sample_broker [])
      (lit "my_dataset") (lit "my_node") (lit "my_pipeline")
      (ConfigModel sample_model_with_params) (Some (lit "broker:9092")) None
      true
    = Ok c
    /\ dict_get (Kafka.config (DC.consumer c)) (lit "auto.offset.reset")
       = Some (JStr (lit "latest"))
    /\ dict_get (Kafka.config (DC.consumer c)) (lit "bootstrap.servers")
       = Some (JStr (lit "broker:9092")).
Proof.
  eexists. split; [reflexivity |].
  split.
  - exact (consumer_config_precedence sample_kafka_config None
             (sample_broker []) (lit "my_dataset") (lit "my_node")
             (lit "my_pipeline") (Some (lit "broker:9092")) None true
             sample_model_with_params _ (lit "auto.offset.reset")
             eq_refl eq_refl ltac:(discriminate)).
  - exact (consumer_config_precedence sample_kafka_config None
             (sample_broker []) (lit "my_dataset") (lit "my_node")
             (lit "my_pipeline") (Some (lit "broker:9092")) None true
             sample_model_with_params _ (lit "bootstrap.servers")
             eq_refl eq_refl ltac:(discriminate)).
Defined.

Lemma producer_config_overridables_witness :
  exists p,
    DatasetProducer.__init__ sample_overridable_config (lit "my_dataset")
      (lit "my_node") (lit "my_pipeline")
      (ConfigModel sample_model_with_params) None true
    = Ok p
    /\ dict_get (Kafka.producer_config (DatasetProducer.producer p))
         (lit "acks") = Some (JStr (lit "all"))
    /\ dict_get (Kafka.producer_config (DatasetProducer.producer p))
         (lit "retention.ms") = None.
Proof.
  eexists. split; [reflexivity |].
  split.
  - exact (proj2 (producer_config_overridables sample_overridable_config
                    (lit "my_dataset") (lit "my_node") (lit "my_pipeline")
                    None true sample_model_with_params _ (lit "acks")
                    eq_refl)).
  - exact (proj2 (producer_config_overridables sample_overridable_config
                    (lit "my_dataset") (lit "my_node") (lit "my_pipeline")
                    None true sample_model_with_params _ (lit "retention.ms")
                    eq_refl)).
Defined.

Lemma next_returns_first_valid_message_witness :
  exists self',
    DC.next sample_now 4
      (sample_consumer
         ([idle_poll; delivering poll_limit_event;
           delivering not_json_record]
          ++ List.map delivering (published [payload_x; payload_y])))
    = Return (sample_envelope payload_x) self'
    /\ List.length (Kafka.incoming (DC.consumer self')) = 1%nat.
Proof.
  destruct
    (next_returns_first_valid_message sample_now
       [idle_poll; delivering poll_limit_event; delivering not_json_record]
       4
       (sample_consumer
          ([idle_poll; delivering poll_limit_event;
            delivering not_json_record]
           ++ List.map delivering (published [payload_x; payload_y])))
       (nth 0 (List.map delivering (published [payload_x; payload_y]))
          idle_poll)
       (skipn 1 (List.map delivering (published [payload_x; payload_y])))
       (sample_envelope payload_x)
       ltac:(vm_compute; reflexivity) ltac:(vm_compute; reflexivity)
       ltac:(vm_compute; reflexivity) ltac:(vm_compute; lia))
    as [self' [Hrun [Hrest _]]].
  exists self'. split; [exact Hrun |]. rewrite Hrest. vm_compute. reflexivity.
Defined.

Lemma update_offset_to_latest_waits_for_assignment_witness :
  exists self',
    DC._update_offset_to_latest 3
      (sample_consumer
         (delivering not_json_record :: idle_poll
          :: rebalanced [partition_0; partition_1] :: [idle_poll]))
    = Return tt self'
    /\ List.map offset (Kafka.assigned (DC.consumer self')) = [9%Z; 9%Z]
    /\ Kafka.incoming (DC.consumer self') = [idle_poll].
Proof.
  destruct
    (update_offset_to_latest_waits_for_assignment 3
       (sample_consumer
          (delivering not_json_record :: idle_poll
           :: rebalanced [partition_0; partition_1] :: [idle_poll]))
       [delivering not_json_record; idle_poll]
       (rebalanced [partition_0; partition_1]) [idle_poll]
       partition_0 [partition_1]
       eq_refl eq_refl eq_refl eq_refl eq_refl eq_refl ltac:(vm_compute; lia))
    as [self' [Hrun [Ha Hin]]].
  exists self'. split; [exact Hrun |]. split; [| exact Hin].
  rewrite Ha. reflexivity.
Defined.

Lemma last_mode_waits_for_ever_without_assignment_witness :
  DC._update_offset_to_latest 1000 (sample_consumer [idle_poll]) = Running
  /\ DC.last sample_now 1001 1%Q (sample_consumer [idle_poll]) = Running.
Proof.
  pose proof
    (last_mode_waits_for_ever_without_assignment sample_now 1000 None 1%Q
       (sample_consumer [idle_poll]) eq_refl eq_refl eq_refl)
    as [H1 [_ H3]].
  split; [exact H1 | exact H3].
Defined.

Lemma consume_all_runs_without_end_message_witness :
  DC.consume_all sample_now 1000 payload_end
    (sample_consumer
       (idle_poll :: List.map delivering (published [payload_x; payload_y])))
  = Running.
Proof.
  exact (consume_all_runs_without_end_message sample_now 1000 payload_end
           (sample_consumer
              (idle_poll
               :: List.map delivering (published [payload_x; payload_y])))
           [sample_envelope payload_x; sample_envelope payload_y]
           ltac:(vm_compute; reflexivity)).
Defined.

Lemma update_offset_to_latest_calls_witness :
  exists self',
    DC._update_offset_to_latest 0
      (assigned_consumer [partition_0; partition_1] (fun _ => 42%Z)
         [idle_poll])
    = Return tt self'
    /\ Kafka.calls (DC.consumer self')
       = [Kafka.CallAssignment;
          Kafka.CallGetWatermarkOffsets partition_0 false;
          Kafka.CallGetWatermarkOffsets partition_1 false;
          Kafka.CallAssign
            [DC.set_offset partition_0 41; DC.set_offset partition_1 41]]
    /\ Kafka.incoming (DC.consumer self') = [idle_poll].
Proof.
  destruct
    (update_offset_to_latest_calls 0
       (assigned_consumer [partition_0; partition_1] (fun _ => 42%Z)
          [idle_poll])
       partition_0 [partition_1] eq_refl eq_refl)
    as [self' [Hrun [Hcalls Hin]]].
  exists self'. split; [exact Hrun |]. split; [| exact Hin].
  rewrite Hcalls. reflexivity.
Defined.

Lemma reads_keep_identity_witness :
  exists s',
    state_after
      (DC.next sample_now 3
         (sample_consumer
            (List.map delivering (published [payload_x])))) = Some s'
    /\ DC.name s' = lit "my_pipeline.my_node"
    /\ DC.topic_name s' = lit "my_pipeline.my_dataset"
    /\ Kafka.subscription (DC.consumer s') = [lit "my_pipeline.my_dataset"].
Proof.
  eexists. split; [vm_compute; reflexivity |].
  match goal with
  | |- DC.name ?s = _ /\ _ =>
      pose proof
        (reads_keep_identity sample_now 3 (lit "next") None 1%Q payload_end
           (sample_consumer (List.map delivering (published [payload_x]))) s
           (or_intror (or_introl eq_refl)))
        as [_ [_ [_ [_ [Hn [Ht [_ [Hs _]]]]]]]]
  end.
  split; [exact Hn |]. split; [exact Ht | exact Hs].
Defined.

Lemma consume_last_is_seek_then_next_witness :
  exists s1,
    DC._update_offset_to_latest 0
      (assigned_consumer [partition_0] (fun _ => 42%Z)
         (List.map delivering (published [payload_x])))
    = Return tt s1
    /\ DC.consume sample_now 0 (lit "last") None
         (assigned_consumer [partition_0] (fun _ => 42%Z)
            (List.map delivering (published [payload_x])))
       = DC.consume sample_now 0 (lit "next") None s1.
Proof.
  eexists. split; [vm_compute; reflexivity |].
  exact (consume_last_is_seek_then_next sample_now 0 0 None
           (assigned_consumer [partition_0] (fun _ => 42%Z)
              (List.map delivering (published [payload_x])))
           _ eq_refl).
Defined.

Lemma consume_next_polls_once_witness :
  exists s',
    state_after
      (DC.consume sample_now 0 (lit "next") (Some 0%Q)
         (sample_consumer [idle_poll; idle_poll])) = Some s'
    /\ Kafka.calls (DC.consumer s')
       = [Kafka.CallSubscribe [lit "my_pipeline.my_dataset"];
          Kafka.CallPoll (CONSUMER_TIMEOUT sample_kafka_config)]
    /\ Kafka.incoming (DC.consumer s') = [idle_poll].
Proof.
  eexists. split; [vm_compute; reflexivity |].
  match goal with
  | |- Kafka.calls (DC.consumer ?s) = _ /\ _ =>
      exact (consume_next_polls_once sample_now 0 (Some 0%Q)
               (sample_consumer [idle_poll; idle_poll]) s eq_refl)
  end.
Defined.

Lemma next_raises_on_non_object_payload_witness :
  exists s',
    DC.next sample_now 1
      (sample_consumer [delivering (json_record (JArr [JInt 1; JInt 2]))])
    = Raise TypeError s'
    /\ Kafka.incoming (DC.consumer s') = [].
Proof.
  exact (proj2
           (next_raises_on_non_object_payload sample_now 0
              (sample_consumer
                 [delivering (json_record (JArr [JInt 1; JInt 2]))])
              (JArr [JInt 1; JInt 2])
              (delivering (json_record (JArr [JInt 1; JInt 2]))) []
              eq_refl eq_refl eq_refl eq_refl)).
Defined.

Lemma produce_all_publishes_in_order_witness :
  exists self',
    produce_all sample_now
      [(payload_x, None); (payload_y, Some (lit "k"))] sample_producer
    = Return tt self'
    /\ List.map Kafka.to_topic
         (Kafka.produced (DatasetProducer.producer self'))
       = [lit "my_pipeline.my_dataset"; lit "my_pipeline.my_dataset"]
    /\ Kafka.polls (DatasetProducer.producer self') = 2%nat
    /\ Kafka.flushes (DatasetProducer.producer self') = 2%nat.
Proof.
  eexists. split.
  - exact (produce_all_publishes_in_order sample_now
             [(payload_x, None); (payload_y, Some (lit "k"))]
             sample_producer eq_refl).
  - repeat split.
Defined.

Lemma produce_raises_on_unencodable_key_witness :
  exists self',
    DatasetProducer.produce sample_now payload_x (Some lone_surrogate)
      sample_producer
    = Raise UnicodeEncodeError self'
    /\ Kafka.produced (DatasetProducer.producer self') = [].
Proof.
  destruct
    (produce_raises_on_unencodable_key sample_now sample_producer payload_x
       (Some lone_surrogate) eq_refl)
    as [self' [Hrun [Hp _]]].
  exists self'. split; [exact Hrun | exact Hp].
Defined.

Lemma consume_returns_the_produced_envelope_witness :
  exists reader',
    DC.consume (lit "2031-05-05 05:05:05") 0 (lit "next") None
      (sample_consumer (List.map delivering (published [payload_nested])))
    = Return (Some (sample_envelope payload_nested)) reader'
    /\ timestamp (sample_envelope payload_nested) = sample_now
    /\ dataset (sample_envelope payload_nested) = lit "my_dataset".
Proof.
  destruct
    (consume_returns_the_produced_envelope sample_now sample_producer
       payload_nested None (lit "2031-05-05 05:05:05") 0 None
       (sample_consumer (List.map delivering (published [payload_nested])))
       (delivering
          (as_polled
             (wire_record sample_now sample_producer payload_nested None)))
       [] eq_refl ltac:(vm_compute; reflexivity) eq_refl)
    as [reader' [Hrun _]].
  exists reader'. split; [exact Hrun |]. split; reflexivity.
Defined.

(** ** The blocking [last] seeks again at every turn *)

Section Reseek.

Variable now : str.

Lemma poll_head timeout c d rest :
  Kafka.incoming c = d :: rest ->
  Kafka.poll timeout c
  = match Kafka.yields d with
    | Kafka.NoRecord => Return None (after_delivery timeout c d rest)
    | Kafka.Polled m => Return (Some m) (after_delivery timeout c d rest)
    | Kafka.PollRaises x => Raise x (after_delivery timeout c d rest)
    end.
Proof.
  intros H. unfold Kafka.poll.
  change (Kafka.incoming (Kafka.logged c (Kafka.CallPoll timeout)))
    with (Kafka.incoming c).
  rewrite H. reflexivity.
Qed.

Lemma seeks_app a b : seeks (a ++ b) = (seeks a + seeks b)%nat.
Proof. unfold seeks. rewrite filter_app, length_app. reflexivity. Qed.

Lemma seeks_watermark_calls cached ps :
  seeks (List.map (watermark_call cached) ps) = 0%nat.
Proof. induction ps as [| p ps IH]; [reflexivity | exact IH]. Qed.

(** The seek of a consumer that has partitions: what it leaves. *)
Lemma seek_when_assigned budget self p ps :
  Kafka.assigned (DC.consumer self) = p :: ps ->
  (forall q cached,
      watermark_available (DC.consumer self) cached q = true) ->
  exists s1,
    DC._update_offset_to_latest budget self = Return tt s1
    /\ Kafka.assigned (DC.consumer s1)
       = List.map (sought (DC.consumer self) (DC.cached self)) (p :: ps)
    /\ Kafka.incoming (DC.consumer s1) = Kafka.incoming (DC.consumer self)
    /\ Kafka.watermarks (DC.consumer s1) = Kafka.watermarks (DC.consumer self)
    /\ DC.kafka_config s1 = DC.kafka_config self
    /\ seeks (Kafka.calls (DC.consumer s1))
       = S (seeks (Kafka.calls (DC.consumer self))).
Proof.
  intros Hps Hw.
  unfold DC._update_offset_to_latest, bind, get, DC.on_consumer, on_field.
  unfold Kafka.assignment at 1.
  change (Kafka.assigned (Kafka.logged (DC.consumer self) Kafka.CallAssignment))
    with (Kafka.assigned (DC.consumer self)).
  rewrite Hps, while_not_partitions_assigned, logged_as_all.
  rewrite (@for_partition_returns (DC.cached self) (p :: ps)
             (logged_all (DC.consumer self) [Kafka.CallAssignment])).
  - unfold Kafka.assign. eexists. split; [reflexivity |].
    cbn [DC.consumer DC.set_consumer Kafka.assigned Kafka.incoming
         Kafka.watermarks Kafka.calls Kafka.logged logged_all
         DC.kafka_config].
    repeat (split; [reflexivity |]).
    rewrite !seeks_app.
    change (fun p0 : TopicPartition =>
              Kafka.CallGetWatermarkOffsets p0 (DC.cached self))
      with (watermark_call (DC.cached self)).
    rewrite seeks_watermark_calls. cbn. lia.
  - apply forallb_forall. intros q _. apply Hw.
Qed.

(** X20: the blocking [last] runs the offset seek again before every
    poll.  On a consumer that has partitions, it goes past the polls that
    give nothing and returns the first record that validates; when it
    returns it has sought once more than it went past polls. *)
Theorem blocking_last_seeks_before_every_poll timeout pre :
  forall budget self d rest w p ps,
    (0 < timeout)%Q ->
    Kafka.assigned (DC.consumer self) = p :: ps ->
    (forall q cached,
        watermark_available (DC.consumer self) cached q = true) ->
    Kafka.incoming (DC.consumer self) = pre ++ d :: rest ->
    forallb (fun d0 => passed_over now d0 && no_rebalance d0) pre = true ->
    delivered now d = Some w ->
    (List.length pre < budget)%nat ->
    exists s',
      DC.last now budget timeout self = Return w s'
      /\ Kafka.incoming (DC.consumer s') = rest
      /\ seeks (Kafka.calls (DC.consumer s'))
         = (seeks (Kafka.calls (DC.consumer self)) + List.length pre + 1)%nat.
Proof.
  intros budget self d rest w p ps Ht. unfold DC.last.
  assert (Hle : Qle_bool timeout 0 = false).
  { destruct (Qle_bool timeout 0) eqn:E; [| reflexivity].
    apply Qle_bool_iff in E. exfalso. exact (Qlt_not_le _ _ Ht E). }
  rewrite Hle. clear Hle Ht.
  revert budget self p ps.
  induction pre as [| d0 pre IH];
    intros budget self p ps Ha Hw Hin Hpre Hd Hb;
    (destruct budget as [| budget]; [cbn in Hb; lia |]);
    rewrite consume_message_step, consume_last;
    destruct (seek_when_assigned budget self p ps Ha Hw)
      as [s1 [Hu [Ha1 [Hin1 [Hw1 [Hcfg Hseeks]]]]]];
    rewrite Hu; cbn [app] in Hin; rewrite <- Hin1 in Hin;
    unfold poll_timeout; rewrite (poll_head _ _ _ _ Hin).
  - unfold delivered in Hd.
    destruct (Kafka.yields d) as [| m | e]; try discriminate.
    unfold after_poll, of_result.
    destruct (DC._validate_message now (Some m)) as [[w' |] | e];
      try discriminate.
    inversion Hd; subst w'.
    eexists. split; [reflexivity |].
    cbn [DC.consumer DC.with_cached DC.set_consumer after_delivery
         Kafka.incoming Kafka.calls].
    split; [reflexivity |].
    rewrite seeks_app, Hseeks. cbn. lia.
  - cbn [forallb] in Hpre. apply andb_prop in Hpre.
    destruct Hpre as [H0 Hpre]. apply andb_prop in H0.
    destruct H0 as [H0 Hnr]. unfold passed_over in H0.
    unfold no_rebalance in Hnr. cbn [List.length] in Hb.
    assert (Hnext :
      forall s2,
        DC.consumer s2
        = after_delivery
            (or_default (Some timeout) (CONSUMER_TIMEOUT (DC.kafka_config self)))
            (DC.consumer s1) d0 (pre ++ d :: rest) ->
        exists s',
          DC._consume_message now budget (lit "last") (Some timeout) s2
          = Return w s'
          /\ Kafka.incoming (DC.consumer s') = rest
          /\ seeks (Kafka.calls (DC.consumer s'))
             = (seeks (Kafka.calls (DC.consumer self))
                + S (List.length pre) + 1)%nat).
    { intros s2 Hs2.
      destruct (Kafka.rebalance d0) eqn:Hr; [discriminate |].
      destruct (IH budget s2
                  (sought (DC.consumer self) (DC.cached self) p)
                  (List.map (sought (DC.consumer self) (DC.cached self)) ps))
        as [s' [Hrun [Hrest Hcount]]].
      - rewrite Hs2. unfold after_delivery. cbn [Kafka.assigned].
        rewrite Hr. exact Ha1.
      - intros q cached. rewrite Hs2. unfold watermark_available, after_delivery.
        cbn [Kafka.watermarks]. rewrite Hw1. apply Hw.
      - rewrite Hs2. reflexivity.
      - exact Hpre.
      - exact Hd.
      - lia.
      - exists s'. split; [exact Hrun |]. split; [exact Hrest |].
        rewrite Hcount, Hs2. unfold after_delivery. cbn [Kafka.calls].
        rewrite seeks_app, Hseeks. cbn. lia. }
    destruct (Kafka.yields d0) as [| m | e].
    + unfold after_poll. cbn [of_result DC._validate_message].
      apply Hnext. reflexivity.
    + unfold after_poll, of_result.
      destruct (DC._validate_message now (Some m)) as [[w' |] | e];
        try discriminate.
      apply Hnext. reflexivity.
    + discriminate.
Qed.

(** X21: [consume_all] catches nothing of what the poll raises: the
    exception ends the call, and the messages gathered so far are not
    returned. *)
Theorem consume_all_raises_poll_errors end_message pre :
  forall budget self x d rest ws,
    Kafka.incoming (DC.consumer self) = pre ++ d :: rest ->
    kept now end_message pre = Some ws ->
    Kafka.yields d = Kafka.PollRaises x ->
    (List.length pre < budget)%nat ->
    exists s',
      DC.consume_all now budget end_message self = Raise x s'
      /\ Kafka.incoming (DC.consumer s') = rest.
Proof.
  unfold DC.consume_all. generalize (@nil MessageData) as messages.
  induction pre as [| d0 pre IH];
    intros messages budget self x d rest ws Hin Hkept Hd Hb;
    (destruct budget as [| budget]; [cbn in Hb; lia |]);
    cbn [DC.consume_all_loop]; unfold bind at 1; rewrite consume_next;
    cbn [app] in Hin; unfold poll_timeout;
    rewrite (poll_head _ _ _ _ Hin).
  - rewrite Hd. unfold after_poll.
    eexists. split; [reflexivity | reflexivity].
  - cbn [kept] in Hkept. cbn [List.length] in Hb.
    destruct (Kafka.yields d0) as [| m | e0]; [| | discriminate].
    + unfold after_poll. cbn [of_result DC._validate_message].
      apply IH with (d := d) (ws := ws); auto; lia.
    + unfold after_poll, of_result.
      destruct (DC._validate_message now (Some m)) as [[w |] | e0];
        [| | discriminate].
      * destruct (py_eq (message w) end_message); [discriminate |].
        destruct (kept now end_message pre) as [ws' |] eqn:Ek;
          [| discriminate].
        apply IH with (d := d) (ws := ws'); auto; lia.
      * apply IH with (d := d) (ws := ws); auto; lia.
Qed.

End Reseek.

(** ** The fake's [last] between [next] calls *)

Section FakeLast.

Variable now : str.
Variables dataset_name node_name source_pipeline : str.

Local Notation "'wrapped'" :=
  (fake_envelope now dataset_name node_name source_pipeline).
Local Notation "'fake'" :=
  (fake_state dataset_name node_name source_pipeline).

(** As long as a value is left, [next] calls take the values from the
    front and leave the [empty] flag as it was. *)
Lemma fake_nexts_take taken : forall r x e,
  fake_nexts now (List.length taken) (fake (taken ++ r ++ [x]) e)
  = Return
      (List.map (fun v => Some (FakeDatasetConsumer.Envelope (wrapped v)))
         taken)
      (fake (r ++ [x]) e).
Proof.
  induction taken as [| v taken IH]; intros r x e; [reflexivity |].
  cbn [List.length fake_nexts List.map app]. unfold bind at 1.
  rewrite (fake_next_cons now dataset_name node_name source_pipeline). unfold bind at 1.
  destruct (taken ++ r ++ [x]) as [| y l] eqn:E.
  - destruct taken; [destruct r |]; discriminate.
  - rewrite <- E, IH. reflexivity.
Qed.

Lemma fake_last_of_values r x e timeout :
  FakeDatasetConsumer.last now timeout (fake (r ++ [x]) e)
  = Return (Some (FakeDatasetConsumer.Value x)) (fake (r ++ [x]) e).
Proof.
  unfold FakeDatasetConsumer.last, FakeDatasetConsumer.consume.
  change (str_eqb (lit "last") (lit "next")) with false.
  change (str_eqb (lit "last") (lit "last")) with true.
  cbn [orb negb]. unfold bind, get.
  change (FakeDatasetConsumer.values (fake (r ++ [x]) e)) with (r ++ [x]).
  destruct (r ++ [x]) as [| y l] eqn:E.
  - destruct r; discriminate.
  - rewrite <- E, last_last. reflexivity.
Qed.

(** X22: the fake's [last] does not consume.  After any number of
    [next] calls that leave a value, [last] gives the final seeded value,
    raw, and leaves the fake as the [next] calls left it; once [next] has
    taken every value, [last] gives [None]. *)
Theorem fake_last_until_emptied taken r x e timeout :
  (_ <- fake_nexts now (List.length taken) ;;
   FakeDatasetConsumer.last now timeout) (fake (taken ++ r ++ [x]) e)
  = Return (Some (FakeDatasetConsumer.Value x)) (fake (r ++ [x]) e)
  /\ forall more,
      (_ <- fake_nexts now (List.length (taken ++ r ++ [x]) + more) ;;
       FakeDatasetConsumer.last now timeout) (fake (taken ++ r ++ [x]) e)
      = Return None (fake [] true).
Proof.
  split.
  - unfold bind. rewrite fake_nexts_take. apply fake_last_of_values.
  - intros more. unfold bind.
    assert (H : forall vs e0,
      vs <> [] ->
      exists rs, fake_nexts now (List.length vs + more) (fake vs e0)
                 = Return rs (fake [] true)).
    { induction vs as [| v vs IH]; intros e0 Hne; [congruence |].
      cbn [List.length Nat.add fake_nexts]. unfold bind at 1.
      rewrite (fake_next_cons now dataset_name node_name source_pipeline).
      unfold bind at 1.
      destruct vs as [| y l].
      - cbn [List.length Nat.add]. rewrite fake_nexts_exhausted.
        eexists. reflexivity.
      - destruct (IH e0) as [rs Hrs]; [discriminate |].
        rewrite Hrs. eexists. reflexivity. }
    destruct (H (taken ++ r ++ [x]) e) as [rs Hrs].
    { destruct taken; [destruct r |]; discriminate. }
    rewrite Hrs. reflexivity.
Qed.

End FakeLast.

Lemma blocking_last_seeks_before_every_poll_witness :
  exists self',
    DC.last sample_now 3 1%Q
      (assigned_consumer [partition_0; partition_1] (fun _ => 42%Z)
         ([idle_poll; delivering poll_limit_event]
          ++ List.map delivering (published [payload_x; payload_y])))
    = Return (sample_envelope payload_x) self'
    /\ List.length (Kafka.incoming (DC.consumer self')) = 1%nat
    /\ seeks (Kafka.calls (DC.consumer self')) = 3%nat.
Proof.
  destruct
    (blocking_last_seeks_before_every_poll sample_now 1%Q
       [idle_poll; delivering poll_limit_event] 3
       (assigned_consumer [partition_0; partition_1] (fun _ => 42%Z)
          ([idle_poll; delivering poll_limit_event]
           ++ List.map delivering (published [payload_x; payload_y])))
       (nth 0 (List.map delivering (published [payload_x; payload_y]))
          idle_poll)
       (skipn 1 (List.map delivering (published [payload_x; payload_y])))
       (sample_envelope payload_x) partition_0 [partition_1]
       eq_refl eq_refl ltac:(intros q cached; reflexivity)
       ltac:(vm_compute; reflexivity) ltac:(vm_compute; reflexivity)
       ltac:(vm_compute; reflexivity) ltac:(vm_compute; lia))
    as [self' [Hrun [Hrest Hseeks]]].
  exists self'. split; [exact Hrun |]. split.
  - rewrite Hrest. vm_compute. reflexivity.
  - rewrite Hseeks. reflexivity.
Defined.

Lemma consume_all_raises_poll_errors_witness :
  exists s',
    DC.consume_all sample_now 2 payload_end
      (sample_consumer
         (List.map delivering (published [payload_x])
          ++ poll_raising (KafkaException transport_error)
          :: List.map delivering (published [payload_end])))
    = Raise (KafkaException transport_error) s'
    /\ List.length (Kafka.incoming (DC.consumer s')) = 1%nat.
Proof.
  destruct
    (consume_all_raises_poll_errors sample_now payload_end
       (List.map delivering (published [payload_x])) 2
       (sample_consumer
          (List.map delivering (published [payload_x])
           ++ poll_raising (KafkaException transport_error)
           :: List.map delivering (published [payload_end])))
       (KafkaException transport_error)
       (poll_raising (KafkaException transport_error))
       (List.map delivering (published [payload_end]))
       [sample_envelope payload_x]
       eq_refl ltac:(vm_compute; reflexivity) eq_refl ltac:(vm_compute; lia))
    as [s' [Hrun Hrest]].
  exists s'. split; [exact Hrun |]. rewrite Hrest. vm_compute. reflexivity.
Defined.
